(** * Chunked movie transfer and synchronised playback

    A shallow embedding of [MovieStreamingService]
    (frontend/src/components/moviestreaming.ts) and the properties of its
    chunk codec, sender, reassembly buffer, decode feeder and playback
    synchroniser.  The source file holds two revisions of the class; the
    one embedded here is the first, with the adaptive pacing delay. *)

From Stdlib Require Import ZArith NArith QArith Qround Qabs Qminmax.
From Stdlib Require Import Lia Lqa ZifyNat ZifyN List Bool.
From Stdlib Require Import Strings.Ascii Strings.String Strings.Byte.
From Stdlib Require SpecFloat.
From stdpp Require Import base option list gmap strings pretty.

Import ListNotations.
Local Open Scope Z_scope.

Ltac Zify.zify_post_hook ::= Z.to_euclidean_division_equations.

(** ** The platform's base64 functions

    [btoa] and [atob] are provided by the browser.  They are modelled after
    their definition (RFC 4648 encoding, and the forgiving decoder that
    [atob] is specified to run).  A JS string whose code units are all below
    256 is a [string]; [btoa] raises on any other string and
    [arrayBufferToBase64] never builds one. *)
Module Base64.

Definition alphabet : list ascii :=
  list_ascii_of_string
    "ABCDEFGHIJKLMNOPQRSTUVWXYZabcdefghijklmnopqrstuvwxyz0123456789+/".

Definition padChar : ascii := "="%char.

Definition encodeSextet (n : N) : ascii := nth (N.to_nat n) alphabet padChar.

Definition decodeSextet (c : ascii) : option N :=
  let n := N_of_ascii c in
  if (65 <=? n)%N && (n <=? 90)%N then Some (n - 65)%N
  else if (97 <=? n)%N && (n <=? 122)%N then Some (n - 71)%N
  else if (48 <=? n)%N && (n <=? 57)%N then Some (n + 4)%N
  else if (n =? 43)%N then Some 62%N
  else if (n =? 47)%N then Some 63%N
  else None.

(** Three octets become four sextets; a final group of one or two octets
    is padded with [=]. *)
Fixpoint encodeGroups (l : list ascii) : list ascii :=
  match l with
  | [] => []
  | [a] =>
      let x := N_of_ascii a in
      [encodeSextet (x / 4); encodeSextet ((x mod 4) * 16); padChar; padChar]
  | [a; b] =>
      let x := N_of_ascii a in
      let y := N_of_ascii b in
      [encodeSextet (x / 4); encodeSextet ((x mod 4) * 16 + y / 16);
       encodeSextet ((y mod 16) * 4); padChar]
  | a :: b :: c :: rest =>
      let x := N_of_ascii a in
      let y := N_of_ascii b in
      let z := N_of_ascii c in
      encodeSextet (x / 4) :: encodeSextet ((x mod 4) * 16 + y / 16)
        :: encodeSextet ((y mod 16) * 4 + z / 64) :: encodeSextet (z mod 64)
        :: encodeGroups rest
  end%N.

Definition btoa (s : string) : string :=
  string_of_list_ascii (encodeGroups (list_ascii_of_string s)).

(** TAB, LF, FF, CR and SPACE. *)
Definition isAsciiWhitespace (c : ascii) : bool :=
  let n := N_of_ascii c in
  (n =? 9)%N || (n =? 10)%N || (n =? 12)%N || (n =? 13)%N || (n =? 32)%N.

Definition dropPad (r : list ascii) : list ascii :=
  match r with
  | c :: r' => if Ascii.eqb c padChar then r' else r
  | [] => r
  end.

(** When the length is a multiple of four, one or two trailing [=] are
    removed. *)
Definition stripPadding (l : list ascii) : list ascii :=
  if (length l mod 4 =? 0)%nat then rev (dropPad (dropPad (rev l))) else l.

Fixpoint decodeSextets (l : list ascii) : option (list N) :=
  match l with
  | [] => Some []
  | c :: r =>
      match decodeSextet c, decodeSextets r with
      | Some n, Some ns => Some (n :: ns)
      | _, _ => None
      end
  end.

(** Four sextets become three octets; the leftover bits of a final group
    of two or three sextets are discarded. *)
Fixpoint decodeGroups (l : list N) : list ascii :=
  match l with
  | p :: q :: r :: s :: rest =>
      ascii_of_N (p * 4 + q / 16) :: ascii_of_N ((q mod 16) * 16 + r / 4)
        :: ascii_of_N ((r mod 4) * 64 + s) :: decodeGroups rest
  | [p; q; r] =>
      [ascii_of_N (p * 4 + q / 16); ascii_of_N ((q mod 16) * 16 + r / 4)]
  | [p; q] => [ascii_of_N (p * 4 + q / 16)]
  | _ => []
  end%N.

(** [None] is the [InvalidCharacterError] that [atob] raises. *)
Definition atob (s : string) : option string :=
  let data := List.filter (fun c => negb (isAsciiWhitespace c)) (list_ascii_of_string s) in
  let data := stripPadding data in
  if (length data mod 4 =? 1)%nat then None
  else match decodeSextets data with
       | Some ns => Some (string_of_list_ascii (decodeGroups ns))
       | None => None
       end.

End Base64.

(** ** JavaScript numbers

    The quotients the service computes from its chunk counts are modelled
    as exact rationals, extended with the values a division by zero
    produces; their rounding to double precision is not modelled.  Times
    are doubles, see [Double]. *)
Module JSNum.

Inductive t := Fin (q : Q) | PosInf | NegInf | NaN.

(** [a / b] for integer-valued numbers. *)
Definition div (a b : Z) : t :=
  if b =? 0 then
    if a =? 0 then NaN else if 0 <? a then PosInf else NegInf
  else Fin (inject_Z a / inject_Z b).

(** [x * 100]. *)
Definition times100 (x : t) : t :=
  match x with
  | Fin q => Fin (q * 100)
  | other => other
  end.

(** [x >= q] for a finite [q]. *)
Definition geQ (x : t) (q : Q) : bool :=
  match x with
  | Fin a => Qle_bool q a
  | PosInf => true
  | NegInf | NaN => false
  end.

Definition isFinite (x : t) : bool :=
  match x with
  | Fin _ => true
  | _ => false
  end.

End JSNum.

(** ** Times

    Positions of playback and time stamps are JavaScript numbers, that is
    IEEE 754 binary64 values: the [spec_float] of Rocq's specification of
    floating-point arithmetic, with its correctly rounded operations. *)
Module Double.

Definition t := SpecFloat.spec_float.

Definition prec : Z := 53.

Definition emax : Z := 1024.

(** The double nearest to an integer: the integer itself below 2^53. *)
Definition ofZ (z : Z) : t := SpecFloat.binary_normalize prec emax z 0 false.

Definition add : t -> t -> t := SpecFloat.SFadd prec emax.

Definition sub : t -> t -> t := SpecFloat.SFsub prec emax.

Definition div : t -> t -> t := SpecFloat.SFdiv prec emax.

Definition abs : t -> t := SpecFloat.SFabs.

(** [x < y]; [false] when either is NaN. *)
Definition ltb : t -> t -> bool := SpecFloat.SFltb.

Definition isFinite (x : t) : bool :=
  match x with
  | SpecFloat.S754_zero _ | SpecFloat.S754_finite _ _ _ => true
  | SpecFloat.S754_infinity _ | SpecFloat.S754_nan => false
  end.

(** The value of the decimal literal [digits / 10^places]. *)
Definition decimal (digits places : Z) : t := div (ofZ digits) (ofZ (10 ^ places)).

End Double.

(** ** Configuration constants *)

Definition CHUNK_SIZE : Z := 16 * 1024.
Definition BUFFER_THRESHOLD : Q := 10 # 100.
Definition SYNC_INTERVAL : Z := 3000.
Definition SEEK_TOLERANCE : Double.t := Double.ofZ 1.

(** ** Data *)

(** The contents of an [ArrayBuffer] / [Uint8Array]. *)
Abbreviation Bytes := (list byte).

(** A [File]: its name, MIME type and contents; [size] is the length of the
    contents. *)
Record File := {
  file_name : string;
  file_type : string;
  file_bytes : Bytes
}.

Definition file_size (f : File) : Z := Z.of_nat (length (file_bytes f)).

(** [blob.slice(start, end)] for offsets that are not negative, the only
    ones the service passes: the bytes from [start] up to [end], clamped to
    the contents. *)
Definition slice (b : Bytes) (start end_ : Z) : Bytes :=
  take (Z.to_nat (end_ - start)) (drop (Z.to_nat start) b).

(** [arr[i]]: [None] is [undefined]. *)
Definition index {A} (arr : list A) (i : Z) : option A :=
  if i <? 0 then None else arr !! Z.to_nat i.

(** The wire envelope ([MovieMetadata], [ChunkMessage]) as [JSON.parse]
    gives it; an optional field that is absent is [None], and the numbers
    that count or index chunks are integers. *)
Module Wire.

Record MovieMetadata := {
  fileName : string;
  fileSize : Z;
  fileType : string
}.

Record SyncData := {
  currentTime : Double.t;
  paused : bool;
  timestamp : Double.t
}.

Inductive MessageType := metadata_t | chunk_t | sync_t | control_t.

Record ChunkMessage := {
  type : MessageType;
  chunkIndex : option Z;
  totalChunks : option Z;
  data : option string;
  metadata : option MovieMetadata;
  syncData : option SyncData;
  control : option string
}.

End Wire.

(** The play surface: the part of [HTMLVideoElement] the service reads and
    writes.  [playAllowed] says whether the browser lets [play()] start
    playback; when it does not, the promise is rejected and [paused] stays.
    [seekLands t] is the position the element takes when [currentTime] is
    set to the finite time [t]: [t] itself where the element can seek to
    it, otherwise the nearest position it can seek to (the HTML standard's
    seeking algorithm). *)
Module Video.

Record HTMLVideoElement := {
  currentTime : Double.t;
  paused : bool;
  playAllowed : bool;
  seekLands : Double.t -> Double.t
}.

Definition seek (t : Double.t) (v : HTMLVideoElement) : HTMLVideoElement :=
  {| currentTime := seekLands v t; paused := paused v;
     playAllowed := playAllowed v; seekLands := seekLands v |}.

Definition pause (v : HTMLVideoElement) : HTMLVideoElement :=
  {| currentTime := currentTime v; paused := true;
     playAllowed := playAllowed v; seekLands := seekLands v |}.

Definition play (v : HTMLVideoElement) : HTMLVideoElement :=
  {| currentTime := currentTime v;
     paused := if playAllowed v then false else paused v;
     playAllowed := playAllowed v; seekLands := seekLands v |}.

(** Seeking within a media resource that covers [earliest] to [latest]. *)
Definition clamp (earliest latest t : Double.t) : Double.t :=
  if Double.ltb t earliest then earliest
  else if Double.ltb latest t then latest
  else t.

End Video.

Inductive ReadyState := connecting | open | closing | closed.

Definition ReadyState_eqb (a b : ReadyState) : bool :=
  match a, b with
  | connecting, connecting | open, open | closing, closing | closed, closed => true
  | _, _ => false
  end.

(** The channel: its [readyState], and whether [send] raises although the
    channel is open (a full outbound buffer, for one). *)
Record RTCDataChannel := {
  readyState : ReadyState;
  sendFails : bool
}.

Inductive MediaSourceState := ms_closed | ms_open | ms_ended.

(** The decode sink: the blocks appended so far, in order, and whether the
    next [appendBuffer] raises. *)
Record SourceBuffer := {
  appended : list Bytes;
  appendFails : bool
}.

(** ** What the service makes happen outside itself *)

Inductive Direction := sending | receiving.

(** The texts handed to [onStatusUpdate]. *)
Inductive Status :=
| StProcessing
| StStartingTransfer
| StTransferCompleted
| StUploading (sent total : Z) (progress : JSNum.t)
| StReceiving (fileName : string) (fileSize : Z)
| StDownloading (received expected : Z) (progress : JSNum.t)
| StPreparing.

(** The texts handed to [onError]. *)
Inductive Error :=
| ErrChannelNotInitialized
| ErrChannelNotReady (state : ReadyState)
| ErrProcessMovie
| ErrConnectionLost
| ErrTransferFailed (chunk total : Z)
| ErrProcessChunk (chunk : Z)
| ErrBuffering.

Inductive Callback := cbSendNextChunk | cbMasterPlay.

(** Callback invocations, diagnostics ([console.warn], [console.error];
    [console.log] lines are left out), messages handed to the channel,
    timers set and calls on the play surface. *)
Inductive Effect :=
| OnProgressUpdate (progress : JSNum.t) (d : Direction)
| OnStatusUpdate (st : Status)
| OnError (e : Error)
| OnPlaybackReady
| ConsoleWarn (text : string)
| ConsoleError (text : string)
| ChannelSend (m : Wire.ChunkMessage)
| SetTimeout (cb : Callback) (delay : Q)
| VideoSeek (t : Double.t)
| VideoPause
| VideoPlay.

(** ** The service's fields *)

Record Service := {
  dataChannel : option RTCDataChannel;
  (* Sending state *)
  currentFile : option File;
  fileChunks : list Bytes;
  sendingProgress : Z;
  totalChunks : Z;
  isSending : bool;
  (* Receiving state *)
  receivedChunks : gmap Z Bytes;
  expectedTotalChunks : Z;
  receivingProgress : Z;
  movieMetadata : option Wire.MovieMetadata;
  (* Media handling *)
  mediaSource : option MediaSourceState;
  sourceBuffer : option SourceBuffer;
  videoElement : option Video.HTMLVideoElement;
  isBuffering : bool;
  playbackStarted : bool;
  bufferedChunkIndex : Z;
  (* Sync state *)
  isMaster : bool;
  syncInterval : bool  (* whether the broadcast interval is set *)
}.

(** Field assignment. *)

Definition set_dataChannel (v : option RTCDataChannel) (s : Service) : Service :=
  Build_Service v (currentFile s) (fileChunks s) (sendingProgress s)
    (totalChunks s) (isSending s) (receivedChunks s) (expectedTotalChunks s)
    (receivingProgress s) (movieMetadata s) (mediaSource s) (sourceBuffer s)
    (videoElement s) (isBuffering s) (playbackStarted s) (bufferedChunkIndex
    s) (isMaster s) (syncInterval s).

Definition set_currentFile (v : option File) (s : Service) : Service :=
  Build_Service (dataChannel s) v (fileChunks s) (sendingProgress s)
    (totalChunks s) (isSending s) (receivedChunks s) (expectedTotalChunks s)
    (receivingProgress s) (movieMetadata s) (mediaSource s) (sourceBuffer s)
    (videoElement s) (isBuffering s) (playbackStarted s) (bufferedChunkIndex
    s) (isMaster s) (syncInterval s).

Definition set_fileChunks (v : list Bytes) (s : Service) : Service :=
  Build_Service (dataChannel s) (currentFile s) v (sendingProgress s)
    (totalChunks s) (isSending s) (receivedChunks s) (expectedTotalChunks s)
    (receivingProgress s) (movieMetadata s) (mediaSource s) (sourceBuffer s)
    (videoElement s) (isBuffering s) (playbackStarted s) (bufferedChunkIndex
    s) (isMaster s) (syncInterval s).

Definition set_sendingProgress (v : Z) (s : Service) : Service :=
  Build_Service (dataChannel s) (currentFile s) (fileChunks s) v
    (totalChunks s) (isSending s) (receivedChunks s) (expectedTotalChunks s)
    (receivingProgress s) (movieMetadata s) (mediaSource s) (sourceBuffer s)
    (videoElement s) (isBuffering s) (playbackStarted s) (bufferedChunkIndex
    s) (isMaster s) (syncInterval s).

Definition set_totalChunks (v : Z) (s : Service) : Service :=
  Build_Service (dataChannel s) (currentFile s) (fileChunks s)
    (sendingProgress s) v (isSending s) (receivedChunks s)
    (expectedTotalChunks s) (receivingProgress s) (movieMetadata s)
    (mediaSource s) (sourceBuffer s) (videoElement s) (isBuffering s)
    (playbackStarted s) (bufferedChunkIndex s) (isMaster s) (syncInterval s).

Definition set_isSending (v : bool) (s : Service) : Service :=
  Build_Service (dataChannel s) (currentFile s) (fileChunks s)
    (sendingProgress s) (totalChunks s) v (receivedChunks s)
    (expectedTotalChunks s) (receivingProgress s) (movieMetadata s)
    (mediaSource s) (sourceBuffer s) (videoElement s) (isBuffering s)
    (playbackStarted s) (bufferedChunkIndex s) (isMaster s) (syncInterval s).

Definition set_receivedChunks (v : gmap Z Bytes) (s : Service) : Service :=
  Build_Service (dataChannel s) (currentFile s) (fileChunks s)
    (sendingProgress s) (totalChunks s) (isSending s) v (expectedTotalChunks
    s) (receivingProgress s) (movieMetadata s) (mediaSource s) (sourceBuffer
    s) (videoElement s) (isBuffering s) (playbackStarted s)
    (bufferedChunkIndex s) (isMaster s) (syncInterval s).

Definition set_expectedTotalChunks (v : Z) (s : Service) : Service :=
  Build_Service (dataChannel s) (currentFile s) (fileChunks s)
    (sendingProgress s) (totalChunks s) (isSending s) (receivedChunks s) v
    (receivingProgress s) (movieMetadata s) (mediaSource s) (sourceBuffer s)
    (videoElement s) (isBuffering s) (playbackStarted s) (bufferedChunkIndex
    s) (isMaster s) (syncInterval s).

Definition set_receivingProgress (v : Z) (s : Service) : Service :=
  Build_Service (dataChannel s) (currentFile s) (fileChunks s)
    (sendingProgress s) (totalChunks s) (isSending s) (receivedChunks s)
    (expectedTotalChunks s) v (movieMetadata s) (mediaSource s)
    (sourceBuffer s) (videoElement s) (isBuffering s) (playbackStarted s)
    (bufferedChunkIndex s) (isMaster s) (syncInterval s).

Definition set_movieMetadata (v : option Wire.MovieMetadata) (s : Service) : Service :=
  Build_Service (dataChannel s) (currentFile s) (fileChunks s)
    (sendingProgress s) (totalChunks s) (isSending s) (receivedChunks s)
    (expectedTotalChunks s) (receivingProgress s) v (mediaSource s)
    (sourceBuffer s) (videoElement s) (isBuffering s) (playbackStarted s)
    (bufferedChunkIndex s) (isMaster s) (syncInterval s).

Definition set_mediaSource (v : option MediaSourceState) (s : Service) : Service :=
  Build_Service (dataChannel s) (currentFile s) (fileChunks s)
    (sendingProgress s) (totalChunks s) (isSending s) (receivedChunks s)
    (expectedTotalChunks s) (receivingProgress s) (movieMetadata s) v
    (sourceBuffer s) (videoElement s) (isBuffering s) (playbackStarted s)
    (bufferedChunkIndex s) (isMaster s) (syncInterval s).

Definition set_sourceBuffer (v : option SourceBuffer) (s : Service) : Service :=
  Build_Service (dataChannel s) (currentFile s) (fileChunks s)
    (sendingProgress s) (totalChunks s) (isSending s) (receivedChunks s)
    (expectedTotalChunks s) (receivingProgress s) (movieMetadata s)
    (mediaSource s) v (videoElement s) (isBuffering s) (playbackStarted s)
    (bufferedChunkIndex s) (isMaster s) (syncInterval s).

Definition set_videoElement (v : option Video.HTMLVideoElement) (s : Service) : Service :=
  Build_Service (dataChannel s) (currentFile s) (fileChunks s)
    (sendingProgress s) (totalChunks s) (isSending s) (receivedChunks s)
    (expectedTotalChunks s) (receivingProgress s) (movieMetadata s)
    (mediaSource s) (sourceBuffer s) v (isBuffering s) (playbackStarted s)
    (bufferedChunkIndex s) (isMaster s) (syncInterval s).

Definition set_isBuffering (v : bool) (s : Service) : Service :=
  Build_Service (dataChannel s) (currentFile s) (fileChunks s)
    (sendingProgress s) (totalChunks s) (isSending s) (receivedChunks s)
    (expectedTotalChunks s) (receivingProgress s) (movieMetadata s)
    (mediaSource s) (sourceBuffer s) (videoElement s) v (playbackStarted s)
    (bufferedChunkIndex s) (isMaster s) (syncInterval s).

Definition set_playbackStarted (v : bool) (s : Service) : Service :=
  Build_Service (dataChannel s) (currentFile s) (fileChunks s)
    (sendingProgress s) (totalChunks s) (isSending s) (receivedChunks s)
    (expectedTotalChunks s) (receivingProgress s) (movieMetadata s)
    (mediaSource s) (sourceBuffer s) (videoElement s) (isBuffering s) v
    (bufferedChunkIndex s) (isMaster s) (syncInterval s).

Definition set_bufferedChunkIndex (v : Z) (s : Service) : Service :=
  Build_Service (dataChannel s) (currentFile s) (fileChunks s)
    (sendingProgress s) (totalChunks s) (isSending s) (receivedChunks s)
    (expectedTotalChunks s) (receivingProgress s) (movieMetadata s)
    (mediaSource s) (sourceBuffer s) (videoElement s) (isBuffering s)
    (playbackStarted s) v (isMaster s) (syncInterval s).

Definition set_isMaster (v : bool) (s : Service) : Service :=
  Build_Service (dataChannel s) (currentFile s) (fileChunks s)
    (sendingProgress s) (totalChunks s) (isSending s) (receivedChunks s)
    (expectedTotalChunks s) (receivingProgress s) (movieMetadata s)
    (mediaSource s) (sourceBuffer s) (videoElement s) (isBuffering s)
    (playbackStarted s) (bufferedChunkIndex s) v (syncInterval s).

Definition set_syncInterval (v : bool) (s : Service) : Service :=
  Build_Service (dataChannel s) (currentFile s) (fileChunks s)
    (sendingProgress s) (totalChunks s) (isSending s) (receivedChunks s)
    (expectedTotalChunks s) (receivingProgress s) (movieMetadata s)
    (mediaSource s) (sourceBuffer s) (videoElement s) (isBuffering s)
    (playbackStarted s) (bufferedChunkIndex s) (isMaster s) v.

(** The state the constructor leaves. *)
Definition newService (video : Video.HTMLVideoElement) : Service :=
  {| dataChannel := None;
     currentFile := None; fileChunks := []; sendingProgress := 0;
     totalChunks := 0; isSending := false;
     receivedChunks := ∅; expectedTotalChunks := 0; receivingProgress := 0;
     movieMetadata := None;
     mediaSource := None; sourceBuffer := None; videoElement := Some video;
     isBuffering := false; playbackStarted := false; bufferedChunkIndex := 0;
     isMaster := false; syncInterval := false |}.

(** ** Methods as actions

    A method takes the service's fields and gives the fields it leaves and
    the effects it caused, in order. *)

Definition Action := Service -> Service * list Effect.

Definition skip : Action := fun s => (s, []).

Definition emit (e : Effect) : Action := fun s => (s, [e]).

Definition emitAll (es : list Effect) : Action := fun s => (s, es).

Definition assign (f : Service -> Service) : Action := fun s => (f s, []).

Definition andThen (a b : Action) : Action := fun s =>
  let (s1, e1) := a s in
  let (s2, e2) := b s1 in
  (s2, e1 ++ e2).

Notation "a >> b" := (andThen a b) (at level 65, right associativity).

(** ** Chunk codec *)

Definition fromCharCode (b : byte) : ascii := ascii_of_byte b.

Definition charCodeAt (c : ascii) : byte := byte_of_ascii c.

Definition arrayBufferToBase64 (buffer : Bytes) : string :=
  let binary :=
    fold_left (fun binary b => String.append binary (String (fromCharCode b) EmptyString))
      buffer EmptyString in
  Base64.btoa binary.

(** [None] when [atob] raises. *)
Definition base64ToArrayBuffer (base64 : string) : option Bytes :=
  match Base64.atob base64 with
  | Some binary => Some (map charCodeAt (list_ascii_of_string binary))
  | None => None
  end.

(** The body of the chunking loop, run for [i], [i + 1], ... [count] times.
    Reading a region of the file is taken to succeed. *)
Fixpoint chunkLoop (count : nat) (i : Z) (file : File) (fileChunks : list Bytes)
  : list Bytes :=
  match count with
  | O => fileChunks
  | S count' =>
      let start := i * CHUNK_SIZE in
      let end_ := Z.min (start + CHUNK_SIZE) (file_size file) in
      let chunk := slice (file_bytes file) start end_ in
      chunkLoop count' (i + 1) file (fileChunks ++ [chunk])
  end.

Definition splitFileIntoChunks (file : File) : Action :=
  assign (set_fileChunks [])
  >> assign (set_totalChunks (Qceiling (inject_Z (file_size file) / inject_Z CHUNK_SIZE)))
  >> assign (set_sendingProgress 0)
  >> assign (fun s =>
       set_fileChunks (chunkLoop (Z.to_nat (totalChunks s)) 0 file (fileChunks s)) s).

(** ** Transfer sender *)

Definition channelOpen (s : Service) : bool :=
  match dataChannel s with
  | Some ch => ReadyState_eqb (readyState ch) open
  | None => false
  end.

(** [true] when the message was handed to the channel, [false] when
    [sendMessage] raised. *)
Definition sendMessage (message : Wire.ChunkMessage) (s : Service)
  : bool * list Effect :=
  match dataChannel s with
  | None => (false, [])
  | Some ch =>
      if negb (ReadyState_eqb (readyState ch) open) then (false, [])
      else if sendFails ch then (false, [ConsoleError "Failed to send message:"])
      else (true, [ChannelSend message])
  end.

Definition startSyncPlayback : Action := fun s =>
  match videoElement s with
  | None => emit (ConsoleError "No video element for playback") s
  | Some _ =>
      if isMaster s then emit (SetTimeout cbMasterPlay 1000) s else skip s
  end.

Definition chunkMessage (i total : Z) (base64Data : string) : Wire.ChunkMessage :=
  {| Wire.type := Wire.chunk_t;
     Wire.chunkIndex := Some i;
     Wire.totalChunks := Some total;
     Wire.data := Some base64Data;
     Wire.metadata := None; Wire.syncData := None; Wire.control := None |}.

Definition metadataMessage (total : Z) (md : Wire.MovieMetadata) : Wire.ChunkMessage :=
  {| Wire.type := Wire.metadata_t;
     Wire.chunkIndex := None;
     Wire.totalChunks := Some total;
     Wire.data := None;
     Wire.metadata := Some md; Wire.syncData := None; Wire.control := None |}.

Definition byteLength (b : Bytes) : Z := Z.of_nat (length b).

Definition sendNextChunk : Action := fun s =>
  if negb (isSending s) then skip s
  else if totalChunks s <=? sendingProgress s then
    (emit (OnStatusUpdate StTransferCompleted)
     >> assign (set_isSending false)
     >> startSyncPlayback) s
  else if negb (channelOpen s) then
    (emit (ConsoleError "Data channel not ready for sending chunk")
     >> emit (OnError ErrConnectionLost)
     >> assign (set_isSending false)) s
  else
    let catch : Action := fun s =>
      (emit (ConsoleError "Failed to send chunk")
       >> emit (OnError (ErrTransferFailed (sendingProgress s) (totalChunks s)))
       >> assign (set_isSending false)) s in
    match index (fileChunks s) (sendingProgress s) with
    | None => catch s
    | Some chunkData =>
        let base64Data := arrayBufferToBase64 chunkData in
        let message := chunkMessage (sendingProgress s) (totalChunks s) base64Data in
        match sendMessage message s with
        | (false, raised) => (emitAll raised >> catch) s
        | (true, sent) =>
            (emitAll sent
             >> assign (fun s => set_sendingProgress (sendingProgress s + 1) s)
             >> (fun s =>
                   let progress :=
                     JSNum.times100 (JSNum.div (sendingProgress s) (totalChunks s)) in
                   (emit (OnProgressUpdate progress sending)
                    >> (if (Z.rem (sendingProgress s) 10 =? 0)
                           || (sendingProgress s =? totalChunks s)
                        then emit (OnStatusUpdate
                                     (StUploading (sendingProgress s) (totalChunks s) progress))
                        else skip)) s)
             >> emit (SetTimeout cbSendNextChunk
                        (Qmax 10 (Qmin 50 (inject_Z (byteLength chunkData) / 1024))))) s
        end
    end.

(** The awaits of the chunking loop are taken in one step. *)
Definition shareMovie (file : File) : Action := fun s =>
  match dataChannel s with
  | None =>
      (emit (ConsoleError "Data channel not initialized")
       >> emit (OnError ErrChannelNotInitialized)) s
  | Some ch =>
      if negb (ReadyState_eqb (readyState ch) open) then
        (emit (ConsoleError "Data channel not ready")
         >> emit (OnError (ErrChannelNotReady (readyState ch)))) s
      else if isSending s then
        emit (ConsoleWarn "Already sending a movie") s
      else
        (assign (set_currentFile (Some file))
         >> assign (set_isSending true)
         >> assign (set_sendingProgress 0)
         >> emit (OnStatusUpdate StProcessing)
         >> splitFileIntoChunks file
         >> (fun s =>
               let md := {| Wire.fileName := file_name file;
                            Wire.fileSize := file_size file;
                            Wire.fileType := file_type file |} in
               match sendMessage (metadataMessage (totalChunks s) md) s with
               | (true, sent) =>
                   (emitAll sent
                    >> emit (OnStatusUpdate StStartingTransfer)
                    >> emit (SetTimeout cbSendNextChunk 500)) s
               | (false, raised) =>
                   (emitAll raised
                    >> emit (ConsoleError "Failed to process movie:")
                    >> emit (OnError ErrProcessMovie)
                    >> assign (set_isSending false)
                    >> assign (set_sendingProgress 0)) s
               end)) s
  end.

(** The channel changing its [readyState]. *)
Definition setReadyState (rs : ReadyState) (s : Service) : Service :=
  match dataChannel s with
  | Some ch => set_dataChannel (Some {| readyState := rs; sendFails := sendFails ch |}) s
  | None => s
  end.

Definition isSendTimer (e : Effect) : bool :=
  match e with
  | SetTimeout cbSendNextChunk _ => true
  | _ => false
  end.

(** The pacing loop: the timer [sendNextChunk] sets runs it again.  The
    list gives the channel's [readyState] at each run; the loop ends with
    the list or when no timer is left. *)
Fixpoint pacingLoop (channel : list ReadyState) (s : Service) : Service * list Effect :=
  match channel with
  | [] => (s, [])
  | rs :: channel' =>
      let (s1, e1) := sendNextChunk (setReadyState rs s) in
      if existsb isSendTimer e1 then
        let (s2, e2) := pacingLoop channel' s1 in (s2, e1 ++ e2)
      else (s1, e1)
  end.

(** ** Reassembly buffer *)

(** [mediaSource.endOfStream()] is taken not to raise. *)
Definition cleanupMediaSource : Action :=
  assign (fun s =>
            match mediaSource s with
            | Some ms_open => set_mediaSource (Some ms_ended) s
            | _ => s
            end)
  >> assign (set_sourceBuffer None).

(** The source buffer is created later, by the [sourceopen] listener. *)
Definition setupMediaSource : Action := fun s =>
  match videoElement s, movieMetadata s with
  | Some _, Some _ =>
      ((fun s => match mediaSource s with
                 | Some _ => cleanupMediaSource s
                 | None => skip s
                 end)
       >> assign (set_mediaSource (Some ms_closed))) s
  | _, _ =>
      emit (ConsoleError "Missing video element or metadata for MediaSource setup") s
  end.

Definition handleMetadata (message : Wire.ChunkMessage) : Action := fun s =>
  let invalid := emit (ConsoleError "Invalid metadata message") in
  match Wire.metadata message, Wire.totalChunks message with
  | Some md, Some total =>
      if total =? 0 then invalid s
      else
        (assign (set_movieMetadata (Some md))
         >> assign (set_expectedTotalChunks total)
         >> assign (set_receivedChunks ∅)
         >> assign (set_receivingProgress 0)
         >> assign (set_playbackStarted false)
         >> assign (set_bufferedChunkIndex 0)
         >> emit (OnStatusUpdate (StReceiving (Wire.fileName md) (Wire.fileSize md)))
         >> setupMediaSource) s
  | _, _ => invalid s
  end.

(** The ratio [checkPlaybackReadiness] evaluates; [None] when it returns
    before the division. *)
Definition bufferRatio (s : Service) : option JSNum.t :=
  if playbackStarted s || (expectedTotalChunks s =? 0) then None
  else Some (JSNum.div (receivingProgress s) (expectedTotalChunks s)).

Definition checkPlaybackReadiness : Action := fun s =>
  match bufferRatio s with
  | None => skip s
  | Some bufferRatio =>
      if JSNum.geQ bufferRatio BUFFER_THRESHOLD then
        (assign (set_playbackStarted true)
         >> emit (OnStatusUpdate StPreparing)
         >> emit OnPlaybackReady
         >> (fun s => if negb (isMaster s) then startSyncPlayback s else skip s)) s
      else skip s
  end.

(** ** Decode feeder *)

(** The collecting loop: [room] is how many more chunks the block may take
    (five less the chunks collected). *)
Fixpoint collectSequential (room : nat) (chunks : gmap Z Bytes) (currentIndex : Z)
    (chunksToAppend : list Bytes) : list Bytes * Z :=
  match room with
  | O => (chunksToAppend, currentIndex)
  | S room' =>
      match chunks !! currentIndex with
      | Some chunk =>
          collectSequential room' chunks (currentIndex + 1) (chunksToAppend ++ [chunk])
      | None => (chunksToAppend, currentIndex)
      end
  end.

Definition bufferChunks : Action := fun s =>
  match sourceBuffer s with
  | None => skip s
  | Some sb =>
      if isBuffering s then skip s
      else
        let (chunksToAppend, currentIndex) :=
          collectSequential 5 (receivedChunks s) (bufferedChunkIndex s) [] in
        match chunksToAppend with
        | [] => skip s
        | _ :: _ =>
            let combined := concat chunksToAppend in
            if appendFails sb then
              (assign (set_isBuffering false)
               >> emit (ConsoleError "Buffer append error:")
               >> emit (OnError ErrBuffering)) s
            else
              (assign (set_isBuffering true)
               >> assign (set_sourceBuffer
                            (Some {| appended := appended sb ++ [combined];
                                     appendFails := appendFails sb |}))
               >> assign (set_bufferedChunkIndex currentIndex)) s
        end
  end.

(** The [updateend] listener of the source buffer. *)
Definition onUpdateEnd : Action :=
  assign (set_isBuffering false) >> bufferChunks.

Definition handleChunk (message : Wire.ChunkMessage) : Action := fun s =>
  let invalid := emit (ConsoleError "Invalid chunk message - missing chunkIndex or data") in
  match Wire.chunkIndex message, Wire.data message with
  | Some chunkIndex, Some data =>
      if String.eqb data EmptyString then invalid s
      else
        match base64ToArrayBuffer data with
        | None =>
            (emit (ConsoleError "Error processing chunk")
             >> emit (OnError (ErrProcessChunk chunkIndex))) s
        | Some chunkData =>
            (assign (fun s => set_receivedChunks (<[chunkIndex := chunkData]> (receivedChunks s)) s)
             >> assign (fun s => set_receivingProgress (receivingProgress s + 1) s)
             >> (fun s =>
                   let progress :=
                     JSNum.times100
                       (JSNum.div (receivingProgress s) (expectedTotalChunks s)) in
                   (emit (OnProgressUpdate progress receiving)
                    >> (if (Z.rem (receivingProgress s) 10 =? 0)
                           || (receivingProgress s =? expectedTotalChunks s)
                        then emit (OnStatusUpdate
                                     (StDownloading (receivingProgress s)
                                        (expectedTotalChunks s) progress))
                        else skip)) s)
             >> checkPlaybackReadiness
             >> bufferChunks) s
        end
  | _, _ => invalid s
  end.

(** Chunk messages delivered one after the other. *)
Fixpoint deliver (messages : list Wire.ChunkMessage) : Action :=
  match messages with
  | [] => skip
  | m :: messages' => handleChunk m >> deliver messages'
  end.

(** ** Playback synchroniser *)

Definition onVideo (f : Video.HTMLVideoElement -> Video.HTMLVideoElement) : Action :=
  assign (fun s => set_videoElement (option_map f (videoElement s)) s).

(** [now] is the value of [Date.now()]. *)
Definition adjustedTime (now : Z) (sd : Wire.SyncData) : Double.t :=
  let networkDelay :=
    Double.div (Double.sub (Double.ofZ now) (Wire.timestamp sd)) (Double.ofZ 1000) in
  Double.add (Wire.currentTime sd) networkDelay.

Definition timeDiff (now : Z) (sd : Wire.SyncData) (video : Video.HTMLVideoElement)
  : Double.t :=
  Double.abs (Double.sub (Video.currentTime video) (adjustedTime now sd)).

(** A [play()] that the browser refuses is logged after the method has
    returned. *)
Definition reconcilePause (sd : Wire.SyncData) : Action := fun s =>
  match videoElement s with
  | Some video =>
      if Wire.paused sd && negb (Video.paused video) then
        (onVideo Video.pause >> emit VideoPause) s
      else if negb (Wire.paused sd) && Video.paused video then
        (onVideo Video.play >> emit VideoPlay) s
      else skip s
  | None => skip s
  end.

(** Setting [currentTime] to a number that is not finite raises a
    [TypeError]: the method is left with nothing done, which
    [handleSyncRaises] tells its caller. *)
Definition handleSync (now : Z) (message : Wire.ChunkMessage) : Action := fun s =>
  if isMaster s then skip s
  else
    match Wire.syncData message, videoElement s with
    | Some sd, Some video =>
        if Double.ltb SEEK_TOLERANCE (timeDiff now sd video) then
          if Double.isFinite (adjustedTime now sd) then
            (onVideo (Video.seek (adjustedTime now sd))
             >> emit (VideoSeek (adjustedTime now sd))
             >> reconcilePause sd) s
          else skip s
        else reconcilePause sd s
    | _, _ => skip s
    end.

Definition handleSyncRaises (now : Z) (message : Wire.ChunkMessage) (s : Service)
  : bool :=
  negb (isMaster s)
  && match Wire.syncData message, videoElement s with
     | Some sd, Some video =>
         Double.ltb SEEK_TOLERANCE (timeDiff now sd video)
         && negb (Double.isFinite (adjustedTime now sd))
     | _, _ => false
     end.

(** ** Vocabulary of the properties *)

(** What [handleChunk] stores for a message: the index and the decoded
    payload, when the message has both fields and the payload decodes. *)
Definition chunkPayload (message : Wire.ChunkMessage) : option (Z * Bytes) :=
  match Wire.chunkIndex message, Wire.data message with
  | Some chunkIndex, Some data =>
      if String.eqb data EmptyString then None
      else match base64ToArrayBuffer data with
           | Some chunkData => Some (chunkIndex, chunkData)
           | None => None
           end
  | _, _ => None
  end.

(** [receivingProgress / expectedTotalChunks >= BUFFER_THRESHOLD]. *)
Definition thresholdReached (s : Service) : bool :=
  JSNum.geQ (JSNum.div (receivingProgress s) (expectedTotalChunks s)) BUFFER_THRESHOLD.

Definition isPlaybackReady (e : Effect) : bool :=
  match e with
  | OnPlaybackReady => true
  | _ => false
  end.

Definition isError (e : Effect) : bool :=
  match e with
  | OnError _ => true
  | _ => false
  end.

Definition isChannelSend (e : Effect) : bool :=
  match e with
  | ChannelSend _ => true
  | _ => false
  end.

(** How many of the effects satisfy [p]. *)
Definition count (p : Effect -> bool) (effects : list Effect) : nat :=
  length (List.filter p effects).

(** The blocks the decode sink has been given. *)
Definition fed (s : Service) : list Bytes :=
  match sourceBuffer s with
  | Some sb => appended sb
  | None => []
  end.


(** What holds of the receiver from the metadata of a session on: playback
    has started exactly when the ratio has reached the threshold. *)
Definition readinessInv (s : Service) : Prop :=
  expectedTotalChunks s <> 0
  /\ 0 <= receivingProgress s
  /\ playbackStarted s = thresholdReached s.


(** The calls that reconcile the pause state, as the sample's and the play
    surface's [paused] flags decide them. *)
Definition pauseCalls (masterPaused localPaused : bool) : list Effect :=
  if masterPaused && negb localPaused then [VideoPause]
  else if negb masterPaused && localPaused then [VideoPlay]
  else [].

(** The chunk messages for [chunks], numbered from [i] on. *)
Fixpoint chunkSends (total i : Z) (chunks : list Bytes) : list Effect :=
  match chunks with
  | [] => []
  | c :: chunks' =>
      ChannelSend (chunkMessage i total (arrayBufferToBase64 c))
        :: chunkSends total (i + 1) chunks'
  end.

(** ** Sample inputs *)

Definition sampleVideo : Video.HTMLVideoElement :=
  {| Video.currentTime := Double.ofZ 98; Video.paused := false;
     Video.playAllowed := true;
     Video.seekLands := Video.clamp (Double.ofZ 0) (Double.ofZ 7200) |}.

(** Chunk 0 of 3, carrying the single byte [A]. *)
Definition sampleChunk : Wire.ChunkMessage := chunkMessage 0 3 "QQ==".

(** A receiver holding chunks 0, 1 and 3 (one byte each), with an idle
    source buffer and the cursor at 0. *)
Definition sampleGap : Service :=
  set_sourceBuffer (Some {| appended := []; appendFails := false |})
    (set_receivedChunks (<[0 := [x41]]> (<[1 := [x42]]> {[3 := [x44]]}))
       (set_expectedTotalChunks 4 (newService sampleVideo))).

(** The metadata of a file sent as 3 chunks. *)
Definition sampleMetadata : Wire.ChunkMessage :=
  metadataMessage 3
    {| Wire.fileName := "movie.mp4"; Wire.fileSize := 40000;
       Wire.fileType := "video/mp4" |}.

(** A receiver that has processed that metadata and nothing else. *)
Definition sampleSession : Service :=
  fst (handleMetadata sampleMetadata (newService sampleVideo)).

(** A sample taken at position 100.0 s, the master playing, stamped [t0];
    it is handled at [t0 + 400] ms. *)
Definition t0 : Z := 1700000000000.

Definition sampleSync : Wire.ChunkMessage :=
  {| Wire.type := Wire.sync_t;
     Wire.chunkIndex := None; Wire.totalChunks := None; Wire.data := None;
     Wire.metadata := None;
     Wire.syncData := Some {| Wire.currentTime := Double.ofZ 100;
                              Wire.paused := false;
                              Wire.timestamp := Double.ofZ t0 |};
     Wire.control := None |}.

Definition videoAt (t : Double.t) : Video.HTMLVideoElement :=
  {| Video.currentTime := t; Video.paused := false; Video.playAllowed := true;
     Video.seekLands := Video.clamp (Double.ofZ 0) (Double.ofZ 7200) |}.

(** A sender about to send chunk 30 of 64 on a channel that has closed. *)
Definition sampleLost : Service :=
  set_dataChannel (Some {| readyState := closed; sendFails := false |})
    (set_isSending true
       (set_sendingProgress 30
          (set_totalChunks 64 (newService sampleVideo)))).

(** A master that is sending. *)
Definition sampleMaster : Service :=
  set_isMaster true sampleLost.


Definition sampleFile : File :=
  {| file_name := "movie.mp4"; file_type := "video/mp4"; file_bytes := [x41; x42] |}.

(** Chunks 1 and 2 of 3, carrying the bytes [B] and [C]. *)
Definition sampleChunk1 : Wire.ChunkMessage := chunkMessage 1 3 "Qg==".

Definition sampleChunk2 : Wire.ChunkMessage := chunkMessage 2 3 "Qw==".

(** ** Events of the receiver

    A chunk message reaching [handleChunk], and the source buffer's
    [updateend]. *)
Inductive ReceiverEvent :=
| ChunkArrives (m : Wire.ChunkMessage)
| UpdateEnds.

Fixpoint receive (events : list ReceiverEvent) : Action :=
  match events with
  | [] => skip
  | ChunkArrives m :: events' => handleChunk m >> receive events'
  | UpdateEnds :: events' => onUpdateEnd >> receive events'
  end.

(** The store holds only chunks of [chunks], each under its index. *)
Definition storesOnly (chunks : list Bytes) (s : Service) : Prop :=
  forall (i : Z) (c : Bytes), receivedChunks s !! i = Some c -> index chunks i = Some c.

(** The store holds every chunk of [chunks]. *)
Definition storesAll (chunks : list Bytes) (s : Service) : Prop :=
  forall (i : Z) (c : Bytes), index chunks i = Some c -> receivedChunks s !! i = Some c.

(** The sink has been given the chunks of [chunks] before the cursor, in
    order, and nothing else. *)
Definition fedPrefix (chunks : list Bytes) (s : Service) : Prop :=
  0 <= bufferedChunkIndex s <= Z.of_nat (length chunks)
  /\ concat (fed s) = concat (take (Z.to_nat (bufferedChunkIndex s)) chunks).

(** A chunk message that, if accepted, carries a chunk of [chunks] under its
    index. *)
Definition carries (chunks : list Bytes) (ev : ReceiverEvent) : Prop :=
  match ev with
  | ChunkArrives m =>
      forall (i : Z) (c : Bytes), chunkPayload m = Some (i, c) -> index chunks i = Some c
  | UpdateEnds => True
  end.

(** The three one-byte chunks those messages carry, and a receiver in that
    session whose source buffer has been created. *)
Definition sampleChunks : list Bytes := [[x41]; [x42]; [x43]].

Definition sampleReceiver : Service :=
  set_sourceBuffer (Some {| appended := []; appendFails := false |}) sampleSession.


Definition isCompleted (e : Effect) : bool :=
  match e with
  | OnStatusUpdate StTransferCompleted => true
  | _ => false
  end.

Definition isMasterTimer (e : Effect) : bool :=
  match e with
  | SetTimeout cbMasterPlay _ => true
  | _ => false
  end.

(** An idle service on an open channel, and the same after [shareMovie] of
    the sample file. *)
Definition sampleIdle : Service :=
  set_dataChannel (Some {| readyState := open; sendFails := false |})
    (newService sampleVideo).

Definition sampleSender : Service := fst (shareMovie sampleFile sampleIdle).

(** A sender whose channel is open but raises on [send], and an empty file. *)
Definition sampleFailing : Service :=
  set_dataChannel (Some {| readyState := open; sendFails := true |}) sampleSender.

Definition emptyFile : File :=
  {| file_name := "empty.mp4"; file_type := "video/mp4"; file_bytes := [] |}.

(** ** The rest of the service

    The handlers below cause, besides the effects above, notifications with
    texts for which [Status] and [Error] have no constructor, and calls on
    the channel and the interval timer. *)
Inductive Notice :=
| Core (e : Effect)
| OnStatusText (text : string)
| OnErrorText (text : string)
| SetInterval (period : Z)
| ClearInterval
| ChannelClose.

Definition Handler := Service -> Service * list Notice.

Definition idle : Handler := fun s => (s, []).

Definition notify (n : Notice) : Handler := fun s => (s, [n]).

Definition update (f : Service -> Service) : Handler := fun s => (f s, []).

Definition lift (a : Action) : Handler := fun s =>
  let (s', es) := a s in (s', map Core es).

Definition andAlso (a b : Handler) : Handler := fun s =>
  let (s1, n1) := a s in
  let (s2, n2) := b s1 in
  (s2, n1 ++ n2).

Notation "a >>> b" := (andAlso a b) (at level 66, right associativity).

(** *** [formatFileSize] *)

Definition units : list string := ["B"; "KB"; "MB"; "GB"].

(** The scaling loop: [room] is how far [unitIndex] is from the last unit
    ([units.length - 1] less [unitIndex]). *)
Fixpoint scaleLoop (room : nat) (size : Q) (unitIndex : nat) : Q * nat :=
  match room with
  | O => (size, unitIndex)
  | S room' =>
      if Qle_bool 1024 size then scaleLoop room' (size / 1024) (S unitIndex)
      else (size, unitIndex)
  end.

(** [x.toFixed(1)]: the sign, then for a magnitude from 10^21 on what
    [Number::toString] makes of it ([numberToString], the platform's), and
    below that the tenths nearest to the magnitude (the larger of two that
    are equally near) with one digit after the point. *)
Definition toFixed1 (numberToString : Q -> string) (x : Q) : string :=
  let magnitude := Qabs x in
  String.append (if Qle_bool 0 x then EmptyString else "-"%string)
    (if Qle_bool (inject_Z (10 ^ 21)) magnitude then numberToString magnitude
     else
       let n := Qfloor (magnitude * 10 + (1 # 2)) in
       String.append (pretty (n / 10)) (String.append "." (pretty (n mod 10)))).

(** [bytes] is an integer the code holds exactly (below 2^53 in magnitude);
    a division by 1024 is exact on doubles, so [size] is the number the
    code holds. *)
Definition formatFileSize (numberToString : Q -> string) (bytes : Z) : string :=
  let (size, unitIndex) := scaleLoop (length units - 1) (inject_Z bytes) 0 in
  String.append (toFixed1 numberToString size)
    (String.append " " (nth unitIndex units EmptyString)).

(** *** Messages coming in *)

(** What [JSON.parse] makes of the data received: nothing (it raises, or
    gives [null]), a value whose [type] is none of the four, or a message. *)
Inductive Incoming :=
| Unparsable
| UnknownType
| Parsed (m : Wire.ChunkMessage).

(** [handleControl] only logs the command. *)
Definition handleControl (message : Wire.ChunkMessage) : Handler := idle.

(** [now] is the value of [Date.now()] while the message is handled. *)
Definition handleIncomingMessage (now : Z) (data : Incoming) : Handler :=
  match data with
  | Unparsable =>
      notify (Core (ConsoleError "Failed to parse/handle message:"))
      >>> notify (OnErrorText "Failed to process incoming data")
  | UnknownType => notify (Core (ConsoleWarn "Unknown message type:"))
  | Parsed message =>
      match Wire.type message with
      | Wire.metadata_t => lift (handleMetadata message)
      | Wire.chunk_t => lift (handleChunk message)
      | Wire.sync_t =>
          fun s =>
            if handleSyncRaises now message s then
              (notify (Core (ConsoleError "Failed to parse/handle message:"))
               >>> notify (OnErrorText "Failed to process incoming data")) s
            else lift (handleSync now message) s
      | Wire.control_t => handleControl message
      end
  end.

(** *** Sync broadcast *)

Definition syncMessage (video : Video.HTMLVideoElement) (now : Z) : Wire.ChunkMessage :=
  {| Wire.type := Wire.sync_t;
     Wire.chunkIndex := None; Wire.totalChunks := None; Wire.data := None;
     Wire.metadata := None;
     Wire.syncData := Some {| Wire.currentTime := Video.currentTime video;
                              Wire.paused := Video.paused video;
                              Wire.timestamp := Double.ofZ now |};
     Wire.control := None |}.

(** The callback of the broadcast interval. *)
Definition syncTick (now : Z) : Handler := fun s =>
  match videoElement s with
  | Some video =>
      if channelOpen s then
        match sendMessage (syncMessage video now) s with
        | (true, sent) => (s, map Core sent)
        | (false, raised) =>
            (s, map Core raised ++ [Core (ConsoleError "Failed to send sync:")])
        end
      else idle s
  | None => idle s
  end.

Definition startSyncBroadcast : Handler := fun s =>
  if negb (isMaster s) || syncInterval s then idle s
  else (update (set_syncInterval true) >>> notify (SetInterval SYNC_INTERVAL)) s.

(** The callback of the timer [startSyncPlayback] sets on the master; the
    promise of [play()] is taken to settle at once. *)
Definition onMasterPlayTimer : Handler := fun s =>
  match videoElement s with
  | Some video =>
      (lift (onVideo Video.play >> emit VideoPlay)
       >>> (if Video.playAllowed video then startSyncBroadcast
            else notify (Core (ConsoleError "Failed to start playback:"))
                 >>> notify (OnErrorText "Failed to start video playback"))) s
  | None => idle s
  end.

(** *** The media source opening *)

Definition quote : string := String "034"%char EmptyString.

Definition fallbacks : list string :=
  [String.append "video/mp4; codecs=" (String.append quote (String.append "avc1.42E01E" quote));
   String.append "video/webm; codecs=" (String.append quote (String.append "vp8" quote));
   "video/mp4"%string;
   "video/webm"%string].

(** The MIME type the listener settles on; [None] when it raises for want
    of a supported one. *)
Definition chooseMimeType (isTypeSupported : string -> bool) (fileType : string)
  : option string :=
  if isTypeSupported fileType then Some fileType
  else List.find isTypeSupported fallbacks.

(** The [sourceopen] listener.  [isTypeSupported] is
    [MediaSource.isTypeSupported]; [addSourceBuffer] gives the buffer the
    media source creates for a type, [None] when it raises. *)
Definition onSourceOpen (isTypeSupported : string -> bool)
    (addSourceBuffer : string -> option SourceBuffer) : Handler := fun s =>
  match mediaSource s, movieMetadata s with
  | Some _, Some md =>
      let unsupported :=
        notify (Core (ConsoleError "Failed to create SourceBuffer:"))
        >>> notify (OnErrorText
                      (String.append "Unsupported video format: " (Wire.fileType md))) in
      match chooseMimeType isTypeSupported (Wire.fileType md) with
      | Some mimeType =>
          match addSourceBuffer mimeType with
          | Some sb => update (set_sourceBuffer (Some sb)) s
          | None => unsupported s
          end
      | None => unsupported s
      end
  | _, _ => idle s
  end.

(** *** The channel *)

Definition cleanup : Handler :=
  (fun s => if syncInterval s
            then (notify ClearInterval >>> update (set_syncInterval false)) s
            else idle s)
  >>> lift cleanupMediaSource
  >>> update (set_mediaSource None)
  >>> update (set_receivedChunks ∅)
  >>> update (set_fileChunks [])
  >>> update (set_currentFile None)
  >>> update (set_isSending false)
  >>> update (set_playbackStarted false)
  >>> update (set_bufferedChunkIndex 0)
  >>> update (set_sendingProgress 0)
  >>> update (set_receivingProgress 0)
  >>> (fun s => match dataChannel s with
                | Some _ => (notify ChannelClose >>> update (set_dataChannel None)) s
                | None => idle s
                end).

(** The channel's [onopen], [onclose] and [onerror] handlers. *)
Definition onChannelOpen : Handler :=
  notify (OnStatusText "Data channel connected - ready for movie sharing").

Definition onChannelClose : Handler :=
  notify (OnStatusText "Data channel disconnected") >>> cleanup.

Definition onChannelError : Handler :=
  notify (Core (ConsoleError "Data channel error:"))
  >>> notify (OnErrorText "Data channel connection error").

(** ** Events

    What happens to a service whose channel is set up: the calls of the
    page, the callbacks of its timers, and the listeners it has installed on
    the channel, the media source and the source buffer. *)
Inductive Event :=
| CallShareMovie (file : File)
| CallCleanup
| SendTimerFires
| MasterPlayTimerFires
| SyncIntervalTicks (now : Z)
| MessageArrives (now : Z) (data : Incoming)
| SourceOpens (isTypeSupported : string -> bool)
    (addSourceBuffer : string -> option SourceBuffer)
| UpdateEnd
| ChannelBecomes (rs : ReadyState)
| ChannelErrors.

(** The channel's [onopen] and [onclose] run when its [readyState] becomes
    [open] and [closed]. *)
Definition react (ev : Event) : Handler :=
  match ev with
  | CallShareMovie file => lift (shareMovie file)
  | CallCleanup => cleanup
  | SendTimerFires => lift sendNextChunk
  | MasterPlayTimerFires => onMasterPlayTimer
  | SyncIntervalTicks now => syncTick now
  | MessageArrives now data => handleIncomingMessage now data
  | SourceOpens isTypeSupported addSourceBuffer =>
      onSourceOpen isTypeSupported addSourceBuffer
  | UpdateEnd => lift onUpdateEnd
  | ChannelBecomes rs =>
      update (setReadyState rs)
      >>> match rs with
          | open => onChannelOpen
          | closed => onChannelClose
          | _ => idle
          end
  | ChannelErrors => onChannelError
  end.

Fixpoint run (events : list Event) : Handler :=
  match events with
  | [] => idle
  | ev :: events' => react ev >>> run events'
  end.

(** The sink completing the appends it is given, one after the other:
    [updateend] comes only while an append is pending. *)
Fixpoint settle (fuel : nat) : Action := fun s =>
  match fuel with
  | O => skip s
  | S fuel' => if isBuffering s then (onUpdateEnd >> settle fuel') s else skip s
  end.

(** ** Vocabulary of the properties, continued *)




(** A notice that hands the channel a message, sets or clears a timer, or
    closes the channel. *)
Definition actsOutward (n : Notice) : bool :=
  match n with
  | Core (ChannelSend _) | Core (SetTimeout _ _)
  | SetInterval _ | ClearInterval | ChannelClose => true
  | _ => false
  end.

(** The channel, the sending state and the role are in [s'] as in [s]. *)
Definition senderUntouched (s s' : Service) : Prop :=
  dataChannel s' = dataChannel s
  /\ currentFile s' = currentFile s
  /\ fileChunks s' = fileChunks s
  /\ sendingProgress s' = sendingProgress s
  /\ totalChunks s' = totalChunks s
  /\ isSending s' = isSending s
  /\ isMaster s' = isMaster s
  /\ syncInterval s' = syncInterval s.

(** The messages handed to the channel, in order. *)
Definition sentMessages (effects : list Effect) : list Wire.ChunkMessage :=
  omap (fun e => match e with ChannelSend m => Some m | _ => None end) effects.

(** The messages among the events, in order of arrival. *)
Definition arrivals (events : list Event) : list Wire.ChunkMessage :=
  omap (fun ev => match ev with
                  | MessageArrives _ (Parsed m) => Some m
                  | _ => None
                  end) events.

(** An event of a receiver whose transfer is under way: a message that
    parses, or the sink completing an append. *)
Definition isReceiving (ev : Event) : bool :=
  match ev with
  | MessageArrives _ (Parsed _) | UpdateEnd => true
  | _ => false
  end.

(** A master and a follower for the samples. *)
Definition sampleBroadcaster : Service :=
  set_isMaster true (set_videoElement (Some (videoAt (Double.ofZ 100))) sampleIdle).

Definition sampleFollower : Service :=
  set_videoElement (Some (videoAt (Double.ofZ 98))) (newService sampleVideo).

Definition mp4Only (mimeType : string) : bool := String.eqb mimeType "video/mp4".

Definition freshBuffer (mimeType : string) : option SourceBuffer :=
  Some {| appended := []; appendFails := false |}.

(** An action that leaves the channel, the sending state and the role
    alone, and causes nothing that acts outward. *)
Definition inward (a : Action) : Prop :=
  forall s : Service,
    senderUntouched s (fst (a s))
    /\ List.filter actsOutward (map Core (snd (a s))) = [].




(** What holds of a receiver feeding the chunks of a file to a sink that
    accepts its blocks: the store and the sink hold nothing foreign, and
    when no append is pending nothing is waiting at the cursor. *)
Definition feedingInv (chunks : list Bytes) (s : Service) : Prop :=
  storesOnly chunks s
  /\ fedPrefix chunks s
  /\ (exists sb : SourceBuffer, sourceBuffer s = Some sb /\ appendFails sb = false)
  /\ (isBuffering s = false -> receivedChunks s !! bufferedChunkIndex s = None).

(** A chunk message of the file whose chunks are [chunks]. *)
Definition chunkOf (chunks : list Bytes) (m : Wire.ChunkMessage) : Prop :=
  Wire.type m = Wire.chunk_t /\ carries chunks (ChunkArrives m).

(** ** Theorems *)

Module Base64Facts.
Import Base64.

Lemma list_ind3 {A} (P : list A -> Prop) :
  P [] -> (forall a, P [a]) -> (forall a b, P [a; b]) ->
  (forall a b c r, P r -> P (a :: b :: c :: r)) ->
  forall l, P l.
Proof.
  intros H0 H1 H2 H3 l.
  enough (H : P l /\ (forall a, P (a :: l)) /\ (forall a b, P (a :: b :: l)))
    by apply H.
  induction l as [|x l (IH0 & IH1 & IH2)]; [now auto|].
  split; [apply IH1|]. split; [intros; apply IH2|].
  intros a b. apply H3, IH0.
Qed.

Lemma sextet_check (P : N -> bool) :
  forallb (fun k => P (N.of_nat k)) (seq 0 64) = true ->
  forall n, (n < 64)%N -> P n = true.
Proof.
  intros H n Hn. rewrite forallb_forall in H.
  specialize (H (N.to_nat n)). rewrite N2Nat.id in H.
  apply H, in_seq. lia.
Qed.

Lemma decode_encodeSextet (n : N) :
  (n < 64)%N -> decodeSextet (encodeSextet n) = Some n.
Proof.
  intros Hn.
  pose proof (sextet_check
    (fun k => match decodeSextet (encodeSextet k) with
              | Some m => N.eqb m k
              | None => false
              end) ltac:(vm_compute; reflexivity) n Hn) as H.
  cbv beta in H.
  destruct (decodeSextet (encodeSextet n)) as [m|]; [|discriminate].
  f_equal. now apply N.eqb_eq.
Qed.

Lemma encodeSextet_not_pad (n : N) :
  (n < 64)%N -> Ascii.eqb (encodeSextet n) padChar = false.
Proof.
  intros Hn.
  pose proof (sextet_check (fun k => negb (Ascii.eqb (encodeSextet k) padChar))
                ltac:(vm_compute; reflexivity) n Hn) as H.
  now apply negb_true_iff in H.
Qed.

Lemma encodeSextet_not_space (n : N) :
  (n < 64)%N -> isAsciiWhitespace (encodeSextet n) = false.
Proof.
  intros Hn.
  pose proof (sextet_check (fun k => negb (isAsciiWhitespace (encodeSextet k)))
                ltac:(vm_compute; reflexivity) n Hn) as H.
  now apply negb_true_iff in H.
Qed.

(** Rebuilds the octet of [a] from the sextets it was spread over. *)
Ltac octet a :=
  match goal with
  | |- context [ascii_of_N ?e] =>
      replace e with (N_of_ascii a) by lia; rewrite (ascii_N_embedding a)
  end.

Lemma encodeGroups_shape (l : list ascii) :
  exists (ns : list N) (k : nat),
    encodeGroups l = map encodeSextet ns ++ repeat padChar k
    /\ Forall (fun n => (n < 64)%N) ns
    /\ (k <= 2)%nat
    /\ ((length ns + k) mod 4 = 0)%nat
    /\ (length ns mod 4 <> 1)%nat
    /\ decodeGroups ns = l.
Proof.
  induction l as [|a|a b|a b c r (ns & k & E & HF & Hk & Hlen & Hne & HD)]
    using list_ind3.
  - exists [], 0%nat. split_and!; auto; cbn [length]; lia.
  - pose proof (N_ascii_bounded a).
    exists [N_of_ascii a / 4; (N_of_ascii a mod 4) * 16]%N, 2%nat.
    split_and!; [reflexivity| |lia|cbn [length]; lia|cbn [length]; lia|].
    + repeat constructor; lia.
    + cbn [decodeGroups]. now octet a.
  - pose proof (N_ascii_bounded a). pose proof (N_ascii_bounded b).
    exists [N_of_ascii a / 4; (N_of_ascii a mod 4) * 16 + N_of_ascii b / 16;
            (N_of_ascii b mod 16) * 4]%N, 1%nat.
    split_and!; [reflexivity| |lia|cbn [length]; lia|cbn [length]; lia|].
    + repeat constructor; lia.
    + cbn [decodeGroups]. octet a. now octet b.
  - pose proof (N_ascii_bounded a). pose proof (N_ascii_bounded b).
    pose proof (N_ascii_bounded c).
    exists (N_of_ascii a / 4 :: (N_of_ascii a mod 4) * 16 + N_of_ascii b / 16
              :: (N_of_ascii b mod 16) * 4 + N_of_ascii c / 64
              :: N_of_ascii c mod 64 :: ns)%N, k.
    split_and!; [|  |lia|cbn [length]; lia|cbn [length]; lia|].
    + cbn [encodeGroups map app]. now rewrite E.
    + repeat constructor; try lia. exact HF.
    + cbn [decodeGroups]. rewrite HD. octet a. octet b. now octet c.
Qed.

Lemma filter_encoded (ns : list N) (k : nat) :
  Forall (fun n => (n < 64)%N) ns ->
  List.filter (fun c => negb (isAsciiWhitespace c))
    (map encodeSextet ns ++ repeat padChar k)
  = map encodeSextet ns ++ repeat padChar k.
Proof.
  intros HF. rewrite List.filter_app. f_equal.
  - induction HF as [|n ns Hn _ IH]; [reflexivity|].
    cbn [map List.filter]. now rewrite (encodeSextet_not_space n Hn), IH.
  - induction k as [|k IH]; [reflexivity|].
    cbn [repeat List.filter]. now rewrite IH.
Qed.

Lemma dropPad_sextets (ns : list N) :
  Forall (fun n => (n < 64)%N) ns ->
  dropPad (rev (map encodeSextet ns)) = rev (map encodeSextet ns).
Proof.
  intros HF. rewrite <- map_rev.
  assert (HR : Forall (fun n => (n < 64)%N) (rev ns))
    by now apply List.Forall_rev.
  destruct HR as [|n r Hn _]; [reflexivity|].
  cbn [map dropPad]. now rewrite (encodeSextet_not_pad n Hn).
Qed.

Lemma stripPadding_encoded (ns : list N) (k : nat) :
  Forall (fun n => (n < 64)%N) ns -> (k <= 2)%nat ->
  ((length ns + k) mod 4 = 0)%nat ->
  stripPadding (map encodeSextet ns ++ repeat padChar k) = map encodeSextet ns.
Proof.
  intros HF Hk Hlen. unfold stripPadding.
  rewrite length_app, length_map, repeat_length, Hlen. cbn [Nat.eqb].
  rewrite rev_app_distr.
  assert (Hrep : forall j, rev (repeat padChar j) = repeat padChar j).
  { intros j. induction j as [|j IH]; [reflexivity|].
    cbn [repeat rev]. rewrite IH. clear IH.
    induction j as [|j IH]; [reflexivity|]. cbn [repeat app]. now rewrite IH. }
  rewrite Hrep.
  assert (Hpad : forall r, dropPad (padChar :: r) = r) by reflexivity.
  destruct k as [|[|[|k]]]; [| | |lia]; cbn [repeat app];
    rewrite ?Hpad, ?(dropPad_sextets ns HF); apply rev_involutive.
Qed.

Lemma decodeSextets_encoded (ns : list N) :
  Forall (fun n => (n < 64)%N) ns ->
  decodeSextets (map encodeSextet ns) = Some ns.
Proof.
  induction 1 as [|n ns Hn _ IH]; [reflexivity|].
  cbn [map decodeSextets]. now rewrite (decode_encodeSextet n Hn), IH.
Qed.

(** [atob] undoes [btoa] on every binary string. *)
Lemma atob_btoa (s : string) : atob (btoa s) = Some s.
Proof.
  unfold atob, btoa. rewrite list_ascii_of_string_of_list_ascii.
  destruct (encodeGroups_shape (list_ascii_of_string s))
    as (ns & k & E & HF & Hk & Hlen & Hne & HD).
  rewrite E, (filter_encoded ns k HF), (stripPadding_encoded ns k HF Hk Hlen).
  rewrite length_map.
  destruct (Nat.eqb_spec (length ns mod 4) 1) as [Heq|_]; [contradiction|].
  rewrite (decodeSextets_encoded ns HF), HD.
  now rewrite string_of_list_ascii_of_string.
Qed.

End Base64Facts.

(** *** Chunk codec *)

Lemma append_assoc (a b c : string) :
  String.append (String.append a b) c = String.append a (String.append b c).
Proof.
  induction a as [|x a IH]; [reflexivity|].
  change (String x (String.append (String.append a b) c)
          = String x (String.append a (String.append b c))).
  now rewrite IH.
Qed.

Lemma append_empty_r (a : string) : String.append a EmptyString = a.
Proof.
  induction a as [|x a IH]; [reflexivity|].
  change (String x (String.append a EmptyString) = String x a). now rewrite IH.
Qed.

Lemma binary_string (buffer : Bytes) (acc : string) :
  fold_left (fun binary b => String.append binary (String (fromCharCode b) EmptyString))
    buffer acc
  = String.append acc (string_of_list_ascii (map fromCharCode buffer)).
Proof.
  revert acc. induction buffer as [|b buffer IH]; intros acc; cbn [fold_left map].
  - symmetry. apply append_empty_r.
  - rewrite IH, append_assoc. reflexivity.
Qed.

(** Decoding the wire form of a chunk gives the chunk back. *)
Lemma base64_roundtrip (buffer : Bytes) :
  base64ToArrayBuffer (arrayBufferToBase64 buffer) = Some buffer.
Proof.
  unfold base64ToArrayBuffer, arrayBufferToBase64.
  rewrite Base64Facts.atob_btoa, binary_string.
  change (String.append EmptyString ?x) with x.
  rewrite list_ascii_of_string_of_list_ascii, map_map. f_equal.
  induction buffer as [|b buffer IH]; cbn [map]; [reflexivity|].
  rewrite IH. unfold charCodeAt, fromCharCode. now rewrite byte_of_ascii_of_byte.
Qed.

Lemma take_add_app {A} (n m : nat) (l : list A) :
  take (n + m) l = take n l ++ take m (drop n l).
Proof.
  revert l. induction n as [|n IH]; intros [|x l]; cbn; try reflexivity.
  - now destruct m.
  - now rewrite IH.
Qed.

Lemma slice_app (b : Bytes) (x y z : Z) :
  0 <= x <= y -> y <= z -> slice b x y ++ slice b y z = slice b x z.
Proof.
  intros Hxy Hyz. unfold slice.
  replace (Z.to_nat (z - x)) with (Z.to_nat (y - x) + Z.to_nat (z - y))%nat by lia.
  rewrite take_add_app, drop_drop.
  replace (Z.to_nat x + Z.to_nat (y - x))%nat with (Z.to_nat y) by lia.
  reflexivity.
Qed.

Lemma slice_clamped (b : Bytes) (x y : Z) :
  0 <= x -> slice b x (Z.min y (Z.of_nat (length b))) = slice b x y.
Proof.
  intros Hx. unfold slice.
  destruct (Z.le_gt_cases y (Z.of_nat (length b))) as [Hle|Hgt].
  - now rewrite Z.min_l.
  - rewrite Z.min_r by lia.
    rewrite !take_ge; [reflexivity| |]; rewrite length_drop; lia.
Qed.

Lemma slice_all (b : Bytes) (z : Z) :
  Z.of_nat (length b) <= z -> slice b 0 z = b.
Proof.
  intros Hz. unfold slice. cbn [Z.to_nat drop]. apply take_ge. lia.
Qed.

(** [Math.ceil(size / CHUNK_SIZE)] in integer arithmetic. *)
Lemma ceil_chunks (size : Z) :
  Qceiling (inject_Z size / inject_Z CHUNK_SIZE) = (size + CHUNK_SIZE - 1) / CHUNK_SIZE.
Proof.
  change CHUNK_SIZE with 16384. unfold Qceiling, Qfloor, Qdiv, Qmult, Qopp, Qinv, inject_Z.
  cbn [Qnum Qden]. change (Z.pos (1 * 16384)) with 16384. lia.
Qed.

Section Chunking.

Variable file : File.

Lemma chunkLoop_concat (count : nat) (i : Z) (acc : list Bytes) :
  0 <= i ->
  concat (chunkLoop count i file acc)
  = concat acc
    ++ slice (file_bytes file) (i * CHUNK_SIZE) ((i + Z.of_nat count) * CHUNK_SIZE).
Proof.
  revert i acc. induction count as [|count IH]; intros i acc Hi.
  - cbn [chunkLoop]. unfold slice.
    replace (Z.to_nat _) with 0%nat at 1 by lia. cbn [take]. now rewrite app_nil_r.
  - cbn [chunkLoop]. rewrite IH by lia.
    rewrite concat_app. cbn [concat]. rewrite app_nil_r, <- app_assoc. f_equal.
    unfold file_size. rewrite slice_clamped by (unfold CHUNK_SIZE; lia).
    replace ((i + 1) * CHUNK_SIZE) with (i * CHUNK_SIZE + CHUNK_SIZE) by lia.
    rewrite slice_app; [f_equal; lia | unfold CHUNK_SIZE; lia | unfold CHUNK_SIZE; lia].
Qed.

Lemma chunkLoop_length (count : nat) (i : Z) (acc : list Bytes) :
  length (chunkLoop count i file acc) = (length acc + count)%nat.
Proof.
  revert i acc. induction count as [|count IH]; intros i acc; cbn [chunkLoop].
  - lia.
  - rewrite IH, length_app. cbn [length]. lia.
Qed.

Lemma splitFileIntoChunks_fields (s : Service) :
  let total := (file_size file + CHUNK_SIZE - 1) / CHUNK_SIZE in
  totalChunks (fst (splitFileIntoChunks file s)) = total
  /\ fileChunks (fst (splitFileIntoChunks file s))
     = chunkLoop (Z.to_nat total) 0 file [].
Proof.
  cbn. now rewrite !ceil_chunks.
Qed.

End Chunking.

Lemma wire_roundtrip_all (chunks : list Bytes) :
  mapM base64ToArrayBuffer (map arrayBufferToBase64 chunks) = Some chunks.
Proof.
  apply mapM_Some. induction chunks as [|c chunks IH]; cbn [map]; constructor.
  - apply base64_roundtrip.
  - exact IH.
Qed.

(** C1.  Splitting a file of any size S makes ceil(S / 16 KiB) chunks (the
    least count n with S <= n * 16 KiB), every chunk survives its wire form
    (base64 encoding, then decoding), and the chunks concatenated in index
    order are the bytes of the file. *)
Theorem splitFileIntoChunks_roundtrip (file : File) (s : Service) :
  let s' := fst (splitFileIntoChunks file s) in
  totalChunks s' = Qceiling (inject_Z (file_size file) / inject_Z CHUNK_SIZE)
  /\ (totalChunks s' - 1) * CHUNK_SIZE < file_size file <= totalChunks s' * CHUNK_SIZE
  /\ Z.of_nat (length (fileChunks s')) = totalChunks s'
  /\ mapM base64ToArrayBuffer (map arrayBufferToBase64 (fileChunks s'))
     = Some (fileChunks s')
  /\ concat (fileChunks s') = file_bytes file.
Proof.
  intros s'. subst s'. split; [reflexivity|].
  destruct (splitFileIntoChunks_fields file s) as [-> ->].
  assert (Hsize : 0 <= file_size file) by (unfold file_size; lia).
  split_and!.
  - unfold CHUNK_SIZE. lia.
  - unfold CHUNK_SIZE. lia.
  - rewrite chunkLoop_length. cbn [length]. unfold CHUNK_SIZE. lia.
  - apply wire_roundtrip_all.
  - rewrite chunkLoop_concat by lia. cbn [concat app].
    change (0 * CHUNK_SIZE) with 0. apply slice_all.
    fold (file_size file). unfold CHUNK_SIZE. lia.
Qed.

(** *** Reassembly buffer and decode feeder *)

(** [checkPlaybackReadiness] writes [playbackStarted] only, and notifies
    readiness exactly when it had not started and the ratio, with a
    denominator that is not zero, has reached the threshold. *)
Lemma checkPlaybackReadiness_spec (s : Service) :
  let fires := negb (playbackStarted s) && negb (expectedTotalChunks s =? 0)
               && thresholdReached s in
  fst (checkPlaybackReadiness s) = (if fires then set_playbackStarted true s else s)
  /\ count isPlaybackReady (snd (checkPlaybackReadiness s)) = (if fires then 1 else 0)%nat
  /\ count isError (snd (checkPlaybackReadiness s)) = 0%nat.
Proof.
  unfold checkPlaybackReadiness, bufferRatio, thresholdReached.
  destruct (playbackStarted s) eqn:Hp; [now cbn|].
  destruct (expectedTotalChunks s =? 0) eqn:Hn; [now cbn|].
  cbn [orb negb andb].
  destruct (JSNum.geQ _ _); [|now cbn].
  unfold startSyncPlayback, andThen, assign, emit, skip. cbn.
  destruct (isMaster s), (videoElement s); cbn; auto.
Qed.

(** The collecting loop takes the chunks at [currentIndex],
    [currentIndex + 1], ... while they are present and there is room. *)
Lemma collectSequential_spec (room : nat) (chunks : gmap Z Bytes) (i : Z)
    (acc : list Bytes) :
  exists run : list Bytes,
    collectSequential room chunks i acc = (acc ++ run, i + Z.of_nat (length run))
    /\ (length run <= room)%nat
    /\ (forall (d : nat) (c : Bytes), run !! d = Some c -> chunks !! (i + Z.of_nat d) = Some c)
    /\ (length run = room \/ chunks !! (i + Z.of_nat (length run)) = None).
Proof.
  revert i acc. induction room as [|room IH]; intros i acc.
  - exists []. cbn. rewrite app_nil_r, Z.add_0_r. split_and!; auto. intros d c H; discriminate.
  - cbn [collectSequential]. destruct (chunks !! i) as [c|] eqn:Hc.
    + destruct (IH (i + 1) (acc ++ [c])) as (run & E & Hlen & Hrun & Hmax).
      exists (c :: run). rewrite E, <- app_assoc. cbn [app length].
      split_and!.
      * f_equal. lia.
      * lia.
      * intros [|d] c' Hd; cbn in Hd.
        -- injection Hd as <-. now rewrite Z.add_0_r.
        -- apply Hrun in Hd. rewrite <- Hd. f_equal. lia.
      * destruct Hmax as [Hmax|Hmax]; [left; lia|right].
        rewrite <- Hmax. f_equal. lia.
    + exists []. cbn [length]. rewrite app_nil_r, !Z.add_0_r.
      split_and!; auto with lia. intros d c H; discriminate.
Qed.

(** [bufferChunks] writes [isBuffering], [sourceBuffer] and
    [bufferedChunkIndex] only. *)
Lemma bufferChunks_frame (s : Service) :
  let s' := fst (bufferChunks s) in
  receivedChunks s' = receivedChunks s
  /\ receivingProgress s' = receivingProgress s
  /\ expectedTotalChunks s' = expectedTotalChunks s
  /\ playbackStarted s' = playbackStarted s
  /\ isMaster s' = isMaster s
  /\ videoElement s' = videoElement s
  /\ count isPlaybackReady (snd (bufferChunks s)) = 0%nat.
Proof.
  unfold bufferChunks.
  destruct (sourceBuffer s) as [sb|]; [|now cbn].
  destruct (isBuffering s); [now cbn|].
  destruct (collectSequential 5 _ _ _) as [[|c cs] j]; [now cbn|].
  destruct (appendFails sb); now cbn.
Qed.

(** The fields [handleChunk] writes before it evaluates readiness. *)
Lemma handleChunk_accepted (m : Wire.ChunkMessage) (s : Service) (i : Z) (b : Bytes) :
  chunkPayload m = Some (i, b) ->
  let s1 := set_receivingProgress (receivingProgress s + 1)
              (set_receivedChunks (<[i := b]> (receivedChunks s)) s) in
  let s2 := fst (checkPlaybackReadiness s1) in
  exists e1 : list Effect,
    handleChunk m s
    = (fst (bufferChunks s2),
       e1 ++ snd (checkPlaybackReadiness s1) ++ snd (bufferChunks s2))
    /\ count isPlaybackReady e1 = 0%nat
    /\ count isError e1 = 0%nat.
Proof.
  unfold chunkPayload, handleChunk.
  destruct (Wire.chunkIndex m) as [i'|]; [|discriminate].
  destruct (Wire.data m) as [d|]; [|discriminate].
  destruct (String.eqb d EmptyString); [discriminate|].
  destruct (base64ToArrayBuffer d) as [b'|]; [|discriminate].
  intros [= -> ->]. cbv zeta.
  unfold andThen, assign, emit, skip. cbn [fst snd].
  change (receivingProgress (set_receivedChunks (<[i:=b]> (receivedChunks s)) s))
    with (receivingProgress s).
  set (s1 := set_receivingProgress _ _).
  destruct (_ || _); cbn [fst snd app];
    destruct (checkPlaybackReadiness s1) as [s2 e2]; cbn [fst snd];
    destruct (bufferChunks s2) as [s3 e3]; cbn [fst snd app];
    match goal with
    | |- exists _, (_, ?x :: ?y :: _ ++ _) = _ /\ _ => exists [x; y]
    | |- exists _, (_, ?x :: _ ++ _) = _ /\ _ => exists [x]
    end; now cbn.
Qed.

(** A chunk message without an index or payload, or whose payload does not
    decode, changes no field and notifies no readiness. *)
Lemma handleChunk_rejected (m : Wire.ChunkMessage) (s : Service) :
  chunkPayload m = None ->
  fst (handleChunk m s) = s
  /\ count isPlaybackReady (snd (handleChunk m s)) = 0%nat.
Proof.
  unfold chunkPayload, handleChunk.
  destruct (Wire.chunkIndex m) as [i'|]; [|now cbn].
  destruct (Wire.data m) as [d|]; [|now cbn].
  destruct (String.eqb d EmptyString); [now cbn|].
  destruct (base64ToArrayBuffer d) as [b'|]; [discriminate|now cbn].
Qed.

(** An accepted chunk is stored under its index and counted; the expected
    total is left as it is. *)
Lemma handleChunk_stores (m : Wire.ChunkMessage) (s : Service) (i : Z) (b : Bytes) :
  chunkPayload m = Some (i, b) ->
  receivedChunks (fst (handleChunk m s)) = <[i := b]> (receivedChunks s)
  /\ receivingProgress (fst (handleChunk m s)) = receivingProgress s + 1
  /\ expectedTotalChunks (fst (handleChunk m s)) = expectedTotalChunks s.
Proof.
  intros Hm. destruct (handleChunk_accepted m s i b Hm) as (e1 & -> & _).
  cbn [fst]. set (s1 := set_receivingProgress _ _).
  destruct (bufferChunks_frame (fst (checkPlaybackReadiness s1)))
    as (-> & -> & -> & _).
  destruct (checkPlaybackReadiness_spec s1) as (-> & _).
  now destruct (_ && _).
Qed.

(** C2, as the code has it.  Delivering the same chunk message a second time
    leaves [receivedChunks] as the first delivery left it, but the count is
    not idempotent: [receivingProgress] grows by one on every delivery that
    [handleChunk] accepts (a delivery it rejects changes neither). *)
Theorem handleChunk_redelivery (m : Wire.ChunkMessage) (s : Service) :
  let s1 := fst (handleChunk m s) in
  let s2 := fst (handleChunk m s1) in
  receivedChunks s2 = receivedChunks s1
  /\ (chunkPayload m <> None -> receivingProgress s2 = receivingProgress s1 + 1)
  /\ (chunkPayload m = None -> receivingProgress s2 = receivingProgress s1).
Proof.
  cbv zeta. destruct (chunkPayload m) as [[i b]|] eqn:Hm.
  - destruct (handleChunk_stores m (fst (handleChunk m s)) i b Hm) as (-> & -> & _).
    destruct (handleChunk_stores m s i b Hm) as (-> & _ & _).
    split_and!; [apply insert_insert_eq | reflexivity | discriminate].
  - destruct (handleChunk_rejected m (fst (handleChunk m s)) Hm) as (-> & _).
    split_and!; [reflexivity | congruence | reflexivity].
Qed.

Lemma handleChunk_redelivery_witness :
  receivingProgress (fst (handleChunk sampleChunk (fst (handleChunk sampleChunk sampleSession))))
  = receivingProgress (fst (handleChunk sampleChunk sampleSession)) + 1.
Proof.
  apply (handleChunk_redelivery sampleChunk sampleSession).
  vm_compute. discriminate.
Defined.

(** C2 fails as stated: in a session of 3 chunks, the second delivery of
    chunk 0 leaves the stored chunks alone but raises the received count
    from 1 to 2. *)
Lemma handleChunk_redelivery_counts_again :
  let s1 := fst (handleChunk sampleChunk sampleSession) in
  let s2 := fst (handleChunk sampleChunk s1) in
  expectedTotalChunks sampleSession = 3
  /\ receivingProgress s1 = 1 /\ receivingProgress s2 = 2
  /\ ~ (receivedChunks s2 = receivedChunks s1
        /\ receivingProgress s2 = receivingProgress s1).
Proof.
  cbv zeta. split_and!; [reflexivity | reflexivity | reflexivity |].
  intros [_ H]. vm_compute in H. discriminate.
Qed.

(** Whenever [checkPlaybackReadiness] evaluates the ratio, the denominator
    is not zero and the ratio is a finite number. *)
Lemma bufferRatio_finite (s : Service) (q : JSNum.t) :
  bufferRatio s = Some q -> JSNum.isFinite q = true.
Proof.
  unfold bufferRatio, JSNum.div.
  destruct (playbackStarted s); [discriminate|].
  destruct (expectedTotalChunks s =? 0); [discriminate|].
  now intros [= <-].
Qed.

Lemma checkPlaybackReadiness_no_metadata (s : Service) :
  expectedTotalChunks s = 0 -> checkPlaybackReadiness s = (s, []).
Proof.
  intros H. unfold checkPlaybackReadiness, bufferRatio. rewrite H.
  now rewrite orb_true_r.
Qed.




(** C10.  While no metadata has been processed ([expectedTotalChunks] is
    0), [checkPlaybackReadiness] returns before it evaluates the ratio: it
    changes nothing and notifies nothing, however many chunk messages are
    delivered; and whenever it does evaluate the ratio the denominator is
    not zero, so the ratio is finite. *)
Theorem checkPlaybackReadiness_without_metadata (s : Service) :
  expectedTotalChunks s = 0 ->
  bufferRatio s = None
  /\ checkPlaybackReadiness s = (s, [])
  /\ (forall messages : list Wire.ChunkMessage,
        expectedTotalChunks (fst (deliver messages s)) = 0
        /\ playbackStarted (fst (deliver messages s)) = playbackStarted s
        /\ count isPlaybackReady (snd (deliver messages s)) = 0%nat)
  /\ (forall (s' : Service) (q : JSNum.t),
        bufferRatio s' = Some q -> JSNum.isFinite q = true).
Proof.
  intros Hn. split_and!.
  - unfold bufferRatio. rewrite Hn. now rewrite orb_true_r.
  - now apply checkPlaybackReadiness_no_metadata.
  - intros messages. revert s Hn.
    induction messages as [|m messages IH]; intros s Hn; [now cbn|].
    cbn [deliver]. unfold andThen.
    destruct (handleChunk m s) as [s1 e1] eqn:E1.
    assert (H1 : expectedTotalChunks s1 = 0 /\ playbackStarted s1 = playbackStarted s
                 /\ count isPlaybackReady e1 = 0%nat).
    { destruct (chunkPayload m) as [[i b]|] eqn:Hm.
      - destruct (handleChunk_accepted m s i b Hm) as (e0 & E & He0 & _).
        rewrite E1 in E. injection E as -> ->.
        set (s0 := set_receivingProgress _ _).
        rewrite (checkPlaybackReadiness_no_metadata s0 Hn). cbn [fst snd app].
        destruct (bufferChunks_frame s0) as (_ & _ & -> & -> & _ & _ & Hb).
        unfold count in *. rewrite List.filter_app, length_app, He0, Hb.
        now split_and!.
      - destruct (handleChunk_rejected m s Hm) as (Hs & He).
        rewrite E1 in Hs, He. cbn [fst snd] in Hs, He. subst s1. now split_and!. }
    destruct H1 as (Hn1 & Hp1 & Hc1).
    destruct (IH s1 Hn1) as (IHn & IHp & IHc).
    destruct (deliver messages s1) as [s2 e2]. cbn [fst snd] in *.
    split_and!; [exact IHn | congruence |].
    unfold count in *. rewrite List.filter_app, length_app. lia.
  - apply bufferRatio_finite.
Qed.

Lemma checkPlaybackReadiness_without_metadata_witness :
  checkPlaybackReadiness (newService sampleVideo) = (newService sampleVideo, []).
Proof.
  apply (checkPlaybackReadiness_without_metadata (newService sampleVideo)).
  reflexivity.
Defined.

(** What one run of [bufferChunks] does to the cursor and the sink. *)
Lemma bufferChunks_run (s : Service) :
  exists run : list Bytes,
    bufferedChunkIndex (fst (bufferChunks s))
    = bufferedChunkIndex s + Z.of_nat (length run)
    /\ (length run <= 5)%nat
    /\ (forall (d : nat) (c : Bytes), run !! d = Some c ->
          receivedChunks s !! (bufferedChunkIndex s + Z.of_nat d) = Some c)
    /\ fed (fst (bufferChunks s))
       = fed s ++ match run with [] => [] | _ :: _ => [concat run] end.
Proof.
  assert (Hnone : exists run : list Bytes,
    bufferedChunkIndex s = bufferedChunkIndex s + Z.of_nat (length run)
    /\ (length run <= 5)%nat
    /\ (forall (d : nat) (c : Bytes), run !! d = Some c ->
          receivedChunks s !! (bufferedChunkIndex s + Z.of_nat d) = Some c)
    /\ fed s = fed s ++ match run with [] => [] | _ :: _ => [concat run] end).
  { exists []. cbn [length]. rewrite app_nil_r, Z.add_0_r.
    split_and!; auto with lia. intros d c H; discriminate. }
  unfold bufferChunks.
  destruct (sourceBuffer s) as [sb|] eqn:Hsb; [|exact Hnone].
  destruct (isBuffering s); [exact Hnone|].
  destruct (collectSequential_spec 5 (receivedChunks s) (bufferedChunkIndex s) [])
    as (run & -> & Hlen & Hrun & _).
  cbn [app]. destruct run as [|c run]; [exact Hnone|].
  destruct (appendFails sb).
  - destruct Hnone as (run0 & H0 & H1 & H2 & H3).
    exists run0. unfold fed in *. cbn. rewrite Hsb in *. now split_and!.
  - exists (c :: run). unfold fed. cbn. rewrite Hsb. now split_and!.
Qed.

(** With nothing at the cursor, [bufferChunks] does nothing. *)
Lemma bufferChunks_waits (s : Service) :
  receivedChunks s !! bufferedChunkIndex s = None -> bufferChunks s = (s, []).
Proof.
  intros H. unfold bufferChunks.
  destruct (sourceBuffer s); [|reflexivity].
  destruct (isBuffering s); [reflexivity|].
  cbn [collectSequential]. now rewrite H.
Qed.

(** With an idle sink that accepts the block, [bufferChunks] appends the
    collected run as one block and moves the cursor behind it. *)
Lemma bufferChunks_feeds (s : Service) (sb : SourceBuffer) (c : Bytes)
    (run : list Bytes) (j : Z) :
  sourceBuffer s = Some sb -> appendFails sb = false -> isBuffering s = false ->
  collectSequential 5 (receivedChunks s) (bufferedChunkIndex s) [] = (c :: run, j) ->
  fst (bufferChunks s)
  = set_bufferedChunkIndex j
      (set_sourceBuffer
         (Some {| appended := appended sb ++ [concat (c :: run)];
                  appendFails := false |})
         (set_isBuffering true s)).
Proof.
  intros Hsb Hok Hidle Hrun. unfold bufferChunks.
  rewrite Hsb, Hidle, Hrun, Hok. reflexivity.
Qed.

(** C3.  One run of [bufferChunks] moves the cursor over a run of at most
    five chunks that are all present at consecutive indices from the cursor
    on (so never past a gap), and gives the sink those chunks, concatenated
    in index order, as one block (or nothing).  With chunks 0, 1 and 3
    present it feeds chunks 0 and 1 and stops at 2; scanning again feeds
    nothing; once chunk 2 arrives it feeds chunks 2 and 3. *)
Theorem bufferChunks_contiguous (s : Service) :
  (exists run : list Bytes,
     bufferedChunkIndex (fst (bufferChunks s))
     = bufferedChunkIndex s + Z.of_nat (length run)
     /\ (length run <= 5)%nat
     /\ (forall (d : nat) (c : Bytes), run !! d = Some c ->
           receivedChunks s !! (bufferedChunkIndex s + Z.of_nat d) = Some c)
     /\ fed (fst (bufferChunks s))
        = fed s ++ match run with [] => [] | _ :: _ => [concat run] end)
  /\ (forall j : Z,
        bufferedChunkIndex s <= j < bufferedChunkIndex (fst (bufferChunks s)) ->
        is_Some (receivedChunks s !! j))
  /\ (forall (sb : SourceBuffer) (c0 c1 c3 : Bytes),
        receivedChunks s = <[0 := c0]> (<[1 := c1]> {[3 := c3]}) ->
        bufferedChunkIndex s = 0 ->
        sourceBuffer s = Some sb -> appendFails sb = false -> isBuffering s = false ->
        let s1 := fst (bufferChunks s) in
        let s2 := fst (onUpdateEnd s1) in
        fed s1 = fed s ++ [c0 ++ c1] /\ bufferedChunkIndex s1 = 2
        /\ fed s2 = fed s1 /\ bufferedChunkIndex s2 = 2
        /\ forall (m : Wire.ChunkMessage) (c2 : Bytes),
             chunkPayload m = Some (2, c2) ->
             let s3 := fst (handleChunk m s2) in
             fed s3 = fed s1 ++ [c2 ++ c3] /\ bufferedChunkIndex s3 = 4).
Proof.
  split_and!.
  - apply bufferChunks_run.
  - destruct (bufferChunks_run s) as (run & -> & _ & Hrun & _). intros j Hj.
    destruct (lookup_lt_is_Some_2 run (Z.to_nat (j - bufferedChunkIndex s)))
      as [c Hc]; [lia|].
    apply Hrun in Hc. exists c. rewrite <- Hc. f_equal. lia.
  - intros sb c0 c1 c3 Hmap Hcur Hsb Hok Hidle s1 s2.
    assert (E1 : s1 = set_bufferedChunkIndex 2
                        (set_sourceBuffer
                           (Some {| appended := appended sb ++ [c0 ++ c1];
                                    appendFails := false |})
                           (set_isBuffering true s))).
    { subst s1. rewrite (bufferChunks_feeds s sb c0 [c1] 2 Hsb Hok Hidle).
      - cbn [concat]. now rewrite app_nil_r.
      - rewrite Hmap, Hcur. cbn [collectSequential].
        rewrite lookup_insert_eq. cbn [Z.add app].
        rewrite lookup_insert_ne by done. rewrite lookup_insert_eq. cbn [app].
        change (0 + 1 + 1) with 2.
        rewrite !lookup_insert_ne by done.
        now rewrite lookup_singleton_ne by done. }
    assert (E2 : s2 = set_isBuffering false s1).
    { subst s2. unfold onUpdateEnd, andThen, assign.
      rewrite bufferChunks_waits; [reflexivity|].
      rewrite E1. cbn. rewrite Hmap.
      rewrite !lookup_insert_ne by done. now rewrite lookup_singleton_ne by done. }
    assert (F1 : fed s1 = fed s ++ [c0 ++ c1])
      by (rewrite E1; unfold fed; cbn; now rewrite Hsb).
    split_and!.
    + exact F1.
    + now rewrite E1.
    + now rewrite E2.
    + now rewrite E2, E1.
    + intros m c2 Hm s3. subst s3.
      destruct (handleChunk_accepted m s2 2 c2 Hm) as (e1 & -> & _). cbn [fst].
      destruct (checkPlaybackReadiness_spec
                  (set_receivingProgress (receivingProgress s2 + 1)
                     (set_receivedChunks (<[2 := c2]> (receivedChunks s2)) s2)))
        as (-> & _).
      rewrite F1. clearbody s1 s2. subst s2 s1.
      set (sb' := {| appended := appended sb ++ [c0 ++ c1]; appendFails := false |}).
      match goal with
      | |- context [bufferChunks ?st] =>
          rewrite (bufferChunks_feeds st sb' c2 [c3] 4)
      end.
      * unfold fed. destruct (_ && _); cbn; rewrite Hsb; cbn;
          now rewrite app_nil_r.
      * now destruct (_ && _).
      * reflexivity.
      * now destruct (_ && _).
      * assert (Hrun : collectSequential 5
                         (<[2 := c2]> (<[0 := c0]> (<[1 := c1]> {[3 := c3]}))) 2 []
                       = ([c2; c3], 4)).
        { cbn [collectSequential].
          rewrite lookup_insert_eq. cbn [Z.add app]. change (2 + 1) with 3.
          rewrite !lookup_insert_ne by done. rewrite lookup_singleton_eq. cbn [app].
          change (3 + 1) with 4.
          rewrite ?lookup_insert_ne by done.
          now rewrite lookup_singleton_ne by done. }
        destruct (_ && _); cbn; rewrite Hmap; exact Hrun.
Qed.

Lemma bufferChunks_contiguous_witness :
  fed (fst (bufferChunks sampleGap)) = fed sampleGap ++ [[x41] ++ [x42]]
  /\ bufferedChunkIndex (fst (bufferChunks sampleGap)) = 2.
Proof.
  destruct (bufferChunks_contiguous sampleGap) as (_ & _ & H).
  destruct (H {| appended := []; appendFails := false |} [x41] [x42] [x44]
              eq_refl eq_refl eq_refl eq_refl eq_refl) as (H1 & H2 & _).
  split; assumption.
Defined.

(** *** Playback readiness *)

(** The threshold test in integers. *)
Lemma thresholdReached_integers (s : Service) :
  thresholdReached s
  = if expectedTotalChunks s =? 0 then 0 <? receivingProgress s
    else if 0 <? expectedTotalChunks s
         then expectedTotalChunks s <=? 10 * receivingProgress s
         else 10 * receivingProgress s <=? expectedTotalChunks s.
Proof.
  unfold thresholdReached, JSNum.div, JSNum.geQ.
  destruct (expectedTotalChunks s) as [|n|n]; cbn [Z.eqb Z.ltb Z.compare].
  - now destruct (receivingProgress s).
  - unfold Qle_bool, BUFFER_THRESHOLD, Qdiv, Qmult, Qinv, inject_Z. cbn [Qnum Qden].
    destruct (Z.leb_spec (10 * Z.pos (1 * n)) (receivingProgress s * 1 * 100)),
             (Z.leb_spec (Z.pos n) (10 * receivingProgress s)); try reflexivity; lia.
  - unfold Qle_bool, BUFFER_THRESHOLD, Qdiv, Qmult, Qinv, inject_Z. cbn [Qnum Qden].
    destruct (Z.leb_spec (10 * Z.pos (1 * n)) (receivingProgress s * Z.neg 1 * 100)),
             (Z.leb_spec (10 * receivingProgress s) (Z.neg n)); try reflexivity; lia.
Qed.

Lemma count_app (p : Effect -> bool) (e1 e2 : list Effect) :
  count p (e1 ++ e2) = (count p e1 + count p e2)%nat.
Proof. unfold count. now rewrite List.filter_app, length_app. Qed.

(** One delivery keeps the invariant, keeps a reached threshold reached,
    and notifies readiness exactly when it takes the ratio from below the
    threshold to the threshold or above. *)
Lemma handleChunk_readiness (m : Wire.ChunkMessage) (s : Service) :
  readinessInv s ->
  readinessInv (fst (handleChunk m s))
  /\ (thresholdReached s = true -> thresholdReached (fst (handleChunk m s)) = true)
  /\ count isPlaybackReady (snd (handleChunk m s))
     = (if negb (thresholdReached s) && thresholdReached (fst (handleChunk m s))
        then 1 else 0)%nat.
Proof.
  intros (Hn & Hr & Hp).
  destruct (chunkPayload m) as [[i b]|] eqn:Hm.
  - destruct (handleChunk_accepted m s i b Hm) as (e1 & -> & He1 & _).
    cbn [fst snd]. set (s1 := set_receivingProgress _ _).
    destruct (checkPlaybackReadiness_spec s1) as (E & Hc & _).
    destruct (bufferChunks_frame (fst (checkPlaybackReadiness s1)))
      as (_ & Fr & Fn & Fp & _ & _ & Hb).
    rewrite !count_app, He1, Hc, Hb.
    set (s2 := fst (checkPlaybackReadiness s1)) in *.
    set (s3 := fst (bufferChunks s2)) in *.
    assert (R3 : receivingProgress s3 = receivingProgress s + 1)
      by (rewrite Fr, E; now destruct (_ && _)).
    assert (N3 : expectedTotalChunks s3 = expectedTotalChunks s)
      by (rewrite Fn, E; now destruct (_ && _)).
    rewrite E in Fp.
    assert (T3 : thresholdReached s3 = thresholdReached s1)
      by (rewrite !thresholdReached_integers, R3, N3; reflexivity).
    assert (Mono : thresholdReached s = true -> thresholdReached s1 = true).
    { rewrite !thresholdReached_integers.
      change (expectedTotalChunks s1) with (expectedTotalChunks s).
      change (receivingProgress s1) with (receivingProgress s + 1).
      destruct (expectedTotalChunks s =? 0) eqn:E0; [lia|].
      destruct (0 <? expectedTotalChunks s) eqn:E1; lia. }
    change (playbackStarted s1) with (playbackStarted s) in *.
    change (expectedTotalChunks s1) with (expectedTotalChunks s) in *.
    assert (E0 : (expectedTotalChunks s =? 0) = false) by lia.
    rewrite E0, Hp in *. cbn [negb andb] in *. rewrite andb_true_r in *.
    split_and!.
    + unfold readinessInv. rewrite R3, N3, Fp, T3. split_and!; [exact Hn | lia |].
      destruct (thresholdReached s) eqn:Ts; cbn [negb andb].
      * cbn. rewrite Hp. symmetry. now apply Mono.
      * destruct (thresholdReached s1); cbn; [reflexivity | exact Hp].
    + rewrite T3. exact Mono.
    + rewrite T3. destruct (thresholdReached s); cbn [negb andb]; [reflexivity|].
      now destruct (thresholdReached s1).
  - destruct (handleChunk_rejected m s Hm) as (-> & ->).
    split_and!; [now split_and! | auto |].
    now destruct (thresholdReached s).
Qed.

(** A sequence of deliveries notifies readiness once if it takes the ratio
    from below the threshold to the threshold or above, and not at all
    otherwise. *)
Lemma deliver_readiness (messages : list Wire.ChunkMessage) (s : Service) :
  readinessInv s ->
  readinessInv (fst (deliver messages s))
  /\ (thresholdReached s = true -> thresholdReached (fst (deliver messages s)) = true)
  /\ count isPlaybackReady (snd (deliver messages s))
     = (if negb (thresholdReached s) && thresholdReached (fst (deliver messages s))
        then 1 else 0)%nat.
Proof.
  revert s. induction messages as [|m messages IH]; intros s Hs.
  - cbn. split_and!; auto. now destruct (thresholdReached s).
  - cbn [deliver]. unfold andThen.
    destruct (handleChunk_readiness m s Hs) as (H1 & M1 & C1).
    destruct (handleChunk m s) as [s1 e1]. cbn [fst snd] in *.
    destruct (IH s1 H1) as (H2 & M2 & C2).
    destruct (deliver messages s1) as [s2 e2]. cbn [fst snd] in *.
    split_and!; [exact H2 | auto |].
    rewrite count_app, C1, C2.
    destruct (thresholdReached s) eqn:T0; cbn [negb andb].
    + rewrite (M1 eq_refl). reflexivity.
    + destruct (thresholdReached s1) eqn:T1; cbn [negb andb].
      * now rewrite (M2 eq_refl).
      * now destruct (thresholdReached s2).
Qed.

(** A metadata message with its fields present starts a session: nothing is
    counted yet, playback has not started, the ratio is below the
    threshold. *)
Lemma handleMetadata_starts (meta : Wire.ChunkMessage) (md : Wire.MovieMetadata)
    (total : Z) (s : Service) :
  Wire.metadata meta = Some md -> Wire.totalChunks meta = Some total -> total <> 0 ->
  let s0 := fst (handleMetadata meta s) in
  expectedTotalChunks s0 = total /\ receivingProgress s0 = 0
  /\ playbackStarted s0 = false /\ receivedChunks s0 = ∅
  /\ bufferedChunkIndex s0 = 0.
Proof.
  intros Hmd Ht Hne. unfold handleMetadata. rewrite Hmd, Ht.
  destruct (Z.eqb_spec total 0) as [|_]; [contradiction|].
  unfold setupMediaSource, cleanupMediaSource, andThen, assign, emit, skip.
  cbn. destruct (videoElement s); [|now cbn].
  destruct (mediaSource s) as [[]|]; now cbn.
Qed.

(** C4.  In a session (from its metadata on), over any sequence of chunk
    deliveries, readiness is notified at most once: exactly once when the
    deliveries take [receivingProgress / expectedTotalChunks] to the
    threshold, on the one delivery that takes the ratio from below the
    threshold to the threshold or above, and on no other delivery; and
    playback has started exactly when the threshold has been reached. *)
Theorem playback_ready_once (meta : Wire.ChunkMessage) (md : Wire.MovieMetadata)
    (total : Z) (s : Service) (messages : list Wire.ChunkMessage) :
  Wire.metadata meta = Some md -> Wire.totalChunks meta = Some total -> total <> 0 ->
  let s0 := fst (handleMetadata meta s) in
  count isPlaybackReady (snd (deliver messages s0))
  = (if thresholdReached (fst (deliver messages s0)) then 1 else 0)%nat
  /\ playbackStarted (fst (deliver messages s0))
     = thresholdReached (fst (deliver messages s0))
  /\ forall (pre : list Wire.ChunkMessage) (m : Wire.ChunkMessage)
       (post : list Wire.ChunkMessage),
       messages = pre ++ m :: post ->
       let before := fst (deliver pre s0) in
       count isPlaybackReady (snd (handleChunk m before))
       = (if negb (thresholdReached before)
             && thresholdReached (fst (handleChunk m before))
          then 1 else 0)%nat.
Proof.
  intros Hmd Ht Hne s0.
  destruct (handleMetadata_starts meta md total s Hmd Ht Hne)
    as (Hn & Hr & Hp & _). fold s0 in Hn, Hr, Hp.
  assert (T0 : thresholdReached s0 = false).
  { rewrite thresholdReached_integers, Hn, Hr.
    destruct (total =? 0) eqn:E0; [lia|]. destruct (0 <? total) eqn:E1; lia. }
  assert (I0 : readinessInv s0).
  { unfold readinessInv. rewrite Hn, Hr, Hp, T0. split_and!; [exact Hne | lia | reflexivity]. }
  destruct (deliver_readiness messages s0 I0) as ((_ & _ & Hp') & _ & C).
  split_and!.
  - rewrite C, T0. reflexivity.
  - exact Hp'.
  - intros pre m post _ before.
    destruct (deliver_readiness pre s0 I0) as (Ib & _ & _).
    apply (handleChunk_readiness m before Ib).
Qed.

Lemma playback_ready_once_witness :
  count isPlaybackReady
    (snd (deliver [sampleChunk; sampleChunk; sampleChunk]
            (fst (handleMetadata sampleMetadata (newService sampleVideo)))))
  = 1%nat.
Proof.
  rewrite (proj1 (playback_ready_once sampleMetadata
                    {| Wire.fileName := "movie.mp4"; Wire.fileSize := 40000;
                       Wire.fileType := "video/mp4" |}
                    3 (newService sampleVideo)
                    [sampleChunk; sampleChunk; sampleChunk]
                    eq_refl eq_refl ltac:(discriminate))).
  reflexivity.
Defined.

(** *** Playback synchroniser *)

(** What a follower does with a sample whose target time is finite. *)
Lemma handleSync_follower (now : Z) (m : Wire.ChunkMessage) (sd : Wire.SyncData)
    (video : Video.HTMLVideoElement) (s : Service) :
  isMaster s = false -> Wire.syncData m = Some sd -> videoElement s = Some video ->
  Double.isFinite (adjustedTime now sd) = true ->
  let targetTime := adjustedTime now sd in
  let seeks := Double.ltb SEEK_TOLERANCE (timeDiff now sd video) in
  let sought := if seeks then Video.seek targetTime video else video in
  let reconciled :=
    if Wire.paused sd && negb (Video.paused video) then Video.pause sought
    else if negb (Wire.paused sd) && Video.paused video then Video.play sought
    else sought in
  handleSync now m s
  = (set_videoElement (Some reconciled) s,
     (if seeks then [VideoSeek targetTime] else [])
       ++ pauseCalls (Wire.paused sd) (Video.paused video)).
Proof.
  intros Hm Hsd Hv Hfin. cbv zeta. unfold handleSync, reconcilePause, pauseCalls.
  rewrite Hm, Hsd, Hv, Hfin.
  unfold andThen, onVideo, assign, emit, skip.
  assert (Hid : set_videoElement (Some video) s = s)
    by (rewrite <- Hv; now destruct s).
  destruct (Double.ltb _ _); cbn [negb fst snd]; rewrite ?Hv; cbn [option_map];
    cbn [videoElement set_videoElement Video.paused Video.seek];
    destruct (Wire.paused sd), (Video.paused video) eqn:Hp; cbn [andb negb];
    cbn [fst snd app option_map videoElement set_videoElement]; rewrite ?Hv;
    cbn [option_map]; rewrite ?Hid; try reflexivity.
Qed.



(** C6.  A master ignores every sample: [handleSync] leaves all fields as
    they were and causes no effect. *)
Theorem handleSync_master (now : Z) (m : Wire.ChunkMessage) (s : Service) :
  isMaster s = true -> handleSync now m s = (s, []).
Proof.
  intros H. unfold handleSync. now rewrite H.
Qed.

Lemma handleSync_master_witness :
  handleSync (t0 + 400) sampleSync sampleMaster = (sampleMaster, []).
Proof.
  apply (handleSync_master (t0 + 400) sampleSync sampleMaster). reflexivity.
Defined.

(** *** Transfer sender *)

(** On an open channel that takes the message, [sendNextChunk] sends the
    chunk at the cursor, moves the cursor by one and sets the timer for the
    next run. *)
Lemma sendNextChunk_sends (s : Service) (c : Bytes) :
  isSending s = true ->
  dataChannel s = Some {| readyState := open; sendFails := false |} ->
  sendingProgress s < totalChunks s ->
  index (fileChunks s) (sendingProgress s) = Some c ->
  exists effects : list Effect,
    sendNextChunk s = (set_sendingProgress (sendingProgress s + 1) s, effects)
    /\ List.filter isChannelSend effects
       = [ChannelSend (chunkMessage (sendingProgress s) (totalChunks s)
                         (arrayBufferToBase64 c))]
    /\ List.filter isError effects = []
    /\ existsb isSendTimer effects = true.
Proof.
  intros Hs Hch Hlt Hc. unfold sendNextChunk, channelOpen, sendMessage.
  rewrite Hs, Hch, Hc. cbn [negb readyState sendFails ReadyState_eqb].
  destruct (Z.leb_spec (totalChunks s) (sendingProgress s)) as [|_]; [lia|].
  unfold andThen, assign, emit, emitAll, skip. cbn [fst snd].
  destruct (_ || _); eexists; (split; [reflexivity|]); now cbn.
Qed.

(** With the channel not open, [sendNextChunk] reports the lost connection
    once, stops sending and sets no timer. *)
Lemma sendNextChunk_lost (s : Service) :
  isSending s = true -> sendingProgress s < totalChunks s -> channelOpen s = false ->
  sendNextChunk s
  = (set_isSending false s,
     [ConsoleError "Data channel not ready for sending chunk";
      OnError ErrConnectionLost]).
Proof.
  intros Hs Hlt Hch. unfold sendNextChunk. rewrite Hs, Hch.
  destruct (Z.leb_spec (totalChunks s) (sendingProgress s)) as [|_]; [lia|].
  reflexivity.
Qed.

(** Once sending has stopped, [sendNextChunk] does nothing. *)
Lemma sendNextChunk_stopped (s : Service) :
  isSending s = false -> sendNextChunk s = (s, []).
Proof.
  intros Hs. unfold sendNextChunk. now rewrite Hs.
Qed.

Lemma setReadyState_same (s : Service) (ch : RTCDataChannel) :
  dataChannel s = Some ch -> setReadyState (readyState ch) s = s.
Proof.
  intros H. unfold setReadyState. rewrite H. destruct ch. cbn.
  rewrite <- H. now destruct s.
Qed.

(** While the channel stays open, each run of the pacing loop sends the
    next chunk. *)
Lemma pacingLoop_open (k : nat) (rest : list ReadyState) (s : Service) :
  isSending s = true ->
  dataChannel s = Some {| readyState := open; sendFails := false |} ->
  0 <= sendingProgress s ->
  totalChunks s = Z.of_nat (length (fileChunks s)) ->
  sendingProgress s + Z.of_nat k <= totalChunks s ->
  let sk := set_sendingProgress (sendingProgress s + Z.of_nat k) s in
  exists effects : list Effect,
    pacingLoop (repeat open k ++ rest) s
    = (fst (pacingLoop rest sk), effects ++ snd (pacingLoop rest sk))
    /\ List.filter isChannelSend effects
       = chunkSends (totalChunks s) (sendingProgress s)
           (take k (drop (Z.to_nat (sendingProgress s)) (fileChunks s)))
    /\ List.filter isError effects = [].
Proof.
  revert s. induction k as [|k IH]; intros s Hs Hch Hp Ht Hk sk.
  - exists []. subst sk. cbn [repeat app take chunkSends List.filter Z.of_nat].
    rewrite Z.add_0_r.
    replace (set_sendingProgress (sendingProgress s) s) with s by now destruct s.
    now destruct (pacingLoop rest s).
  - cbn [repeat app pacingLoop].
    rewrite (setReadyState_same s _ Hch : setReadyState open s = s).
    destruct (lookup_lt_is_Some_2 (fileChunks s) (Z.to_nat (sendingProgress s)))
      as [c Hc]; [lia|].
    assert (Hidx : index (fileChunks s) (sendingProgress s) = Some c).
    { unfold index. destruct (Z.ltb_spec (sendingProgress s) 0); [lia|exact Hc]. }
    destruct (sendNextChunk_sends s c Hs Hch ltac:(lia) Hidx)
      as (e1 & -> & Hsend & Herr & ->).
    set (s1 := set_sendingProgress (sendingProgress s + 1) s).
    destruct (IH s1 Hs Hch ltac:(cbn; lia) Ht ltac:(cbn; lia))
      as (e2 & -> & Hsend2 & Herr2).
    replace (set_sendingProgress (sendingProgress s1 + Z.of_nat k) s1) with sk
      by (subst sk s1; unfold set_sendingProgress; cbn -[Z.of_nat Z.add];
          f_equal; lia).
    cbn [fst snd]. exists (e1 ++ e2). split_and!.
    + now rewrite app_assoc.
    + rewrite List.filter_app, Hsend, Hsend2.
      rewrite (drop_S _ _ _ Hc). cbn [take chunkSends app].
      do 2 f_equal. cbn. do 2 f_equal. lia.
    + now rewrite List.filter_app, Herr, Herr2.
Qed.

(** C7.  When the channel is not open as the sender comes to chunk k of n,
    [sendNextChunk] reports the lost connection through [onError] exactly
    once, stops sending, sends nothing and sets no timer, and every later
    run does nothing, whatever the channel's state: chunks k to n - 1 are
    never attempted.  In the pacing loop, a channel that is open for the
    first k runs and not open at the next has chunks 0 to k - 1 sent and
    exactly one error reported. *)
Theorem sendNextChunk_channel_lost :
  (forall s : Service,
     isSending s = true -> 0 <= sendingProgress s < totalChunks s ->
     channelOpen s = false ->
     let s' := fst (sendNextChunk s) in
     s' = set_isSending false s
     /\ snd (sendNextChunk s)
        = [ConsoleError "Data channel not ready for sending chunk";
           OnError ErrConnectionLost]
     /\ (forall rs : ReadyState,
           sendNextChunk (setReadyState rs s') = (setReadyState rs s', []))
     /\ (forall channel : list ReadyState,
           snd (pacingLoop channel s') = []
           /\ isSending (fst (pacingLoop channel s')) = false
           /\ sendingProgress (fst (pacingLoop channel s')) = sendingProgress s))
  /\ (forall (s : Service) (k : nat) (rs : ReadyState) (rest : list ReadyState),
        isSending s = true ->
        dataChannel s = Some {| readyState := open; sendFails := false |} ->
        sendingProgress s = 0 ->
        totalChunks s = Z.of_nat (length (fileChunks s)) ->
        (k < length (fileChunks s))%nat ->
        rs <> open ->
        let r := pacingLoop (repeat open k ++ rs :: rest) s in
        List.filter isChannelSend (snd r)
        = chunkSends (totalChunks s) 0 (take k (fileChunks s))
        /\ List.filter isError (snd r) = [OnError ErrConnectionLost]
        /\ isSending (fst r) = false
        /\ sendingProgress (fst r) = Z.of_nat k).
Proof.
  assert (Hstop : forall (s : Service) (rs : ReadyState),
            isSending s = false ->
            sendNextChunk (setReadyState rs s) = (setReadyState rs s, [])).
  { intros s rs Hs. apply sendNextChunk_stopped.
    unfold setReadyState. now destruct (dataChannel s). }
  split.
  - intros s Hs Hlt Hch s'. subst s'.
    rewrite (sendNextChunk_lost s Hs ltac:(lia) Hch). cbn [fst snd].
    split_and!; [reflexivity | reflexivity | |].
    + intros rs. now apply Hstop.
    + intros [|rs channel]; [now cbn|].
      cbn [pacingLoop]. rewrite Hstop by reflexivity. cbn [existsb fst snd].
      unfold setReadyState. now destruct (dataChannel (set_isSending false s)).
  - intros s k rs rest Hs Hch Hp Ht Hk Hrs r. subst r.
    destruct (pacingLoop_open k (rs :: rest) s Hs Hch ltac:(lia) Ht ltac:(lia))
      as (effects & -> & Hsend & Herr).
    rewrite Hp in *. cbn [Z.to_nat drop Z.add] in *.
    set (sk := set_sendingProgress (0 + Z.of_nat k) s) in *.
    assert (Hlost : sendNextChunk (setReadyState rs sk)
                    = (set_isSending false (setReadyState rs sk),
                       [ConsoleError "Data channel not ready for sending chunk";
                        OnError ErrConnectionLost])).
    { apply sendNextChunk_lost.
      - unfold setReadyState. now destruct (dataChannel sk).
      - unfold setReadyState. change (dataChannel sk) with (dataChannel s).
        rewrite Hch. cbn. lia.
      - unfold setReadyState, channelOpen. change (dataChannel sk) with (dataChannel s).
        rewrite Hch. cbn. now destruct rs. }
    cbn [pacingLoop]. rewrite Hlost. cbn [existsb isSendTimer orb fst snd].
    rewrite !List.filter_app, Hsend, Herr. cbn [List.filter isChannelSend isError app].
    split_and!; [now rewrite app_nil_r | reflexivity | reflexivity |].
    unfold setReadyState. change (dataChannel sk) with (dataChannel s).
    rewrite Hch. cbn. lia.
Qed.

Lemma sendNextChunk_channel_lost_witness :
  snd (sendNextChunk sampleLost)
  = [ConsoleError "Data channel not ready for sending chunk";
     OnError ErrConnectionLost]
  /\ isSending (fst (sendNextChunk sampleLost)) = false.
Proof.
  destruct (proj1 sendNextChunk_channel_lost sampleLost eq_refl
              ltac:(cbn; lia) eq_refl) as (E & H & _).
  split; [exact H|]. rewrite E. reflexivity.
Defined.




(** ** Further properties of the service *)

(** *** Chunk codec *)

Section ChunkGeometry.

Variable file : File.

Lemma chunkLoop_app (count : nat) (i : Z) (acc : list Bytes) :
  chunkLoop count i file acc = acc ++ chunkLoop count i file [].
Proof.
  revert i acc. induction count as [|count IH]; intros i acc; cbn [chunkLoop].
  - now rewrite app_nil_r.
  - rewrite IH, (IH _ ([] ++ _)). cbn [app]. now rewrite <- app_assoc.
Qed.

Lemma chunkLoop_lookup (count : nat) (i : Z) (d : nat) :
  (d < count)%nat ->
  chunkLoop count i file [] !! d
  = Some (slice (file_bytes file) ((i + Z.of_nat d) * CHUNK_SIZE)
            (Z.min ((i + Z.of_nat d) * CHUNK_SIZE + CHUNK_SIZE) (file_size file))).
Proof.
  revert i d. induction count as [|count IH]; intros i d Hd; [lia|].
  cbn [chunkLoop]. rewrite chunkLoop_app. cbn [app].
  destruct d as [|d].
  - cbn. now rewrite Z.add_0_r.
  - cbn [lookup list_lookup]. rewrite IH by lia.
    replace (i + 1 + Z.of_nat d) with (i + Z.of_nat (S d)) by lia. reflexivity.
Qed.

End ChunkGeometry.

Lemma slice_byteLength (b : Bytes) (x y : Z) :
  0 <= x ->
  byteLength (slice b x y) = Z.max 0 (Z.min (y - x) (byteLength b - x)).
Proof.
  intros Hx. unfold byteLength, slice. rewrite length_take, length_drop. lia.
Qed.

(** X1.  Chunk [i] of a split file is the region of the file from
    [i * CHUNK_SIZE] up to [(i + 1) * CHUNK_SIZE], cut at the end of the
    file.  No chunk is empty, every chunk but the last holds exactly
    [CHUNK_SIZE] bytes, and the last holds the remainder. *)
Theorem splitFileIntoChunks_geometry (file : File) (s : Service) (i : Z) :
  let s' := fst (splitFileIntoChunks file s) in
  0 <= i < totalChunks s' ->
  exists chunk : Bytes,
    index (fileChunks s') i = Some chunk
    /\ chunk = slice (file_bytes file) (i * CHUNK_SIZE)
                 (Z.min (i * CHUNK_SIZE + CHUNK_SIZE) (file_size file))
    /\ 0 < byteLength chunk <= CHUNK_SIZE
    /\ (i < totalChunks s' - 1 -> byteLength chunk = CHUNK_SIZE)
    /\ (i = totalChunks s' - 1 ->
        byteLength chunk = file_size file - i * CHUNK_SIZE).
Proof.
  intros s'. subst s'.
  destruct (splitFileIntoChunks_fields file s) as [-> ->].
  assert (Hsize : 0 <= file_size file) by (unfold file_size; lia).
  intros Hi. eexists. split_and!.
  - unfold index. destruct (Z.ltb_spec i 0) as [|_]; [lia|].
    rewrite chunkLoop_lookup by lia.
    replace (0 + Z.of_nat (Z.to_nat i)) with i by lia. reflexivity.
  - reflexivity.
  - rewrite slice_byteLength by (unfold CHUNK_SIZE; lia).
    unfold byteLength, file_size, CHUNK_SIZE in *. lia.
  - rewrite slice_byteLength by (unfold CHUNK_SIZE; lia).
    unfold byteLength, file_size, CHUNK_SIZE in *. lia.
  - intros Hlast. rewrite slice_byteLength by (unfold CHUNK_SIZE; lia).
    unfold byteLength, file_size, CHUNK_SIZE in *. lia.
  - intros Hlast. rewrite slice_byteLength by (unfold CHUNK_SIZE; lia).
    unfold byteLength, file_size, CHUNK_SIZE in *. lia.
Qed.

Lemma splitFileIntoChunks_geometry_witness :
  exists chunk : Bytes,
    index (fileChunks (fst (splitFileIntoChunks sampleFile (newService sampleVideo)))) 0
    = Some chunk
    /\ chunk = slice (file_bytes sampleFile) (0 * CHUNK_SIZE)
                 (Z.min (0 * CHUNK_SIZE + CHUNK_SIZE) (file_size sampleFile))
    /\ 0 < byteLength chunk <= CHUNK_SIZE
    /\ (0 < totalChunks (fst (splitFileIntoChunks sampleFile (newService sampleVideo))) - 1 ->
        byteLength chunk = CHUNK_SIZE)
    /\ (0 = totalChunks (fst (splitFileIntoChunks sampleFile (newService sampleVideo))) - 1 ->
        byteLength chunk = file_size sampleFile - 0 * CHUNK_SIZE).
Proof.
  apply (splitFileIntoChunks_geometry sampleFile (newService sampleVideo) 0).
  vm_compute. split; [discriminate | reflexivity].
Defined.

Lemma arrayBufferToBase64_empty (buffer : Bytes) :
  String.eqb (arrayBufferToBase64 buffer) EmptyString
  = match buffer with [] => true | _ :: _ => false end.
Proof.
  unfold arrayBufferToBase64. rewrite binary_string.
  change (String.append EmptyString ?x) with x.
  unfold Base64.btoa. rewrite list_ascii_of_string_of_list_ascii.
  destruct buffer as [|a [|b [|c r]]]; reflexivity.
Qed.

(** X2.  The message the sender builds for a chunk is accepted by the
    receiver with that chunk's index and exactly its bytes, unless the chunk
    is empty: the empty buffer encodes to the empty string, which
    [handleChunk] takes for a missing payload. *)
Theorem chunkMessage_payload (i total : Z) (chunk : Bytes) :
  chunkPayload (chunkMessage i total (arrayBufferToBase64 chunk))
  = match chunk with
    | [] => None
    | _ :: _ => Some (i, chunk)
    end.
Proof.
  unfold chunkPayload, chunkMessage. cbn [Wire.chunkIndex Wire.data].
  rewrite arrayBufferToBase64_empty, base64_roundtrip.
  now destruct chunk.
Qed.

(** *** Reassembly buffer *)

Lemma deliver_fields (messages : list Wire.ChunkMessage) (s : Service) :
  receivedChunks (fst (deliver messages s))
  = fold_left (fun chunks p => <[fst p := snd p]> chunks)
      (omap chunkPayload messages) (receivedChunks s)
  /\ receivingProgress (fst (deliver messages s))
     = receivingProgress s + Z.of_nat (length (omap chunkPayload messages))
  /\ expectedTotalChunks (fst (deliver messages s)) = expectedTotalChunks s.
Proof.
  revert s. induction messages as [|m messages IH]; intros s.
  - cbn. split_and!; auto with lia.
  - cbn [deliver omap list_omap]. unfold andThen.
    destruct (handleChunk m s) as [s1 e1] eqn:E1.
    specialize (IH s1). destruct (deliver messages s1) as [s2 e2].
    cbn [fst snd] in *. destruct IH as (-> & -> & ->).
    destruct (chunkPayload m) as [[i b]|] eqn:Hm.
    + destruct (handleChunk_stores m s i b Hm) as (H1 & H2 & H3).
      rewrite E1 in H1, H2, H3. cbn [fst] in H1, H2, H3.
      rewrite H1, H2, H3. cbn [fold_left length fst snd]. split_and!; auto with lia.
    + destruct (handleChunk_rejected m s Hm) as (H1 & _).
      rewrite E1 in H1. cbn [fst] in H1. subst s1. now split_and!.
Qed.

(** X3.  After any sequence of chunk messages the store holds the payloads
    of the accepted ones, written in arrival order (a later payload for an
    index replaces an earlier one), the received count has grown by the
    number of accepted messages, and the expected total is untouched. *)
Theorem deliver_stores (messages : list Wire.ChunkMessage) (s : Service) :
  receivedChunks (fst (deliver messages s))
  = fold_left (fun chunks p => <[fst p := snd p]> chunks)
      (omap chunkPayload messages) (receivedChunks s)
  /\ receivingProgress (fst (deliver messages s))
     = receivingProgress s + Z.of_nat (length (omap chunkPayload messages))
  /\ expectedTotalChunks (fst (deliver messages s)) = expectedTotalChunks s.
Proof. apply deliver_fields. Qed.

Lemma fold_insert_union (payloads : list (Z * Bytes)) (chunks : gmap Z Bytes) :
  fold_left (fun chunks p => <[fst p := snd p]> chunks) payloads chunks
  = list_to_map (reverse payloads) ∪ chunks.
Proof.
  revert chunks. induction payloads as [|[i b] payloads IH]; intros chunks.
  - cbn. now rewrite (left_id_L ∅ (∪)).
  - cbn [fold_left fst snd]. rewrite IH, reverse_cons, list_to_map_app.
    cbn [list_to_map fst snd]. rewrite <- (assoc_L (∪)). f_equal.
    change (list_to_map [(i, b)] : gmap Z Bytes) with (<[i := b]> (∅ : gmap Z Bytes)).
    now rewrite insert_empty, <- insert_union_singleton_l.
Qed.

(** X4.  The store does not depend on the order of arrival: two sequences
    holding the same chunk messages in different orders, with no index
    delivered twice, leave the same chunks stored and the same count. *)
Theorem deliver_any_order (messages messages' : list Wire.ChunkMessage) (s : Service) :
  messages ≡ₚ messages' ->
  NoDup (map fst (omap chunkPayload messages)) ->
  receivedChunks (fst (deliver messages s)) = receivedChunks (fst (deliver messages' s))
  /\ receivingProgress (fst (deliver messages s))
     = receivingProgress (fst (deliver messages' s)).
Proof.
  intros Hperm Hnodup.
  destruct (deliver_fields messages s) as (-> & -> & _).
  destruct (deliver_fields messages' s) as (-> & -> & _).
  assert (Hp : omap chunkPayload messages ≡ₚ omap chunkPayload messages')
    by now rewrite Hperm.
  split.
  - rewrite !fold_insert_union. f_equal. apply list_to_map_proper.
    + change (NoDup (fst <$> reverse (omap chunkPayload messages))).
      rewrite fmap_reverse, reverse_Permutation. exact Hnodup.
    + now rewrite !reverse_Permutation.
  - now rewrite Hp.
Qed.

Lemma deliver_any_order_witness :
  receivedChunks (fst (deliver [sampleChunk; sampleChunk1] sampleSession))
  = receivedChunks (fst (deliver [sampleChunk1; sampleChunk] sampleSession)).
Proof.
  apply (deliver_any_order [sampleChunk; sampleChunk1] [sampleChunk1; sampleChunk]
           sampleSession).
  - apply perm_swap.
  - vm_compute. apply NoDup_cons. split; [|apply NoDup_singleton].
    intros H. apply list_elem_of_singleton in H. discriminate H.
Defined.

(** *** Playback readiness *)

(** X5.  In a session, playback has started exactly when ten times the
    number of accepted chunk messages has reached the announced total (for a
    total of 64, from the 7th chunk on); with a negative total it never
    starts. *)
Theorem readiness_by_count (meta : Wire.ChunkMessage) (md : Wire.MovieMetadata)
    (total : Z) (s : Service) (messages : list Wire.ChunkMessage) :
  Wire.metadata meta = Some md -> Wire.totalChunks meta = Some total -> total <> 0 ->
  playbackStarted (fst (deliver messages (fst (handleMetadata meta s))))
  = (0 <? total) && (total <=? 10 * Z.of_nat (length (omap chunkPayload messages))).
Proof.
  intros Hmd Ht Hne.
  destruct (handleMetadata_starts meta md total s Hmd Ht Hne) as (Hn & Hr & Hp & _).
  set (s0 := fst (handleMetadata meta s)) in *.
  assert (T0 : thresholdReached s0 = false).
  { rewrite thresholdReached_integers, Hn, Hr.
    destruct (total =? 0) eqn:E0; [lia|]. destruct (0 <? total) eqn:E1; lia. }
  assert (I0 : readinessInv s0).
  { unfold readinessInv. rewrite Hn, Hr, Hp, T0. split_and!; [exact Hne | lia | reflexivity]. }
  destruct (deliver_readiness messages s0 I0) as ((_ & _ & ->) & _).
  destruct (deliver_fields messages s0) as (_ & Hcount & Htotal).
  rewrite thresholdReached_integers, Hcount, Htotal, Hn, Hr.
  destruct (total =? 0) eqn:E0; [lia|].
  destruct (0 <? total) eqn:E1; cbn [andb]; [f_equal; lia|]. lia.
Qed.

Lemma readiness_by_count_witness :
  playbackStarted (fst (deliver [sampleChunk] (fst (handleMetadata sampleMetadata (newService sampleVideo)))))
  = (0 <? 3) && (3 <=? 10 * Z.of_nat (length (omap chunkPayload [sampleChunk]))).
Proof.
  apply (readiness_by_count sampleMetadata
           {| Wire.fileName := "movie.mp4"; Wire.fileSize := 40000;
              Wire.fileType := "video/mp4" |}
           3 (newService sampleVideo) [sampleChunk]);
    [reflexivity | reflexivity | discriminate].
Defined.

(** *** Decode feeder *)

Lemma take_extend {A} (l run : list A) (k : nat) :
  (forall (d : nat) (c : A), run !! d = Some c -> l !! (k + d)%nat = Some c) ->
  take (k + length run) l = take k l ++ run.
Proof.
  revert k. induction run as [|c run IH]; intros k H.
  - cbn [length]. now rewrite Nat.add_0_r, app_nil_r.
  - cbn [length]. replace (k + S (length run))%nat with (S k + length run)%nat by lia.
    rewrite IH.
    + rewrite (take_S_r l k c); [now rewrite <- app_assoc|].
      specialize (H 0%nat c eq_refl). now rewrite Nat.add_0_r in H.
    + intros d c' Hd. specialize (H (S d) c' Hd).
      now replace (S k + d)%nat with (k + S d)%nat by lia.
Qed.

Lemma index_lookup {A} (l : list A) (i : Z) (c : A) :
  index l i = Some c <-> 0 <= i /\ l !! Z.to_nat i = Some c.
Proof.
  unfold index. destruct (Z.ltb_spec i 0); split; try discriminate; try lia.
  - intros H'. split; [lia|exact H'].
  - now intros [_ H'].
Qed.

(** A run of the feeder keeps the sink a prefix of the chunks the store
    holds. *)
Lemma bufferChunks_keeps (chunks : list Bytes) (s : Service) :
  storesOnly chunks s -> fedPrefix chunks s ->
  storesOnly chunks (fst (bufferChunks s))
  /\ fedPrefix chunks (fst (bufferChunks s))
  /\ bufferedChunkIndex s <= bufferedChunkIndex (fst (bufferChunks s)).
Proof.
  intros Hstore ((Hlo & Hhi) & Hfed).
  destruct (bufferChunks_frame s) as (Hmap & _).
  destruct (bufferChunks_run s) as (run & Hcur & _ & Hrun & Hfed').
  assert (Hin : forall (d : nat) (c : Bytes), run !! d = Some c ->
                  chunks !! (Z.to_nat (bufferedChunkIndex s) + d)%nat = Some c).
  { intros d c Hd. apply Hrun, Hstore, index_lookup in Hd. destruct Hd as [_ Hd].
    now replace (Z.to_nat (bufferedChunkIndex s) + d)%nat
      with (Z.to_nat (bufferedChunkIndex s + Z.of_nat d)) by lia. }
  assert (Hlen : bufferedChunkIndex s + Z.of_nat (length run) <= Z.of_nat (length chunks)).
  { destruct run as [|c run] using rev_ind; [cbn; lia|].
    rewrite length_app in *. cbn [length] in *.
    assert (Hl : (run ++ [c]) !! length run = Some c)
      by (rewrite lookup_app_r by lia; now rewrite Nat.sub_diag).
    apply Hin, lookup_lt_Some in Hl. lia. }
  split_and!.
  - unfold storesOnly. now rewrite Hmap.
  - unfold fedPrefix. rewrite Hcur, Hfed'. split; [lia|].
    replace (Z.to_nat (bufferedChunkIndex s + Z.of_nat (length run)))
      with (Z.to_nat (bufferedChunkIndex s) + length run)%nat by lia.
    rewrite (take_extend chunks run _ Hin), !concat_app, Hfed. f_equal.
    destruct run; cbn [concat]; now rewrite ?app_nil_r.
  - lia.
Qed.

Lemma handleChunk_keeps (chunks : list Bytes) (m : Wire.ChunkMessage) (s : Service) :
  carries chunks (ChunkArrives m) ->
  storesOnly chunks s -> fedPrefix chunks s ->
  storesOnly chunks (fst (handleChunk m s))
  /\ fedPrefix chunks (fst (handleChunk m s))
  /\ bufferedChunkIndex s <= bufferedChunkIndex (fst (handleChunk m s)).
Proof.
  intros Hm Hstore Hfed.
  destruct (chunkPayload m) as [[i b]|] eqn:Hp.
  - destruct (handleChunk_accepted m s i b Hp) as (e1 & -> & _). cbn [fst].
    set (s1 := set_receivingProgress _ _).
    destruct (checkPlaybackReadiness_spec s1) as (-> & _).
    set (s2 := if _ : bool then _ else s1).
    assert (Hmap : receivedChunks s2 = <[i := b]> (receivedChunks s))
      by (subst s2; now destruct (_ && _)).
    assert (Hf : fed s2 = fed s) by (subst s2; now destruct (_ && _)).
    assert (Hc : bufferedChunkIndex s2 = bufferedChunkIndex s)
      by (subst s2; now destruct (_ && _)).
    rewrite <- Hc. apply bufferChunks_keeps.
    + intros j c. rewrite Hmap. destruct (decide (i = j)) as [<-|Hne].
      * rewrite lookup_insert_eq. intros [= <-]. now apply Hm.
      * rewrite lookup_insert_ne by done. apply Hstore.
    + unfold fedPrefix. now rewrite Hf, Hc.
  - destruct (handleChunk_rejected m s Hp) as (-> & _). split_and!; auto with lia.
Qed.

Lemma onUpdateEnd_keeps (chunks : list Bytes) (s : Service) :
  storesOnly chunks s -> fedPrefix chunks s ->
  storesOnly chunks (fst (onUpdateEnd s))
  /\ fedPrefix chunks (fst (onUpdateEnd s))
  /\ bufferedChunkIndex s <= bufferedChunkIndex (fst (onUpdateEnd s)).
Proof.
  intros Hstore Hfed. unfold onUpdateEnd, andThen, assign.
  destruct (bufferChunks (set_isBuffering false s)) as [s' e'] eqn:E.
  cbn [fst snd]. replace s' with (fst (bufferChunks (set_isBuffering false s)))
    by now rewrite E.
  apply (bufferChunks_keeps chunks (set_isBuffering false s)); assumption.
Qed.

(** X6.  Whatever the order in which the chunks of a file arrive and the
    sink completes its appends, the sink has been given exactly the chunks
    before the cursor, concatenated in index order: a prefix of the file
    with no gap and no repetition.  The cursor never moves back and never
    passes the last chunk. *)
Theorem receive_feeds_prefix (chunks : list Bytes) (events : list ReceiverEvent)
    (s : Service) :
  Forall (carries chunks) events ->
  storesOnly chunks s -> fedPrefix chunks s ->
  storesOnly chunks (fst (receive events s))
  /\ concat (fed (fst (receive events s)))
     = concat (take (Z.to_nat (bufferedChunkIndex (fst (receive events s)))) chunks)
  /\ bufferedChunkIndex s <= bufferedChunkIndex (fst (receive events s))
     <= Z.of_nat (length chunks).
Proof.
  intros Hev. revert s. induction Hev as [|ev events Hc _ IH]; intros s Hstore Hfed.
  - cbn. destruct Hfed as (? & ?). split_and!; auto with lia.
  - assert (Hstep : exists a : Action,
              receive (ev :: events) = (a >> receive events)
              /\ storesOnly chunks (fst (a s)) /\ fedPrefix chunks (fst (a s))
              /\ bufferedChunkIndex s <= bufferedChunkIndex (fst (a s))).
    { destruct ev as [m|].
      - exists (handleChunk m). split; [reflexivity|]. now apply handleChunk_keeps.
      - exists onUpdateEnd. split; [reflexivity|]. now apply onUpdateEnd_keeps. }
    destruct Hstep as (a & -> & H1 & H2 & H3). unfold andThen.
    destruct (a s) as [s1 e1]. cbn [fst] in *.
    specialize (IH s1 H1 H2). destruct (receive events s1) as [s2 e2].
    cbn [fst] in *. destruct IH as (? & ? & ?). split_and!; auto with lia.
Qed.

Lemma sample_carries :
  Forall (carries sampleChunks)
    [ChunkArrives sampleChunk1; ChunkArrives sampleChunk; ChunkArrives sampleChunk2;
     UpdateEnds].
Proof.
  repeat constructor; intros i c H; vm_compute in H; injection H as <- <-; reflexivity.
Defined.

Lemma sampleReceiver_storesOnly : storesOnly sampleChunks sampleReceiver.
Proof. intros i c H. vm_compute in H. discriminate H. Defined.

Lemma sampleReceiver_fedPrefix : fedPrefix sampleChunks sampleReceiver.
Proof. split; [vm_compute; split; discriminate | reflexivity]. Defined.

Lemma receive_feeds_prefix_witness :
  concat (fed (fst (receive [ChunkArrives sampleChunk1; ChunkArrives sampleChunk;
                             ChunkArrives sampleChunk2; UpdateEnds] sampleReceiver)))
  = concat (take (Z.to_nat (bufferedChunkIndex
                              (fst (receive [ChunkArrives sampleChunk1;
                                             ChunkArrives sampleChunk;
                                             ChunkArrives sampleChunk2; UpdateEnds]
                                      sampleReceiver))))
              sampleChunks).
Proof.
  apply (receive_feeds_prefix sampleChunks _ sampleReceiver sample_carries
           sampleReceiver_storesOnly sampleReceiver_fedPrefix).
Defined.

(** With every chunk stored and a sink that accepts its blocks, one
    completion of the sink moves the cursor by five chunks, or to the end. *)
Lemma feeder_round (chunks : list Bytes) (s : Service) (sb : SourceBuffer) :
  storesOnly chunks s -> storesAll chunks s -> fedPrefix chunks s ->
  sourceBuffer s = Some sb -> appendFails sb = false ->
  bufferedChunkIndex (fst (onUpdateEnd s))
  = Z.min (bufferedChunkIndex s + 5) (Z.of_nat (length chunks))
  /\ storesOnly chunks (fst (onUpdateEnd s))
  /\ storesAll chunks (fst (onUpdateEnd s))
  /\ fedPrefix chunks (fst (onUpdateEnd s))
  /\ exists sb' : SourceBuffer,
       sourceBuffer (fst (onUpdateEnd s)) = Some sb' /\ appendFails sb' = false.
Proof.
  intros Hstore Hall Hfed Hsb Hok.
  destruct (onUpdateEnd_keeps chunks s Hstore Hfed) as (Hstore' & Hfed' & _).
  assert (Hmissing : forall j : Z, 0 <= j -> receivedChunks s !! j = None ->
                       Z.of_nat (length chunks) <= j).
  { intros j Hj Hnone. destruct (Z.le_gt_cases (Z.of_nat (length chunks)) j); [assumption|].
    destruct (lookup_lt_is_Some_2 chunks (Z.to_nat j)) as [c Hc]; [lia|].
    assert (Hi : index chunks j = Some c) by (apply index_lookup; auto).
    apply Hall in Hi. congruence. }
  revert Hstore' Hfed'. unfold onUpdateEnd, andThen, assign.
  set (s0 := set_isBuffering false s).
  destruct (collectSequential_spec 5 (receivedChunks s) (bufferedChunkIndex s) [])
    as (run & E & Hlen & _ & Hmax).
  cbn [app] in E. destruct Hfed as ((Hlo & Hhi) & _).
  destruct run as [|c run].
  - destruct Hmax as [Hmax|Hmax]; [discriminate|].
    cbn [length Z.of_nat] in Hmax. rewrite Z.add_0_r in Hmax.
    rewrite (bufferChunks_waits s0 Hmax). cbn [fst snd]. intros Hstore' Hfed'.
    pose proof (Hmissing _ Hlo Hmax).
    split_and!; [cbn; lia | assumption | exact Hall | assumption | now exists sb].
  - assert (E0 : fst (bufferChunks s0)
                 = set_bufferedChunkIndex
                     (bufferedChunkIndex s + Z.of_nat (length (c :: run)))
                     (set_sourceBuffer
                        (Some {| appended := appended sb ++ [concat (c :: run)];
                                 appendFails := false |})
                        (set_isBuffering true s0)))
      by (apply (bufferChunks_feeds s0 sb c run); auto).
    destruct (bufferChunks s0) as [s1 e1]. cbn [fst snd] in *. subst s1.
    intros Hstore' Hfed'. pose proof Hfed' as ((_ & Hhi') & _).
    cbn [bufferedChunkIndex set_bufferedChunkIndex] in Hhi'.
    split_and!; [| assumption | exact Hall | assumption | eexists; split; reflexivity].
    cbn [bufferedChunkIndex set_bufferedChunkIndex].
    destruct Hmax as [Hmax|Hmax]; [lia|].
    apply Hmissing in Hmax; lia.
Qed.





Lemma bufferChunks_pressure (s : Service) :
  (isBuffering s = true -> bufferChunks s = (s, []))
  /\ (fed (fst (bufferChunks s)) = fed s
      \/ (isBuffering (fst (bufferChunks s)) = true
          /\ exists block : Bytes, fed (fst (bufferChunks s)) = fed s ++ [block])).
Proof.
  unfold bufferChunks, fed.
  destruct (sourceBuffer s) as [sb|] eqn:Hsb; [|cbn; rewrite Hsb; auto].
  destruct (isBuffering s); [cbn; rewrite Hsb; auto|].
  split; [discriminate|].
  destruct (collectSequential 5 _ _ _) as [[|c run] j]; [cbn; rewrite Hsb; auto|].
  destruct (appendFails sb); cbn; rewrite ?Hsb; eauto.
Qed.

Lemma handleChunk_pressure (m : Wire.ChunkMessage) (s : Service) :
  (isBuffering s = true ->
   fed (fst (handleChunk m s)) = fed s
   /\ bufferedChunkIndex (fst (handleChunk m s)) = bufferedChunkIndex s
   /\ isBuffering (fst (handleChunk m s)) = true)
  /\ (fed (fst (handleChunk m s)) = fed s
      \/ (isBuffering (fst (handleChunk m s)) = true
          /\ exists block : Bytes, fed (fst (handleChunk m s)) = fed s ++ [block])).
Proof.
  destruct (chunkPayload m) as [[i b]|] eqn:Hp.
  - destruct (handleChunk_accepted m s i b Hp) as (e1 & -> & _). cbn [fst].
    set (s1 := set_receivingProgress _ _).
    destruct (checkPlaybackReadiness_spec s1) as (-> & _).
    set (s2 := if _ : bool then _ else s1).
    assert (Hf : fed s2 = fed s) by (subst s2; now destruct (_ && _)).
    assert (Hc : bufferedChunkIndex s2 = bufferedChunkIndex s)
      by (subst s2; now destruct (_ && _)).
    assert (Hb : isBuffering s2 = isBuffering s) by (subst s2; now destruct (_ && _)).
    destruct (bufferChunks_pressure s2) as (H1 & H2).
    rewrite <- Hf, <- Hc, <- Hb. split; [|exact H2].
    intros H. rewrite (H1 H). now cbn.
  - destruct (handleChunk_rejected m s Hp) as (-> & _). auto.
Qed.

(** X8.  Between two completions of the sink the feeder appends at most one
    block: over any sequence of chunk deliveries the sink is given at most
    one more block, and none, with the cursor left where it was, when an
    append was already pending. *)
Theorem deliver_appends_once (messages : list Wire.ChunkMessage) (s : Service) :
  (isBuffering s = true ->
   fed (fst (deliver messages s)) = fed s
   /\ bufferedChunkIndex (fst (deliver messages s)) = bufferedChunkIndex s
   /\ isBuffering (fst (deliver messages s)) = true)
  /\ (fed (fst (deliver messages s)) = fed s
      \/ (isBuffering (fst (deliver messages s)) = true
          /\ exists block : Bytes, fed (fst (deliver messages s)) = fed s ++ [block]))
  /\ (length (fed (fst (deliver messages s))) <= length (fed s) + 1)%nat.
Proof.
  enough (H : (isBuffering s = true ->
               fed (fst (deliver messages s)) = fed s
               /\ bufferedChunkIndex (fst (deliver messages s)) = bufferedChunkIndex s
               /\ isBuffering (fst (deliver messages s)) = true)
              /\ (fed (fst (deliver messages s)) = fed s
                  \/ (isBuffering (fst (deliver messages s)) = true
                      /\ exists block : Bytes,
                           fed (fst (deliver messages s)) = fed s ++ [block]))).
  { destruct H as (H1 & H2). split_and!; [exact H1 | exact H2 |].
    destruct H2 as [->|(_ & block & ->)]; [lia|]. rewrite length_app. cbn. lia. }
  revert s. induction messages as [|m messages IH]; intros s; [cbn; auto|].
  cbn [deliver]. unfold andThen.
  destruct (handleChunk_pressure m s) as (H1 & H2).
  destruct (handleChunk m s) as [s1 e1]. cbn [fst] in *.
  destruct (IH s1) as (I1 & I2).
  destruct (deliver messages s1) as [s2 e2]. cbn [fst] in *. split.
  - intros Hb. destruct (H1 Hb) as (Hf & Hc & Hb1).
    destruct (I1 Hb1) as (Hf2 & Hc2 & Hb2). split_and!; congruence.
  - destruct H2 as [Hf|(Hb1 & block & Hf)].
    + rewrite <- Hf. exact I2.
    + destruct (I1 Hb1) as (Hf2 & _ & Hb2). right. split; [assumption|].
      exists block. congruence.
Qed.

(** *** Transfer sender *)

(** When every chunk has been sent, [sendNextChunk] reports completion,
    stops sending and, on the master, sets the timer that starts playback. *)
Lemma sendNextChunk_done (s : Service) :
  isSending s = true -> totalChunks s <= sendingProgress s ->
  fst (sendNextChunk s) = set_isSending false s
  /\ snd (sendNextChunk s)
     = OnStatusUpdate StTransferCompleted :: snd (startSyncPlayback s).
Proof.
  intros Hs Hdone. unfold sendNextChunk. rewrite Hs. cbn [negb].
  destruct (Z.leb_spec (totalChunks s) (sendingProgress s)) as [_|]; [|lia].
  unfold andThen, emit, assign, startSyncPlayback, skip. cbn.
  now destruct (videoElement s), (isMaster s).
Qed.

(** The effects of a run that sends a chunk: the message, the progress,
    every tenth chunk and at the last a status, and the timer. *)
Lemma sendNextChunk_sends_quietly (s : Service) (c : Bytes) :
  isSending s = true ->
  dataChannel s = Some {| readyState := open; sendFails := false |} ->
  sendingProgress s < totalChunks s ->
  index (fileChunks s) (sendingProgress s) = Some c ->
  List.filter isCompleted (snd (sendNextChunk s)) = []
  /\ List.filter isMasterTimer (snd (sendNextChunk s)) = [].
Proof.
  intros Hs Hch Hlt Hc. unfold sendNextChunk, channelOpen, sendMessage.
  rewrite Hs, Hch, Hc. cbn [negb readyState sendFails ReadyState_eqb].
  destruct (Z.leb_spec (totalChunks s) (sendingProgress s)) as [|_]; [lia|].
  unfold andThen, assign, emit, emitAll, skip. cbn [fst snd].
  destruct (_ || _); now cbn.
Qed.

Lemma pacingLoop_open_quiet (k : nat) (rest : list ReadyState) (s : Service) :
  isSending s = true ->
  dataChannel s = Some {| readyState := open; sendFails := false |} ->
  0 <= sendingProgress s ->
  totalChunks s = Z.of_nat (length (fileChunks s)) ->
  sendingProgress s + Z.of_nat k <= totalChunks s ->
  let sk := set_sendingProgress (sendingProgress s + Z.of_nat k) s in
  exists effects : list Effect,
    pacingLoop (repeat open k ++ rest) s
    = (fst (pacingLoop rest sk), effects ++ snd (pacingLoop rest sk))
    /\ List.filter isChannelSend effects
       = chunkSends (totalChunks s) (sendingProgress s)
           (take k (drop (Z.to_nat (sendingProgress s)) (fileChunks s)))
    /\ List.filter isError effects = []
    /\ List.filter isCompleted effects = []
    /\ List.filter isMasterTimer effects = [].
Proof.
  revert s. induction k as [|k IH]; intros s Hs Hch Hp Ht Hk sk.
  - exists []. subst sk. cbn [repeat app take chunkSends List.filter Z.of_nat].
    rewrite Z.add_0_r.
    replace (set_sendingProgress (sendingProgress s) s) with s by now destruct s.
    now destruct (pacingLoop rest s).
  - cbn [repeat app pacingLoop].
    rewrite (setReadyState_same s _ Hch : setReadyState open s = s).
    destruct (lookup_lt_is_Some_2 (fileChunks s) (Z.to_nat (sendingProgress s)))
      as [c Hc]; [lia|].
    assert (Hidx : index (fileChunks s) (sendingProgress s) = Some c)
      by (apply index_lookup; split; [lia|exact Hc]).
    destruct (sendNextChunk_sends_quietly s c Hs Hch ltac:(lia) Hidx) as (Hq1 & Hq2).
    destruct (sendNextChunk_sends s c Hs Hch ltac:(lia) Hidx)
      as (e1 & E & Hsend & Herr & Htimer).
    rewrite E in Hq1, Hq2 |- *. cbn [snd] in Hq1, Hq2. rewrite Htimer.
    set (s1 := set_sendingProgress (sendingProgress s + 1) s).
    destruct (IH s1 Hs Hch ltac:(cbn; lia) Ht ltac:(cbn; lia))
      as (e2 & -> & Hsend2 & Herr2 & Hq3 & Hq4).
    replace (set_sendingProgress (sendingProgress s1 + Z.of_nat k) s1) with sk
      by (subst sk s1; unfold set_sendingProgress; cbn -[Z.of_nat Z.add];
          f_equal; lia).
    cbn [fst snd]. exists (e1 ++ e2). split_and!.
    + now rewrite app_assoc.
    + rewrite List.filter_app, Hsend, Hsend2.
      rewrite (drop_S _ _ _ Hc). cbn [take chunkSends app].
      do 2 f_equal. cbn. do 2 f_equal. lia.
    + now rewrite List.filter_app, Herr, Herr2.
    + now rewrite List.filter_app, Hq1, Hq3.
    + now rewrite List.filter_app, Hq2, Hq4.
Qed.

Lemma pacingLoop_all (rest : list ReadyState) (s : Service) :
  isSending s = true ->
  dataChannel s = Some {| readyState := open; sendFails := false |} ->
  sendingProgress s = 0 ->
  totalChunks s = Z.of_nat (length (fileChunks s)) ->
  let r := pacingLoop (repeat open (length (fileChunks s) + 1) ++ rest) s in
  List.filter isChannelSend (snd r) = chunkSends (totalChunks s) 0 (fileChunks s)
  /\ List.filter isError (snd r) = []
  /\ List.filter isCompleted (snd r) = [OnStatusUpdate StTransferCompleted]
  /\ List.filter isMasterTimer (snd r)
     = (if isMaster s then
          match videoElement s with
          | Some _ => [SetTimeout cbMasterPlay 1000]
          | None => []
          end
        else [])
  /\ fst r = set_isSending false (set_sendingProgress (totalChunks s) s).
Proof.
  intros Hs Hch Hp Ht r. subst r.
  rewrite repeat_app, <- app_assoc. cbn [repeat app].
  destruct (pacingLoop_open_quiet (length (fileChunks s)) (open :: rest) s Hs Hch
              ltac:(lia) Ht ltac:(lia)) as (effects & -> & Hsend & Herr & Hq1 & Hq2).
  rewrite Hp in Hsend. change (Z.to_nat 0) with 0%nat in Hsend.
  cbn [drop] in Hsend. rewrite firstn_all in Hsend.
  replace (sendingProgress s + Z.of_nat (length (fileChunks s))) with (totalChunks s)
    by lia.
  set (sk := set_sendingProgress (totalChunks s) s).
  cbn [pacingLoop].
  rewrite (setReadyState_same sk _ Hch : setReadyState open sk = sk).
  destruct (sendNextChunk_done sk Hs ltac:(cbn; lia)) as (Hst & Hef).
  destruct (sendNextChunk sk) as [s1 e1]. cbn [fst snd] in Hst, Hef. subst s1 e1.
  unfold startSyncPlayback. change (videoElement sk) with (videoElement s).
  change (isMaster sk) with (isMaster s).
  destruct (videoElement s), (isMaster s); cbn [emit skip fst snd existsb isSendTimer orb];
    rewrite !List.filter_app, Hsend, Herr, Hq1, Hq2; cbn; now rewrite app_nil_r.
Qed.

(** X9.  On a channel that stays open and takes every message, the pacing
    loop sends all chunks, each once and in ascending index order, reports
    no error, reports completion once and stops; the master then sets the
    timer that starts its playback, a follower sets none. *)
Theorem pacingLoop_completes (rest : list ReadyState) (s : Service) :
  isSending s = true ->
  dataChannel s = Some {| readyState := open; sendFails := false |} ->
  sendingProgress s = 0 ->
  totalChunks s = Z.of_nat (length (fileChunks s)) ->
  let r := pacingLoop (repeat open (length (fileChunks s) + 1) ++ rest) s in
  List.filter isChannelSend (snd r) = chunkSends (totalChunks s) 0 (fileChunks s)
  /\ List.filter isError (snd r) = []
  /\ List.filter isCompleted (snd r) = [OnStatusUpdate StTransferCompleted]
  /\ List.filter isMasterTimer (snd r)
     = (if isMaster s then
          match videoElement s with
          | Some _ => [SetTimeout cbMasterPlay 1000]
          | None => []
          end
        else [])
  /\ fst r = set_isSending false (set_sendingProgress (totalChunks s) s).
Proof. apply pacingLoop_all. Qed.

Lemma pacingLoop_completes_witness :
  List.filter isChannelSend (snd (pacingLoop (repeat open 2) sampleSender))
  = chunkSends 1 0 [[x41; x42]]
  /\ isSending (fst (pacingLoop (repeat open 2) sampleSender)) = false.
Proof.
  change (repeat open 2)
    with (repeat open (length (fileChunks sampleSender) + 1) ++ []).
  destruct (pacingLoop_completes [] sampleSender eq_refl eq_refl eq_refl eq_refl)
    as (H1 & _ & _ & _ & H2).
  split; [exact H1|]. now rewrite H2.
Defined.

(** [shareMovie] on an idle service whose channel is open and takes the
    metadata: the effects, and the state it leaves. *)
Lemma shareMovie_started_effects (file : File) (s : Service) :
  dataChannel s = Some {| readyState := open; sendFails := false |} ->
  isSending s = false ->
  snd (shareMovie file s)
  = [OnStatusUpdate StProcessing;
     ChannelSend (metadataMessage ((file_size file + CHUNK_SIZE - 1) / CHUNK_SIZE)
                    {| Wire.fileName := file_name file;
                       Wire.fileSize := file_size file;
                       Wire.fileType := file_type file |});
     OnStatusUpdate StStartingTransfer;
     SetTimeout cbSendNextChunk 500].
Proof.
  intros Hch Hs. unfold shareMovie. rewrite Hch, Hs.
  cbn [negb readyState ReadyState_eqb].
  unfold andThen, assign, emit, emitAll, splitFileIntoChunks, sendMessage. cbn.
  rewrite Hch. cbn. rewrite !ceil_chunks. reflexivity.
Qed.

Lemma shareMovie_started_state (file : File) (s : Service) :
  dataChannel s = Some {| readyState := open; sendFails := false |} ->
  isSending s = false ->
  fst (shareMovie file s)
  = set_fileChunks
      (chunkLoop (Z.to_nat ((file_size file + CHUNK_SIZE - 1) / CHUNK_SIZE)) 0 file [])
      (set_totalChunks ((file_size file + CHUNK_SIZE - 1) / CHUNK_SIZE)
         (set_sendingProgress 0
            (set_isSending true (set_currentFile (Some file) s)))).
Proof.
  intros Hch Hs. unfold shareMovie. rewrite Hch, Hs.
  cbn [negb readyState ReadyState_eqb].
  unfold andThen, assign, emit, emitAll, splitFileIntoChunks, sendMessage. cbn.
  rewrite Hch. cbn. rewrite !ceil_chunks. reflexivity.
Qed.

Lemma shareMovie_started (file : File) (s : Service) :
  dataChannel s = Some {| readyState := open; sendFails := false |} ->
  isSending s = false ->
  let n := (file_size file + CHUNK_SIZE - 1) / CHUNK_SIZE in
  let s1 := fst (shareMovie file s) in
  snd (shareMovie file s)
  = [OnStatusUpdate StProcessing;
     ChannelSend (metadataMessage n {| Wire.fileName := file_name file;
                                       Wire.fileSize := file_size file;
                                       Wire.fileType := file_type file |});
     OnStatusUpdate StStartingTransfer;
     SetTimeout cbSendNextChunk 500]
  /\ s1 = set_fileChunks (chunkLoop (Z.to_nat n) 0 file [])
            (set_totalChunks n
               (set_sendingProgress 0
                  (set_isSending true (set_currentFile (Some file) s)))).
Proof.
  intros Hch Hs n s1. subst s1 n.
  split; [now apply shareMovie_started_effects | now apply shareMovie_started_state].
Qed.

(** X10.  A whole transfer on a channel that stays open: [shareMovie] and
    the pacing loop hand the channel first the metadata, announcing
    ceil(size / CHUNK_SIZE) chunks, then every chunk message in ascending
    index order and nothing else; the chunks sent make up the file; no
    error is reported and sending has stopped at the end. *)
Theorem transfer_sends_all (file : File) (s : Service) (rest : list ReadyState) :
  dataChannel s = Some {| readyState := open; sendFails := false |} ->
  isSending s = false ->
  let start := shareMovie file s in
  let chunks := fileChunks (fst start) in
  let total := totalChunks (fst start) in
  let run := pacingLoop (repeat open (length chunks + 1) ++ rest) (fst start) in
  List.filter isChannelSend (snd start ++ snd run)
  = ChannelSend (metadataMessage total
                   {| Wire.fileName := file_name file;
                      Wire.fileSize := file_size file;
                      Wire.fileType := file_type file |})
      :: chunkSends total 0 chunks
  /\ total = Qceiling (inject_Z (file_size file) / inject_Z CHUNK_SIZE)
  /\ concat chunks = file_bytes file
  /\ List.filter isError (snd start ++ snd run) = []
  /\ isSending (fst run) = false
  /\ sendingProgress (fst run) = total.
Proof.
  intros Hch Hs start chunks total run.
  destruct (shareMovie_started file s Hch Hs) as (He & Hst).
  fold start in He, Hst.
  set (n := (file_size file + CHUNK_SIZE - 1) / CHUNK_SIZE) in *.
  assert (Hsize : 0 <= file_size file) by (unfold file_size; lia).
  assert (Hn : 0 <= n) by (subst n; unfold CHUNK_SIZE; lia).
  assert (Hc : chunks = chunkLoop (Z.to_nat n) 0 file []) by (subst chunks; now rewrite Hst).
  assert (Ht : total = n) by (subst total; now rewrite Hst).
  assert (Hlen : total = Z.of_nat (length chunks))
    by (rewrite Ht, Hc, chunkLoop_length; cbn [length]; lia).
  destruct (pacingLoop_all rest (fst start)) as (R1 & R2 & _ & _ & R3).
  - now rewrite Hst.
  - now rewrite Hst.
  - now rewrite Hst.
  - exact Hlen.
  - fold chunks total run in R1, R2, R3.
    rewrite !List.filter_app, R1, R2, He, R3. cbn. split_and!; try reflexivity.
    + now rewrite Ht.
    + rewrite Ht. subst n. symmetry. apply ceil_chunks.
    + rewrite Hc, chunkLoop_concat by lia. cbn [concat app].
      change (0 * CHUNK_SIZE) with 0. apply slice_all.
      fold (file_size file). subst n. unfold CHUNK_SIZE. lia.
Qed.

Lemma transfer_sends_all_witness :
  List.filter isChannelSend
    (snd (shareMovie sampleFile sampleIdle)
       ++ snd (pacingLoop (repeat open 2) (fst (shareMovie sampleFile sampleIdle))))
  = [ChannelSend (metadataMessage 1
                    {| Wire.fileName := "movie.mp4"; Wire.fileSize := 2;
                       Wire.fileType := "video/mp4" |});
     ChannelSend (chunkMessage 0 1 "QUI=")].
Proof.
  pose proof (transfer_sends_all sampleFile sampleIdle [] eq_refl eq_refl) as H.
  cbv zeta in H. destruct H as (H & _). exact H.
Defined.

(** X11.  When the channel is open but [send] raises for chunk k of n (or
    the chunk list holds no chunk k), the sender reports one transfer
    failure naming k and n, stops sending with the cursor still at k, sends
    nothing and sets no timer; a later run does nothing. *)
Theorem sendNextChunk_send_raises (s : Service) (ch : RTCDataChannel) :
  isSending s = true -> sendingProgress s < totalChunks s ->
  dataChannel s = Some ch -> readyState ch = open ->
  sendFails ch = true \/ index (fileChunks s) (sendingProgress s) = None ->
  fst (sendNextChunk s) = set_isSending false s
  /\ List.filter isError (snd (sendNextChunk s))
     = [OnError (ErrTransferFailed (sendingProgress s) (totalChunks s))]
  /\ List.filter isChannelSend (snd (sendNextChunk s)) = []
  /\ existsb isSendTimer (snd (sendNextChunk s)) = false
  /\ sendNextChunk (fst (sendNextChunk s)) = (fst (sendNextChunk s), []).
Proof.
  intros Hs Hlt Hch Hopen Hfail.
  assert (E : exists diag : list Effect,
            sendNextChunk s
            = (set_isSending false s,
               diag ++ [ConsoleError "Failed to send chunk";
                        OnError (ErrTransferFailed (sendingProgress s) (totalChunks s))])
            /\ (diag = [] \/ diag = [ConsoleError "Failed to send message:"])).
  { unfold sendNextChunk, channelOpen, sendMessage. rewrite Hs, Hch, Hopen.
    cbn [negb ReadyState_eqb].
    destruct (Z.leb_spec (totalChunks s) (sendingProgress s)) as [|_]; [lia|].
    destruct (index (fileChunks s) (sendingProgress s)) as [c|].
    - destruct Hfail as [Hf|]; [|discriminate]. rewrite Hf.
      exists [ConsoleError "Failed to send message:"]. split; [reflexivity|now right].
    - exists []. split; [reflexivity|now left]. }
  destruct E as (diag & -> & Hdiag). cbn [fst snd].
  split_and!; [reflexivity | | | |now apply sendNextChunk_stopped];
    destruct Hdiag as [->| ->]; reflexivity.
Qed.

Lemma sendNextChunk_send_raises_witness :
  fst (sendNextChunk sampleFailing) = set_isSending false sampleFailing
  /\ List.filter isError (snd (sendNextChunk sampleFailing))
     = [OnError (ErrTransferFailed 0 1)].
Proof.
  destruct (sendNextChunk_send_raises sampleFailing
              {| readyState := open; sendFails := true |}
              eq_refl eq_refl eq_refl eq_refl (or_introl eq_refl))
    as (H1 & H2 & _).
  split; [exact H1 | exact H2].
Defined.

(** X12.  An empty file is announced with zero chunks.  The sender's first
    run then reports completion without sending a chunk, and a receiver
    takes the announcement for an invalid metadata message: it logs the
    fact and changes nothing. *)
Theorem shareMovie_empty_file (file : File) (s other : Service)
    (rest : list ReadyState) :
  file_bytes file = [] ->
  dataChannel s = Some {| readyState := open; sendFails := false |} ->
  isSending s = false ->
  let start := shareMovie file s in
  let announcement :=
    metadataMessage 0 {| Wire.fileName := file_name file; Wire.fileSize := 0;
                         Wire.fileType := file_type file |} in
  List.filter isChannelSend (snd start) = [ChannelSend announcement]
  /\ List.filter isChannelSend (snd (pacingLoop (open :: rest) (fst start))) = []
  /\ List.filter isCompleted (snd (pacingLoop (open :: rest) (fst start)))
     = [OnStatusUpdate StTransferCompleted]
  /\ handleMetadata announcement other
     = (other, [ConsoleError "Invalid metadata message"]).
Proof.
  intros Hempty Hch Hs start announcement.
  destruct (shareMovie_started file s Hch Hs) as (He & Hst). fold start in He, Hst.
  assert (H0 : file_size file = 0) by (unfold file_size; now rewrite Hempty).
  rewrite H0 in He, Hst. change ((0 + CHUNK_SIZE - 1) / CHUNK_SIZE) with 0 in He, Hst.
  cbn [Z.to_nat chunkLoop] in Hst.
  assert (P1 : isSending (fst start) = true) by now rewrite Hst.
  assert (P2 : dataChannel (fst start)
               = Some {| readyState := open; sendFails := false |}) by now rewrite Hst.
  assert (P3 : sendingProgress (fst start) = 0) by now rewrite Hst.
  assert (P4 : fileChunks (fst start) = []) by now rewrite Hst.
  assert (P5 : totalChunks (fst start) = 0) by now rewrite Hst.
  pose proof (pacingLoop_all rest (fst start) P1 P2 P3) as R. cbv zeta in R.
  rewrite P4, P5 in R. destruct (R eq_refl) as (R1 & _ & R2 & _).
  split_and!; [now rewrite He | exact R1 | exact R2 | reflexivity].
Qed.

Lemma shareMovie_empty_file_witness :
  List.filter isChannelSend (snd (shareMovie emptyFile sampleIdle))
  = [ChannelSend (metadataMessage 0 {| Wire.fileName := "empty.mp4"; Wire.fileSize := 0;
                                       Wire.fileType := "video/mp4" |})]
  /\ handleMetadata
       (metadataMessage 0 {| Wire.fileName := "empty.mp4"; Wire.fileSize := 0;
                             Wire.fileType := "video/mp4" |})
       sampleSession
     = (sampleSession, [ConsoleError "Invalid metadata message"]).
Proof.
  destruct (shareMovie_empty_file emptyFile sampleIdle sampleSession []
              eq_refl eq_refl eq_refl) as (H1 & _ & _ & H2).
  split; [exact H1 | exact H2].
Defined.

(** *** Reassembly buffer, continued *)

Lemma handleChunk_shape (m : Wire.ChunkMessage) (s : Service) :
  sourceBuffer s = None ->
  exists (chunks : gmap Z Bytes) (count : Z) (started : bool),
    fst (handleChunk m s)
    = set_playbackStarted started
        (set_receivingProgress count (set_receivedChunks chunks s)).
Proof.
  intros Hsb. destruct (chunkPayload m) as [[i b]|] eqn:Hp.
  - destruct (handleChunk_accepted m s i b Hp) as (e1 & -> & _). cbn [fst].
    set (s1 := set_receivingProgress _ _).
    destruct (checkPlaybackReadiness_spec s1) as (-> & _).
    set (s2 := if _ : bool then _ else s1).
    assert (Hb : bufferChunks s2 = (s2, [])).
    { unfold bufferChunks. replace (sourceBuffer s2) with (sourceBuffer s);
        [now rewrite Hsb|]. subst s2. now destruct (_ && _). }
    rewrite Hb. cbn [fst]. subst s2.
    destruct (_ && _); [now eexists _, _, true|].
    exists (<[i := b]> (receivedChunks s)), (receivingProgress s + 1), (playbackStarted s).
    subst s1. now destruct s.
  - destruct (handleChunk_rejected m s Hp) as (-> & _).
    exists (receivedChunks s), (receivingProgress s), (playbackStarted s). now destruct s.
Qed.

Lemma deliver_shape (messages : list Wire.ChunkMessage) (s : Service) :
  sourceBuffer s = None ->
  exists (chunks : gmap Z Bytes) (count : Z) (started : bool),
    fst (deliver messages s)
    = set_playbackStarted started
        (set_receivingProgress count (set_receivedChunks chunks s)).
Proof.
  revert s. induction messages as [|m messages IH]; intros s Hsb.
  - exists (receivedChunks s), (receivingProgress s), (playbackStarted s). now destruct s.
  - cbn [deliver]. unfold andThen.
    destruct (handleChunk_shape m s Hsb) as (c1 & n1 & p1 & E1).
    destruct (handleChunk m s) as [s1 e1]. cbn [fst] in E1. subst s1.
    destruct (IH (set_playbackStarted p1 (set_receivingProgress n1 (set_receivedChunks c1 s)))
                Hsb) as (c2 & n2 & p2 & E2).
    destruct (deliver messages _) as [s2 e2]. cbn [fst] in *. subst s2.
    now exists c2, n2, p2.
Qed.

(** X13.  A metadata message wipes whatever arrived before it: chunk
    messages handled before the metadata, while no source buffer exists,
    leave no trace.  The receiver ends in the state, and causes the effects,
    it would have had those chunks never arrived. *)
Theorem handleMetadata_discards_earlier (meta : Wire.ChunkMessage)
    (md : Wire.MovieMetadata) (total : Z) (messages : list Wire.ChunkMessage)
    (s : Service) :
  Wire.metadata meta = Some md -> Wire.totalChunks meta = Some total -> total <> 0 ->
  sourceBuffer s = None ->
  handleMetadata meta (fst (deliver messages s)) = handleMetadata meta s.
Proof.
  intros Hmd Ht Hne Hsb.
  destruct (deliver_shape messages s Hsb) as (chunks & count & started & ->).
  unfold handleMetadata. rewrite Hmd, Ht.
  destruct (Z.eqb_spec total 0) as [|_]; [contradiction|].
  unfold setupMediaSource, cleanupMediaSource, andThen, assign, emit, skip. cbn.
  destruct (videoElement s); [|reflexivity].
  destruct (mediaSource s) as [[]|]; reflexivity.
Qed.

Lemma handleMetadata_discards_earlier_witness :
  handleMetadata sampleMetadata
    (fst (deliver [sampleChunk; sampleChunk1] (newService sampleVideo)))
  = handleMetadata sampleMetadata (newService sampleVideo).
Proof.
  apply (handleMetadata_discards_earlier sampleMetadata
           {| Wire.fileName := "movie.mp4"; Wire.fileSize := 40000;
              Wire.fileType := "video/mp4" |} 3);
    [reflexivity | reflexivity | discriminate | reflexivity].
Defined.

(** *** Playback synchroniser, continued *)

Lemma no_drift (t : Double.t) :
  Double.ltb SEEK_TOLERANCE (Double.abs (Double.sub t t)) = false.
Proof.
  destruct t as [[]|[]| |sign m e]; try reflexivity.
  unfold Double.sub, SpecFloat.SFsub. cbv zeta. now rewrite Z.sub_diag.
Qed.

(** X14.  Handling the same sample again at the same instant changes
    nothing more.  Where the element can seek to the target time, the
    follower's position after a sample is within the tolerance of it, as
    the code measures the distance (in double precision); and where
    moreover the browser lets playback start, the follower's pause state
    equals the sample's and the second handling causes no effect. *)
Theorem handleSync_settles (now : Z) (m : Wire.ChunkMessage) (sd : Wire.SyncData)
    (video : Video.HTMLVideoElement) (s : Service) :
  isMaster s = false -> Wire.syncData m = Some sd -> videoElement s = Some video ->
  let targetTime :=
    Double.add (Wire.currentTime sd)
      (Double.div (Double.sub (Double.ofZ now) (Wire.timestamp sd)) (Double.ofZ 1000)) in
  Double.isFinite targetTime = true ->
  let s' := fst (handleSync now m s) in
  exists video' : Video.HTMLVideoElement,
    videoElement s' = Some video'
    /\ fst (handleSync now m s') = s'
    /\ (Video.seekLands video targetTime = targetTime ->
        Double.ltb SEEK_TOLERANCE
          (Double.abs (Double.sub (Video.currentTime video') targetTime)) = false
        /\ (Video.playAllowed video = true ->
            Video.paused video' = Wire.paused sd /\ snd (handleSync now m s') = [])).
Proof.
  intros Hm Hsd Hv targetTime Hfin s'. subst s'.
  rewrite (handleSync_follower now m sd video s Hm Hsd Hv Hfin).
  change (adjustedTime now sd) with targetTime. cbn [fst].
  set (video' := if Wire.paused sd && negb (Video.paused video) then _
                 else if negb (Wire.paused sd) && Video.paused video then _ else _).
  exists video'. split; [reflexivity|].
  rewrite (handleSync_follower now m sd video' (set_videoElement (Some video') s)
             Hm Hsd eq_refl Hfin).
  change (adjustedTime now sd) with targetTime. cbn [fst snd].
  unfold timeDiff in *. change (adjustedTime now sd) with targetTime in *.
  subst video'. destruct video as [t p a lands].
  cbn [Video.currentTime Video.paused Video.playAllowed Video.seekLands].
  destruct (Double.ltb SEEK_TOLERANCE (Double.abs (Double.sub t targetTime))) eqn:Hd;
    destruct (Wire.paused sd), p, a;
    cbn [andb negb app Video.currentTime Video.paused Video.playAllowed
         Video.seekLands Video.seek Video.pause Video.play pauseCalls];
    rewrite ?Hd.
  all: split;
    [try (destruct (Double.ltb SEEK_TOLERANCE
                      (Double.abs (Double.sub (lands targetTime) targetTime))));
     reflexivity|].
  all: intros Hlands; rewrite ?Hlands, ?no_drift; split; [reflexivity|].
  all: intros Ha; try discriminate Ha; split; reflexivity.
Qed.

Lemma handleSync_settles_witness :
  exists video' : Video.HTMLVideoElement,
    videoElement (fst (handleSync (t0 + 400) sampleSync
                         (set_videoElement (Some (videoAt (Double.ofZ 98)))
                            (newService sampleVideo))))
    = Some video'
    /\ Double.ltb SEEK_TOLERANCE
         (Double.abs (Double.sub (Video.currentTime video') (Double.decimal 1004 1)))
       = false.
Proof.
  destruct (handleSync_settles (t0 + 400) sampleSync
              {| Wire.currentTime := Double.ofZ 100; Wire.paused := false;
                 Wire.timestamp := Double.ofZ t0 |}
              (videoAt (Double.ofZ 98))
              (set_videoElement (Some (videoAt (Double.ofZ 98))) (newService sampleVideo))
              eq_refl eq_refl eq_refl eq_refl) as (video' & H1 & _ & H2).
  exists video'. split; [exact H1|]. exact (proj1 (H2 eq_refl)).
Defined.

(** *** Cleanup *)

(** The fields [cleanup] leaves, and the calls it makes. *)
Lemma cleanup_fields (s : Service) :
  cleanup s
  = (set_dataChannel None
       (set_receivingProgress 0
          (set_sendingProgress 0
             (set_bufferedChunkIndex 0
                (set_playbackStarted false
                   (set_isSending false
                      (set_currentFile None
                         (set_fileChunks []
                            (set_receivedChunks ∅
                               (set_mediaSource None
                                  (set_sourceBuffer None
                                     (set_syncInterval false s))))))))))),
     (if syncInterval s then [ClearInterval] else [])
     ++ (match dataChannel s with Some _ => [ChannelClose] | None => [] end)).
Proof.
  unfold cleanup, andAlso, update, notify, idle, lift, cleanupMediaSource, andThen, assign.
  destruct s as [ch f cs sp tc snd_ rc et rp md ms sb v b ps bi m si].
  destruct si, ms as [[]|], ch; reflexivity.
Qed.

(** X15.  [cleanup] clears the broadcast interval if one is set and closes
    the channel if there is one, and invokes no callback.  It is idempotent:
    a second [cleanup], and the channel's [onclose] that closing the channel
    brings about, change nothing more, clear no interval and close no
    channel again. *)
Theorem cleanup_idempotent (s : Service) :
  let s' := fst (cleanup s) in
  snd (cleanup s)
  = (if syncInterval s then [ClearInterval] else [])
    ++ (match dataChannel s with Some _ => [ChannelClose] | None => [] end)
  /\ cleanup s' = (s', [])
  /\ onChannelClose s' = (s', [OnStatusText "Data channel disconnected"])
  /\ react (ChannelBecomes closed) s' = (s', [OnStatusText "Data channel disconnected"]).
Proof.
  intros s'. subst s'. rewrite cleanup_fields. cbn [fst snd].
  set (s' := set_dataChannel None _).
  assert (H : cleanup s' = (s', [])).
  { rewrite cleanup_fields. subst s'. destruct s. vm_compute. reflexivity. }
  split_and!; [reflexivity | exact H | |].
  - unfold onChannelClose, andAlso, notify. now rewrite H.
  - assert (Hr : setReadyState closed s' = s') by reflexivity.
    unfold react, andAlso, update. rewrite Hr.
    unfold onChannelClose, andAlso, notify. now rewrite H.
Qed.

Lemma deliver_no_sink (messages : list Wire.ChunkMessage) (s : Service) :
  sourceBuffer s = None -> fed (fst (deliver messages s)) = [].
Proof.
  intros Hsb. destruct (deliver_shape messages s Hsb) as (c & n & p & ->).
  unfold fed. cbn. now rewrite Hsb.
Qed.

(** X16.  After [cleanup] the timer of the pacing loop and a tick of the
    broadcast interval leave the state alone and send nothing, an
    [updateend] appends nothing, chunk messages still arriving reach no
    sink, and [shareMovie] is refused for want of a channel.  The timer that
    starts the master's playback is not cancelled, and the role, the play
    surface, the expected total and [isBuffering] are not reset: when that
    timer fires after [cleanup] it still calls [play()] and, where the
    browser lets playback start, a master sets a new broadcast interval,
    whose ticks send nothing as there is no channel. *)
Theorem cleanup_pending (s : Service) (now : Z) (file : File)
    (messages : list Wire.ChunkMessage) :
  let s' := fst (cleanup s) in
  sendNextChunk s' = (s', [])
  /\ syncTick now s' = (s', [])
  /\ onUpdateEnd s' = (set_isBuffering false s', [])
  /\ fed (fst (deliver messages s')) = []
  /\ shareMovie file s'
     = (s', [ConsoleError "Data channel not initialized";
             OnError ErrChannelNotInitialized])
  /\ isMaster s' = isMaster s
  /\ videoElement s' = videoElement s
  /\ expectedTotalChunks s' = expectedTotalChunks s
  /\ isBuffering s' = isBuffering s
  /\ (forall video : Video.HTMLVideoElement,
        videoElement s = Some video ->
        snd (onMasterPlayTimer s')
        = Core VideoPlay
            :: (if Video.playAllowed video then
                  if isMaster s then [SetInterval SYNC_INTERVAL] else []
                else [Core (ConsoleError "Failed to start playback:");
                      OnErrorText "Failed to start video playback"])
        /\ syncInterval (fst (onMasterPlayTimer s'))
           = Video.playAllowed video && isMaster s
        /\ snd (syncTick now (fst (onMasterPlayTimer s'))) = []).
Proof.
  intros s'. subst s'. rewrite cleanup_fields. cbn [fst].
  set (s' := set_dataChannel None _).
  split_and!; try reflexivity.
  - unfold syncTick, channelOpen, idle. now destruct (videoElement s').
  - now apply deliver_no_sink.
  - intros video Hv.
    assert (Hv' : videoElement s' = Some video) by exact Hv.
    assert (Hquiet : forall x : Service, dataChannel x = None -> snd (syncTick now x) = []).
    { intros x Hx. unfold syncTick, channelOpen, idle. rewrite Hx.
      now destruct (videoElement x). }
    unfold onMasterPlayTimer. rewrite Hv'.
    unfold andAlso, lift, onVideo, andThen, assign, emit. cbn [fst snd map].
    set (s1 := set_videoElement _ s').
    destruct (Video.playAllowed video); cbn [andb].
    + unfold startSyncBroadcast.
      change (isMaster s1) with (isMaster s). change (syncInterval s1) with false.
      destruct (isMaster s); cbn [negb orb];
        (split_and!; [reflexivity | reflexivity | now apply Hquiet]).
    + unfold notify. cbn [fst snd app].
      split_and!; [reflexivity | reflexivity | now apply Hquiet].
Qed.

(** *** Messages coming in *)

Lemma senderUntouched_refl (s : Service) : senderUntouched s s.
Proof. unfold senderUntouched. now split_and!. Qed.

Lemma senderUntouched_trans (s1 s2 s3 : Service) :
  senderUntouched s1 s2 -> senderUntouched s2 s3 -> senderUntouched s1 s3.
Proof. unfold senderUntouched. intros H1 H2. split_and!; intuition congruence. Qed.

Lemma inward_skip : inward skip.
Proof. intros s. split; [apply senderUntouched_refl | reflexivity]. Qed.

Lemma inward_emit (e : Effect) : actsOutward (Core e) = false -> inward (emit e).
Proof.
  intros H s. split; [apply senderUntouched_refl|].
  unfold emit. cbn [snd map List.filter]. now rewrite H.
Qed.

Lemma inward_assign (f : Service -> Service) :
  (forall s : Service, senderUntouched s (f s)) -> inward (assign f).
Proof. intros H s. split; [apply H | reflexivity]. Qed.

Lemma inward_andThen (a b : Action) : inward a -> inward b -> inward (a >> b).
Proof.
  intros Ha Hb s. unfold andThen. destruct (Ha s) as (F1 & Q1).
  destruct (a s) as [s1 e1]. destruct (Hb s1) as (F2 & Q2).
  destruct (b s1) as [s2 e2]. cbn [fst snd] in *. split.
  - now apply (senderUntouched_trans s s1 s2).
  - now rewrite map_app, List.filter_app, Q1, Q2.
Qed.

Ltac inward_step :=
  first [ apply inward_andThen
        | apply inward_skip
        | apply inward_emit; reflexivity
        | apply inward_assign; intros ?; unfold senderUntouched; now split_and! ].

Lemma cleanupMediaSource_inward : inward cleanupMediaSource.
Proof.
  unfold cleanupMediaSource. apply inward_andThen.
  - apply inward_assign. intros s. destruct (mediaSource s) as [[]|];
      unfold senderUntouched; now split_and!.
  - inward_step.
Qed.

Lemma setupMediaSource_inward : inward setupMediaSource.
Proof.
  intros s. unfold setupMediaSource.
  destruct (videoElement s); [|now apply inward_emit].
  destruct (movieMetadata s); [|now apply inward_emit].
  apply inward_andThen; [|inward_step].
  intros s'. destruct (mediaSource s');
    [apply cleanupMediaSource_inward | apply inward_skip].
Qed.

Lemma handleMetadata_inward (m : Wire.ChunkMessage) : inward (handleMetadata m).
Proof.
  intros s. unfold handleMetadata.
  destruct (Wire.metadata m); [|now apply inward_emit].
  destruct (Wire.totalChunks m) as [total|]; [|now apply inward_emit].
  destruct (total =? 0); [now apply inward_emit|].
  repeat (apply inward_andThen; [inward_step|]). apply setupMediaSource_inward.
Qed.

Lemma startSyncPlayback_follower (s : Service) :
  isMaster s = false ->
  senderUntouched s (fst (startSyncPlayback s))
  /\ List.filter actsOutward (map Core (snd (startSyncPlayback s))) = [].
Proof.
  intros Hm. unfold startSyncPlayback. rewrite Hm.
  destruct (videoElement s); [apply inward_skip | now apply inward_emit].
Qed.

(** Readiness starts the playback timer on no one: only a follower calls
    [startSyncPlayback] here, and that sets the timer on the master only. *)
Lemma checkPlaybackReadiness_inward : inward checkPlaybackReadiness.
Proof.
  intros s. unfold checkPlaybackReadiness.
  destruct (bufferRatio s) as [ratio|]; [|apply inward_skip].
  destruct (JSNum.geQ ratio BUFFER_THRESHOLD); [|apply inward_skip].
  repeat (apply inward_andThen; [inward_step|]).
  intros s'. destruct (isMaster s') eqn:Hm; cbn [negb];
    [apply inward_skip | now apply startSyncPlayback_follower].
Qed.

Lemma bufferChunks_inward : inward bufferChunks.
Proof.
  intros s. unfold bufferChunks.
  destruct (sourceBuffer s) as [sb|]; [|apply inward_skip].
  destruct (isBuffering s); [apply inward_skip|].
  destruct (collectSequential 5 _ _ _) as [[|c cs] j]; [apply inward_skip|].
  destruct (appendFails sb); repeat inward_step.
Qed.


Lemma handleChunk_inward (m : Wire.ChunkMessage) : inward (handleChunk m).
Proof.
  intros s. unfold handleChunk.
  destruct (Wire.chunkIndex m) as [i|]; [|now apply inward_emit].
  destruct (Wire.data m) as [d|]; [|now apply inward_emit].
  destruct (String.eqb d EmptyString); [now apply inward_emit|].
  destruct (base64ToArrayBuffer d) as [b|]; [|repeat inward_step].
  apply inward_andThen; [inward_step|].
  apply inward_andThen; [inward_step|].
  apply inward_andThen;
    [|apply inward_andThen; [apply checkPlaybackReadiness_inward | apply bufferChunks_inward]].
  intros s'. cbv zeta. apply inward_andThen; [inward_step|].
  destruct (_ || _); inward_step.
Qed.

Lemma reconcilePause_inward (sd : Wire.SyncData) : inward (reconcilePause sd).
Proof.
  intros s. unfold reconcilePause.
  destruct (videoElement s) as [video|]; [|apply inward_skip].
  destruct (_ && _); [unfold onVideo; repeat inward_step|].
  destruct (_ && _); unfold onVideo; repeat inward_step.
Qed.

Lemma handleSync_inward (now : Z) (m : Wire.ChunkMessage) : inward (handleSync now m).
Proof.
  intros s. unfold handleSync.
  destruct (isMaster s); [apply inward_skip|].
  destruct (Wire.syncData m) as [sd|]; [|apply inward_skip].
  destruct (videoElement s) as [video|]; [|apply inward_skip].
  destruct (Double.ltb _ _); [|apply reconcilePause_inward].
  destruct (Double.isFinite _); [|apply inward_skip].
  apply inward_andThen; [unfold onVideo; inward_step|].
  apply inward_andThen; [inward_step | apply reconcilePause_inward].
Qed.

Lemma lift_inward (a : Action) (s : Service) :
  inward a ->
  senderUntouched s (fst (lift a s)) /\ List.filter actsOutward (snd (lift a s)) = [].
Proof. intros H. unfold lift. destruct (H s) as (F & Q). now destruct (a s). Qed.

Lemma handleIncomingMessage_frame (now : Z) (data : Incoming) (s : Service) :
  senderUntouched s (fst (handleIncomingMessage now data s))
  /\ List.filter actsOutward (snd (handleIncomingMessage now data s)) = [].
Proof.
  destruct data as [| |m]; cbn [handleIncomingMessage];
    try (split; [apply senderUntouched_refl | reflexivity]).
  destruct (Wire.type m).
  - apply lift_inward, handleMetadata_inward.
  - apply lift_inward, handleChunk_inward.
  - destruct (handleSyncRaises now m s);
      [split; [apply senderUntouched_refl | reflexivity]|].
    apply lift_inward, handleSync_inward.
  - split; [apply senderUntouched_refl | reflexivity].
Qed.

(** X17.  Whatever arrives on the channel, handling it leaves the channel,
    the sending state (file, chunks, cursor, total, [isSending]), the role
    and the broadcast interval as they were, hands the channel nothing, and
    sets or clears no timer.  Data that does not parse is reported as one
    error and changes nothing; a message of an unknown type or a control
    message changes nothing and reaches no callback. *)
Theorem handleIncomingMessage_inward (now : Z) (data : Incoming) (s : Service) :
  let r := handleIncomingMessage now data s in
  senderUntouched s (fst r)
  /\ List.filter actsOutward (snd r) = []
  /\ match data with
     | Unparsable =>
         r = (s, [Core (ConsoleError "Failed to parse/handle message:");
                  OnErrorText "Failed to process incoming data"])
     | UnknownType => r = (s, [Core (ConsoleWarn "Unknown message type:")])
     | Parsed m => Wire.type m = Wire.control_t -> r = (s, [])
     end.
Proof.
  intros r. subst r.
  destruct (handleIncomingMessage_frame now data s) as (F & Q).
  split_and!; [exact F | exact Q |].
  destruct data as [| |m]; try reflexivity.
  intros Ht. cbn [handleIncomingMessage]. now rewrite Ht.
Qed.


(** *** Sync broadcast *)

Lemma handleSyncRaises_finite (now : Z) (m : Wire.ChunkMessage) (sd : Wire.SyncData)
    (s : Service) :
  Wire.syncData m = Some sd -> Double.isFinite (adjustedTime now sd) = true ->
  handleSyncRaises now m s = false.
Proof.
  intros Hsd Hfin. unfold handleSyncRaises. rewrite Hsd, Hfin.
  destruct (isMaster s), (videoElement s); cbn [negb andb]; try reflexivity.
  apply andb_false_r.
Qed.

(** X18.  A tick of the master's broadcast interval hands the channel one
    sync message and changes nothing at the master.  A follower handling
    that message at time [now] aims at where the master's playback was at
    the tick plus the time the message took (computed in double precision);
    where its element can seek there, it ends within the tolerance of that
    time as the code measures the distance.  It is paused if the master
    was, and, where the browser lets playback start, playing if the master
    was. *)
Theorem sync_round_trip (tick now : Z) (master follower : Service)
    (masterVideo followerVideo : Video.HTMLVideoElement) :
  videoElement master = Some masterVideo ->
  dataChannel master = Some {| readyState := open; sendFails := false |} ->
  isMaster follower = false -> videoElement follower = Some followerVideo ->
  let targetTime :=
    Double.add (Video.currentTime masterVideo)
      (Double.div (Double.sub (Double.ofZ now) (Double.ofZ tick)) (Double.ofZ 1000)) in
  Double.isFinite targetTime = true ->
  exists (m : Wire.ChunkMessage) (video' : Video.HTMLVideoElement),
    syncTick tick master = (master, [Core (ChannelSend m)])
    /\ videoElement (fst (handleIncomingMessage now (Parsed m) follower)) = Some video'
    /\ (Video.seekLands followerVideo targetTime = targetTime ->
        Double.ltb SEEK_TOLERANCE
          (Double.abs (Double.sub (Video.currentTime video') targetTime)) = false)
    /\ (Video.paused masterVideo = true -> Video.paused video' = true)
    /\ (Video.playAllowed followerVideo = true ->
        Video.paused video' = Video.paused masterVideo).
Proof.
  intros Hmv Hch Hf Hfv targetTime Hfin.
  exists (syncMessage masterVideo tick).
  unfold syncTick, channelOpen, sendMessage. rewrite Hmv, Hch.
  cbn [readyState sendFails ReadyState_eqb negb map].
  set (sd := {| Wire.currentTime := Video.currentTime masterVideo;
                Wire.paused := Video.paused masterVideo;
                Wire.timestamp := Double.ofZ tick |}).
  unfold handleIncomingMessage.
  change (Wire.type (syncMessage masterVideo tick)) with Wire.sync_t. cbv beta iota.
  rewrite (handleSyncRaises_finite now (syncMessage masterVideo tick) sd follower
             eq_refl Hfin).
  unfold lift.
  rewrite (handleSync_follower now (syncMessage masterVideo tick) sd followerVideo
             follower Hf eq_refl Hfv Hfin).
  change (adjustedTime now sd) with targetTime. unfold timeDiff.
  change (adjustedTime now sd) with targetTime.
  cbn [fst snd Wire.currentTime Wire.paused Wire.timestamp videoElement set_videoElement sd].
  eexists. split; [reflexivity|]. split; [reflexivity|].
  destruct followerVideo as [t p a lands], (Video.paused masterVideo).
  all: cbn [Video.paused Video.playAllowed Video.currentTime Video.seekLands] in *.
  all: destruct (Double.ltb SEEK_TOLERANCE (Double.abs (Double.sub t targetTime))) eqn:Hd,
         p, a.
  all: cbn [andb negb Video.paused Video.playAllowed Video.currentTime Video.seekLands
            Video.seek Video.pause Video.play].
  all: split_and!; try reflexivity; try (intros H; discriminate H).
  all: try (intros _; exact Hd).
  all: intros ->; apply no_drift.
Qed.

Lemma sync_round_trip_witness :
  exists (m : Wire.ChunkMessage) (video' : Video.HTMLVideoElement),
    syncTick t0 sampleBroadcaster = (sampleBroadcaster, [Core (ChannelSend m)])
    /\ videoElement (fst (handleIncomingMessage (t0 + 400) (Parsed m) sampleFollower))
       = Some video'
    /\ Double.ltb SEEK_TOLERANCE
         (Double.abs (Double.sub (Video.currentTime video') (Double.decimal 1004 1)))
       = false.
Proof.
  destruct (sync_round_trip t0 (t0 + 400) sampleBroadcaster sampleFollower
              (videoAt (Double.ofZ 100)) (videoAt (Double.ofZ 98))
              eq_refl eq_refl eq_refl eq_refl eq_refl)
    as (m & video' & H1 & H2 & H3 & _).
  exists m, video'. split_and!; [exact H1 | exact H2 | exact (H3 eq_refl)].
Defined.

(** *** The broadcast interval *)





















(** *** The media source opening *)

Lemma find_first {A} (p : A -> bool) (l : list A) :
  match List.find p l with
  | Some x =>
      p x = true
      /\ exists before after : list A,
           l = before ++ x :: after /\ Forall (fun y => p y = false) before
  | None => Forall (fun y => p y = false) l
  end.
Proof.
  induction l as [|a l IH]; cbn [List.find]; [constructor|].
  destruct (p a) eqn:Ha.
  - split; [exact Ha|]. exists [], l. split; [reflexivity | constructor].
  - destruct (List.find p l) as [x|].
    + destruct IH as (Hx & before & after & -> & Hb). split; [exact Hx|].
      exists (a :: before), after. split; [reflexivity | now constructor].
    + now constructor.
Qed.

(** X20.  When the media source opens, the source buffer is created for a
    type the browser supports: the file's own type if that is supported,
    otherwise the first supported one of the fallbacks in their listed
    order.  When neither the file's type nor any fallback is supported, or
    creating the buffer raises, no buffer is set and one error naming the
    file's type is reported. *)
Theorem onSourceOpen_supported (isTypeSupported : string -> bool)
    (addSourceBuffer : string -> option SourceBuffer) (s : Service)
    (ms : MediaSourceState) (md : Wire.MovieMetadata) :
  mediaSource s = Some ms -> movieMetadata s = Some md ->
  let unsupported :=
    [Core (ConsoleError "Failed to create SourceBuffer:");
     OnErrorText (String.append "Unsupported video format: " (Wire.fileType md))] in
  match chooseMimeType isTypeSupported (Wire.fileType md) with
  | Some mimeType =>
      isTypeSupported mimeType = true
      /\ (isTypeSupported (Wire.fileType md) = true -> mimeType = Wire.fileType md)
      /\ (isTypeSupported (Wire.fileType md) = false ->
          exists before after : list string,
            fallbacks = before ++ mimeType :: after
            /\ Forall (fun candidate => isTypeSupported candidate = false) before)
      /\ onSourceOpen isTypeSupported addSourceBuffer s
         = match addSourceBuffer mimeType with
           | Some sb => (set_sourceBuffer (Some sb) s, [])
           | None => (s, unsupported)
           end
  | None =>
      isTypeSupported (Wire.fileType md) = false
      /\ Forall (fun candidate => isTypeSupported candidate = false) fallbacks
      /\ onSourceOpen isTypeSupported addSourceBuffer s = (s, unsupported)
  end.
Proof.
  intros Hms Hmd unsupported. unfold onSourceOpen. rewrite Hms, Hmd.
  unfold chooseMimeType.
  destruct (isTypeSupported (Wire.fileType md)) eqn:Hown.
  - split_and!; [exact Hown | reflexivity | discriminate |].
    now destruct (addSourceBuffer (Wire.fileType md)).
  - pose proof (find_first isTypeSupported fallbacks) as Hfind.
    destruct (List.find isTypeSupported fallbacks) as [mimeType|].
    + destruct Hfind as (Hsup & Hfirst).
      split_and!; [exact Hsup | discriminate | intros _; exact Hfirst |].
      now destruct (addSourceBuffer mimeType).
    + split_and!; [reflexivity | exact Hfind | reflexivity].
Qed.

Lemma onSourceOpen_supported_witness :
  onSourceOpen mp4Only freshBuffer sampleSession
  = (set_sourceBuffer (Some {| appended := []; appendFails := false |}) sampleSession, []).
Proof.
  pose proof (onSourceOpen_supported mp4Only freshBuffer sampleSession ms_closed
                {| Wire.fileName := "movie.mp4"; Wire.fileSize := 40000;
                   Wire.fileType := "video/mp4" |} eq_refl eq_refl) as H.
  cbv zeta in H. destruct H as (_ & _ & _ & H). exact H.
Defined.

(** *** File sizes *)

Ltac scale_test :=
  match goal with
  | |- context [Qle_bool 1024 ?q] =>
      let E := fresh "E" in
      destruct (Qle_bool 1024 q) eqn:E;
      [ apply Qle_bool_iff in E
      | apply not_true_iff_false in E; rewrite Qle_bool_iff in E;
        apply Qnot_le_lt in E ];
      try (exfalso; lra)
  end.

Lemma scaleLoop_units (size : Q) :
  scaleLoop 3 size 0
  = if Qle_bool 1024 size then
      if Qle_bool 1024 (size / 1024) then
        if Qle_bool 1024 (size / 1024 / 1024) then ((size / 1024 / 1024 / 1024)%Q, 3%nat)
        else ((size / 1024 / 1024)%Q, 2%nat)
      else ((size / 1024)%Q, 1%nat)
    else (size, 0%nat).
Proof. reflexivity. Qed.

(** Below 10^21 [toFixed] prints every digit itself. *)
Lemma toFixed1_digits (f g : Q -> string) (x : Q) :
  (Qabs x < inject_Z (10 ^ 21))%Q -> toFixed1 f x = toFixed1 g x.
Proof.
  intros H. unfold toFixed1.
  destruct (Qle_bool (inject_Z (10 ^ 21)) (Qabs x)) eqn:E; [|reflexivity].
  apply Qle_bool_iff in E. exfalso. exact (Qlt_not_le _ _ H E).
Qed.

Lemma formatFileSize_cases (numberToString : Q -> string) (bytes : Z) :
  let size := inject_Z bytes in
  (bytes < 1024 ->
   formatFileSize numberToString bytes
   = String.append (toFixed1 numberToString size) " B")
  /\ (1024 <= bytes < 1024 * 1024 ->
      formatFileSize numberToString bytes
      = String.append (toFixed1 numberToString (size / 1024)%Q) " KB")
  /\ (1024 * 1024 <= bytes < 1024 * 1024 * 1024 ->
      formatFileSize numberToString bytes
      = String.append (toFixed1 numberToString (size / 1024 / 1024)%Q) " MB")
  /\ (1024 * 1024 * 1024 <= bytes ->
      formatFileSize numberToString bytes
      = String.append (toFixed1 numberToString (size / 1024 / 1024 / 1024)%Q) " GB").
Proof.
  intros size.
  split_and!; unfold formatFileSize;
    change (length units - 1)%nat with 3%nat; rewrite scaleLoop_units; fold size;
    set (kb := (size / 1024)%Q); set (mb := (kb / 1024)%Q); set (gb := (mb / 1024)%Q);
    assert (Hkb : (kb * 1024 == size)%Q) by (subst kb; field);
    assert (Hmb : (mb * 1024 == kb)%Q) by (subst mb; field);
    assert (Hgb : (gb * 1024 == mb)%Q) by (subst gb; field).
  - intros H. rewrite Zlt_Qlt in H. change (inject_Z 1024) with 1024%Q in H. fold size in H.
    scale_test. reflexivity.
  - intros [H1 H2]. rewrite Zle_Qle in H1. rewrite Zlt_Qlt in H2.
    change (inject_Z 1024) with 1024%Q in H1.
    change (inject_Z (1024 * 1024)) with 1048576%Q in H2. fold size in H1, H2.
    do 2 scale_test. reflexivity.
  - intros [H1 H2]. rewrite Zle_Qle in H1. rewrite Zlt_Qlt in H2.
    change (inject_Z (1024 * 1024)) with 1048576%Q in H1.
    change (inject_Z (1024 * 1024 * 1024)) with 1073741824%Q in H2. fold size in H1, H2.
    do 3 scale_test. reflexivity.
  - intros H. rewrite Zle_Qle in H.
    change (inject_Z (1024 * 1024 * 1024)) with 1073741824%Q in H. fold size in H.
    do 3 scale_test. reflexivity.
Qed.

(** X21.  For a byte count the code holds exactly (an integer below 2^53
    in magnitude), [formatFileSize] shows a size below 1024 in bytes, one
    below 1024^2 in KB, one below 1024^3 in MB and every larger one in GB
    (there is no larger unit, so the number may then be 1024 or more); the
    number shown is the size divided by 1024 once per unit step, rounded to
    one decimal, every digit printed by [toFixed] itself. *)
Theorem formatFileSize_units (numberToString : Q -> string) (bytes : Z) :
  - 2 ^ 53 < bytes < 2 ^ 53 ->
  let size := inject_Z bytes in
  (bytes < 1024 ->
   formatFileSize numberToString bytes
   = String.append (toFixed1 numberToString size) " B")
  /\ (1024 <= bytes < 1024 * 1024 ->
      formatFileSize numberToString bytes
      = String.append (toFixed1 numberToString (size / 1024)%Q) " KB")
  /\ (1024 * 1024 <= bytes < 1024 * 1024 * 1024 ->
      formatFileSize numberToString bytes
      = String.append (toFixed1 numberToString (size / 1024 / 1024)%Q) " MB")
  /\ (1024 * 1024 * 1024 <= bytes ->
      formatFileSize numberToString bytes
      = String.append (toFixed1 numberToString (size / 1024 / 1024 / 1024)%Q) " GB")
  /\ formatFileSize numberToString bytes = formatFileSize (fun _ => EmptyString) bytes
  /\ formatFileSize numberToString 0 = "0.0 B"%string
  /\ formatFileSize numberToString 1536 = "1.5 KB"%string
  /\ formatFileSize numberToString 40000 = "39.1 KB"%string
  /\ formatFileSize numberToString (5 * 1024 * 1024 * 1024 * 1024) = "5120.0 GB"%string.
Proof.
  intros [Hlo Hhi] size.
  destruct (formatFileSize_cases numberToString bytes) as (C1 & C2 & C3 & C4).
  destruct (formatFileSize_cases (fun _ => EmptyString) bytes) as (D1 & D2 & D3 & D4).
  fold size in C1, C2, C3, C4, D1, D2, D3, D4.
  split_and!; [exact C1 | exact C2 | exact C3 | exact C4 | | vm_compute; reflexivity..].
  rewrite Zlt_Qlt in Hlo, Hhi. fold size in Hlo, Hhi.
  change (inject_Z (- 2 ^ 53)) with (- (9007199254740992))%Q in Hlo.
  change (inject_Z (2 ^ 53)) with 9007199254740992%Q in Hhi.
  set (kb := (size / 1024)%Q) in *. set (mb := (kb / 1024)%Q) in *.
  set (gb := (mb / 1024)%Q) in *.
  assert (Hkb : (kb * 1024 == size)%Q) by (subst kb; field).
  assert (Hmb : (mb * 1024 == kb)%Q) by (subst mb; field).
  assert (Hgb : (gb * 1024 == mb)%Q) by (subst gb; field).
  assert (Hsmall : forall x : Q,
            (- (9007199254740992) < x)%Q -> (x < 9007199254740992)%Q ->
            toFixed1 numberToString x = toFixed1 (fun _ => EmptyString) x).
  { intros x H1 H2. apply toFixed1_digits. apply Qabs_Qlt_condition.
    change (inject_Z (10 ^ 21)) with 1000000000000000000000%Q. split; lra. }
  destruct (Z.lt_ge_cases bytes 1024) as [H|H];
    [rewrite C1, D1 by lia; f_equal; apply Hsmall; lra|].
  pose proof H as HQ. rewrite Zle_Qle in HQ. fold size in HQ.
  change (inject_Z 1024) with 1024%Q in HQ.
  destruct (Z.lt_ge_cases bytes (1024 * 1024)) as [H1|H1];
    [rewrite C2, D2 by lia; f_equal; apply Hsmall; lra|].
  destruct (Z.lt_ge_cases bytes (1024 * 1024 * 1024)) as [H2|H2];
    [rewrite C3, D3 by lia; f_equal; apply Hsmall; lra|].
  rewrite C4, D4 by lia. f_equal. apply Hsmall; lra.
Qed.

Lemma formatFileSize_units_witness :
  formatFileSize (fun _ => EmptyString) 40000
  = String.append (toFixed1 (fun _ => EmptyString) (inject_Z 40000 / 1024)%Q) " KB".
Proof.
  destruct (formatFileSize_units (fun _ => EmptyString) 40000) as (_ & H & _);
    [split; reflexivity|].
  apply H. split; [discriminate | reflexivity].
Defined.

(** *** A whole transfer, from the file to the sink *)

Lemma sentMessages_app (e1 e2 : list Effect) :
  sentMessages (e1 ++ e2) = sentMessages e1 ++ sentMessages e2.
Proof. apply omap_app. Qed.

Lemma sentMessages_filter (effects : list Effect) :
  sentMessages (List.filter isChannelSend effects) = sentMessages effects.
Proof.
  unfold sentMessages. induction effects as [|e effects IH]; [reflexivity|].
  destruct e; cbn; rewrite ?IH; reflexivity.
Qed.

(** What the channel carries over a whole transfer. *)
Lemma transfer_sent (file : File) (s : Service) (rest : list ReadyState) :
  dataChannel s = Some {| readyState := open; sendFails := false |} ->
  isSending s = false ->
  let n := (file_size file + CHUNK_SIZE - 1) / CHUNK_SIZE in
  let chunks := chunkLoop (Z.to_nat n) 0 file [] in
  let start := shareMovie file s in
  fileChunks (fst start) = chunks
  /\ totalChunks (fst start) = n
  /\ sentMessages
       (snd start ++ snd (pacingLoop (repeat open (length chunks + 1) ++ rest) (fst start)))
     = metadataMessage n {| Wire.fileName := file_name file;
                            Wire.fileSize := file_size file;
                            Wire.fileType := file_type file |}
         :: sentMessages (chunkSends n 0 chunks)
  /\ n = Z.of_nat (length chunks)
  /\ concat chunks = file_bytes file.
Proof.
  intros Hch Hs n chunks start.
  pose proof (shareMovie_started_effects file s Hch Hs) as He.
  pose proof (shareMovie_started_state file s Hch Hs) as Hst.
  fold start n in He, Hst. fold chunks in Hst.
  assert (Hsize : 0 <= file_size file) by (unfold file_size; lia).
  assert (Hn : 0 <= n) by (subst n; unfold CHUNK_SIZE; lia).
  assert (Hc : fileChunks (fst start) = chunks) by now rewrite Hst.
  assert (Ht : totalChunks (fst start) = n) by now rewrite Hst.
  assert (Hlen : n = Z.of_nat (length chunks))
    by (subst chunks; rewrite chunkLoop_length; cbn [length]; lia).
  pose proof (pacingLoop_all rest (fst start)) as R. cbv zeta in R.
  rewrite Hc, Ht in R.
  destruct R as (R1 & _); [now rewrite Hst | now rewrite Hst | now rewrite Hst | exact Hlen |].
  split_and!; [exact Hc | exact Ht | | exact Hlen |].
  - rewrite <- sentMessages_filter, List.filter_app, R1, He. reflexivity.
  - subst chunks. rewrite chunkLoop_concat by lia. cbn [concat app].
    change (0 * CHUNK_SIZE) with 0. apply slice_all.
    fold (file_size file). subst n. unfold CHUNK_SIZE. lia.
Qed.

Lemma fileChunks_nonempty (file : File) (d : nat) (c : Bytes) :
  chunkLoop (Z.to_nat ((file_size file + CHUNK_SIZE - 1) / CHUNK_SIZE)) 0 file [] !! d
  = Some c ->
  c <> [].
Proof.
  intros Hd. pose proof (lookup_lt_Some _ _ _ Hd) as Hlt.
  rewrite chunkLoop_length in Hlt. cbn [length] in Hlt.
  rewrite chunkLoop_lookup in Hd by lia. injection Hd as <-.
  intros Hnil. apply (f_equal byteLength) in Hnil.
  rewrite slice_byteLength in Hnil by (unfold CHUNK_SIZE; lia).
  unfold byteLength, file_size, CHUNK_SIZE in *. cbn [length] in Hnil. lia.
Qed.

Lemma chunkPayload_sent (i total : Z) (c : Bytes) :
  c <> [] -> chunkPayload (chunkMessage i total (arrayBufferToBase64 c)) = Some (i, c).
Proof.
  intros Hc. unfold chunkPayload, chunkMessage. cbn [Wire.chunkIndex Wire.data].
  rewrite arrayBufferToBase64_empty, base64_roundtrip.
  now destruct c.
Qed.

Lemma chunkSends_sent (total k : Z) (chunks : list Bytes) (m : Wire.ChunkMessage) :
  In m (sentMessages (chunkSends total k chunks)) <->
  exists (d : nat) (c : Bytes),
    chunks !! d = Some c
    /\ m = chunkMessage (k + Z.of_nat d) total (arrayBufferToBase64 c).
Proof.
  revert k. induction chunks as [|c0 chunks IH]; intros k.
  - split; [intros [] | intros (d & c & H & _); discriminate H].
  - cbn [chunkSends]. change (sentMessages (?e :: ?es))
      with (match e with ChannelSend m => m :: sentMessages es | _ => sentMessages es end).
    cbn [In]. rewrite IH. split.
    + intros [<-|(d & c & Hd & ->)].
      * exists 0%nat, c0. split; [reflexivity|]. now rewrite Z.add_0_r.
      * exists (S d), c. split; [exact Hd|]. f_equal. lia.
    + intros ([|d] & c & Hd & ->).
      * left. injection Hd as ->. now rewrite Z.add_0_r.
      * right. exists d, c. split; [exact Hd|]. f_equal. lia.
Qed.

(** Every message of the chunks of a file carries a chunk of the file under
    its index, and every chunk is carried by one of them. *)
Lemma chunkSends_chunkOf (file : File) :
  let n := (file_size file + CHUNK_SIZE - 1) / CHUNK_SIZE in
  let chunks := chunkLoop (Z.to_nat n) 0 file [] in
  Forall (chunkOf chunks) (sentMessages (chunkSends n 0 chunks))
  /\ forall (i : Z) (c : Bytes),
       index chunks i = Some c ->
       exists m : Wire.ChunkMessage,
         In m (sentMessages (chunkSends n 0 chunks)) /\ chunkPayload m = Some (i, c).
Proof.
  intros n chunks. split.
  - apply List.Forall_forall. intros m Hm. apply chunkSends_sent in Hm.
    destruct Hm as (d & c & Hd & ->). split; [reflexivity|].
    intros i c'. rewrite chunkPayload_sent by exact (fileChunks_nonempty file d c Hd).
    intros [= <- <-]. apply index_lookup. split; [lia|].
    now replace (Z.to_nat (0 + Z.of_nat d)) with d by lia.
  - intros i c Hi. apply index_lookup in Hi. destruct Hi as (Hi & Hc).
    exists (chunkMessage i n (arrayBufferToBase64 c)). split.
    + apply chunkSends_sent. exists (Z.to_nat i), c. split; [exact Hc|]. f_equal. lia.
    + apply chunkPayload_sent. exact (fileChunks_nonempty file _ c Hc).
Qed.

(** A valid metadata message on a receiver with a play surface. *)
Lemma handleMetadata_opens (meta : Wire.ChunkMessage) (md : Wire.MovieMetadata)
    (total : Z) (video : Video.HTMLVideoElement) (s : Service) :
  Wire.metadata meta = Some md -> Wire.totalChunks meta = Some total -> total <> 0 ->
  videoElement s = Some video ->
  let s1 := fst (handleMetadata meta s) in
  receivedChunks s1 = ∅ /\ bufferedChunkIndex s1 = 0
  /\ isBuffering s1 = isBuffering s
  /\ mediaSource s1 = Some ms_closed /\ movieMetadata s1 = Some md
  /\ expectedTotalChunks s1 = total.
Proof.
  intros Hmd Ht Hne Hv. unfold handleMetadata. rewrite Hmd, Ht.
  destruct (Z.eqb_spec total 0) as [|_]; [contradiction|].
  unfold setupMediaSource, cleanupMediaSource, andThen, assign, emit, skip.
  cbn. rewrite Hv. destruct (mediaSource s) as [[]|]; now cbn.
Qed.

(** A run of the feeder on a sink that accepts its blocks leaves nothing
    waiting at the cursor unless an append is pending. *)
Lemma bufferChunks_inv (chunks : list Bytes) (s : Service) :
  storesOnly chunks s -> fedPrefix chunks s ->
  (exists sb : SourceBuffer, sourceBuffer s = Some sb /\ appendFails sb = false) ->
  feedingInv chunks (fst (bufferChunks s))
  /\ receivedChunks (fst (bufferChunks s)) = receivedChunks s
  /\ expectedTotalChunks (fst (bufferChunks s)) = expectedTotalChunks s.
Proof.
  intros Hstore Hfed (sb & Hsb & Hok).
  destruct (bufferChunks_keeps chunks s Hstore Hfed) as (H1 & H2 & _).
  destruct (bufferChunks_frame s) as (Hmap & _ & Hexp & _).
  split; [|split; assumption]. split_and!; [exact H1 | exact H2 | |].
  - unfold bufferChunks. rewrite Hsb.
    destruct (isBuffering s); [exists sb; split; [exact Hsb | exact Hok]|].
    destruct (collectSequential 5 _ _ _) as [[|c run] j];
      [exists sb; split; [exact Hsb | exact Hok]|].
    rewrite Hok. cbn. eexists. split; reflexivity.
  - unfold bufferChunks. rewrite Hsb.
    destruct (isBuffering s) eqn:Hb; [cbn [skip fst]; congruence|].
    destruct (collectSequential_spec 5 (receivedChunks s) (bufferedChunkIndex s) [])
      as (run & -> & _ & _ & Hmax).
    cbn [app]. destruct run as [|c run].
    + intros _. cbn [skip fst]. destruct Hmax as [Hmax|Hmax]; [discriminate|].
      cbn [length Z.of_nat] in Hmax. now rewrite Z.add_0_r in Hmax.
    + rewrite Hok. cbn. discriminate.
Qed.

Lemma onUpdateEnd_inv (chunks : list Bytes) (s : Service) :
  feedingInv chunks s ->
  feedingInv chunks (fst (onUpdateEnd s))
  /\ receivedChunks (fst (onUpdateEnd s)) = receivedChunks s
  /\ expectedTotalChunks (fst (onUpdateEnd s)) = expectedTotalChunks s.
Proof.
  intros (Hstore & Hfed & Hsink & _). unfold onUpdateEnd, andThen, assign.
  pose proof (bufferChunks_inv chunks (set_isBuffering false s) Hstore Hfed Hsink) as H.
  now destruct (bufferChunks (set_isBuffering false s)).
Qed.

Lemma handleChunk_inv (chunks : list Bytes) (m : Wire.ChunkMessage) (s : Service) :
  carries chunks (ChunkArrives m) -> feedingInv chunks s ->
  let s' := fst (handleChunk m s) in
  feedingInv chunks s'
  /\ expectedTotalChunks s' = expectedTotalChunks s
  /\ (forall (j : Z) (c : Bytes),
        receivedChunks s !! j = Some c -> receivedChunks s' !! j = Some c)
  /\ (forall (i : Z) (c : Bytes),
        chunkPayload m = Some (i, c) -> receivedChunks s' !! i = Some c).
Proof.
  intros Hm (Hstore & Hfed & Hsink & Hwait) s'. subst s'.
  destruct (chunkPayload m) as [[i b]|] eqn:Hp.
  - destruct (handleChunk_stores m s i b Hp) as (Hmap & _ & Hexp).
    assert (Hinv : feedingInv chunks (fst (handleChunk m s))).
    { destruct (handleChunk_accepted m s i b Hp) as (e1 & -> & _). cbn [fst].
      set (s1 := set_receivingProgress _ _).
      destruct (checkPlaybackReadiness_spec s1) as (-> & _).
      set (s2 := if _ : bool then _ else s1).
      assert (Hmap2 : receivedChunks s2 = <[i := b]> (receivedChunks s))
        by (subst s2; now destruct (_ && _)).
      assert (Hf : fed s2 = fed s) by (subst s2; now destruct (_ && _)).
      assert (Hc : bufferedChunkIndex s2 = bufferedChunkIndex s)
        by (subst s2; now destruct (_ && _)).
      assert (Hs : sourceBuffer s2 = sourceBuffer s) by (subst s2; now destruct (_ && _)).
      apply bufferChunks_inv.
      - intros j c. rewrite Hmap2. destruct (decide (i = j)) as [<-|Hne].
        + rewrite lookup_insert_eq. intros [= <-]. now apply Hm.
        + rewrite lookup_insert_ne by done. apply Hstore.
      - unfold fedPrefix. now rewrite Hf, Hc.
      - now rewrite Hs. }
    split_and!; [exact Hinv | exact Hexp | |].
    + intros j c Hj. rewrite Hmap. destruct (decide (i = j)) as [<-|Hne].
      * rewrite lookup_insert_eq. f_equal.
        apply Hstore in Hj. specialize (Hm i b Hp). congruence.
      * now rewrite lookup_insert_ne by done.
    + intros i' c' [= <- <-]. rewrite Hmap. apply lookup_insert_eq.
  - destruct (handleChunk_rejected m s Hp) as (-> & _).
    split_and!; [now split_and! | reflexivity | auto | discriminate].
Qed.

Lemma andAlso_fst (a b : Handler) (s : Service) :
  fst ((a >>> b) s) = fst (b (fst (a s))).
Proof. unfold andAlso. destruct (a s) as [s1 n1]. cbn [fst]. now destruct (b s1). Qed.

Lemma lift_fst (a : Action) (s : Service) : fst (lift a s) = fst (a s).
Proof. unfold lift. now destruct (a s). Qed.

(** Chunk messages of a file and completions of the sink, in any order. *)
Lemma run_receiving (chunks : list Bytes) (events : list Event) (s : Service) :
  forallb isReceiving events = true ->
  Forall (chunkOf chunks) (arrivals events) ->
  feedingInv chunks s ->
  let s' := fst (run events s) in
  feedingInv chunks s'
  /\ expectedTotalChunks s' = expectedTotalChunks s
  /\ (forall (j : Z) (c : Bytes),
        receivedChunks s !! j = Some c -> receivedChunks s' !! j = Some c)
  /\ (forall (m : Wire.ChunkMessage) (i : Z) (c : Bytes),
        In m (arrivals events) -> chunkPayload m = Some (i, c) ->
        receivedChunks s' !! i = Some c).
Proof.
  revert s. induction events as [|ev events IH]; intros s Hev Hms Hinv.
  - cbn. split_and!; auto. intros m i c [].
  - cbn [forallb] in Hev. apply andb_prop in Hev. destruct Hev as (Hev1 & Hev2).
    cbn [run]. cbv zeta. rewrite andAlso_fst.
    destruct ev as [| | | | |now [| |m]| | | |]; try discriminate Hev1.
    + change (arrivals (MessageArrives now (Parsed m) :: events))
        with (m :: arrivals events) in *.
      apply List.Forall_cons_iff in Hms. destruct Hms as ((Ht & Hm) & Hms).
      cbn [react handleIncomingMessage]. rewrite Ht, lift_fst.
      destruct (handleChunk_inv chunks m s Hm Hinv) as (H1 & H2 & H3 & H4).
      destruct (IH (fst (handleChunk m s)) Hev2 Hms H1) as (I1 & I2 & I3 & I4).
      split_and!; [exact I1 | congruence | auto |].
      intros m' i c [<-|Hin] Hp; [apply I3; now apply H4 | now apply (I4 m')].
    + change (arrivals (UpdateEnd :: events)) with (arrivals events) in *.
      cbn [react]. rewrite lift_fst.
      destruct (onUpdateEnd_inv chunks s Hinv) as (H1 & H2 & H3).
      destruct (IH (fst (onUpdateEnd s)) Hev2 Hms H1) as (I1 & I2 & I3 & I4).
      split_and!; [exact I1 | congruence | | exact I4].
      intros j c Hj. apply I3. now rewrite H2.
Qed.

Lemma settle_idle (fuel : nat) (s : Service) :
  isBuffering s = false -> settle fuel s = (s, []).
Proof. intros H. destruct fuel; [reflexivity|]. cbn [settle]. now rewrite H. Qed.

(** With every chunk stored, the sink completing its appends drains the
    store: the feeder stops with nothing pending and the cursor behind the
    last chunk. *)
Lemma settle_drains (chunks : list Bytes) (fuel : nat) (s : Service) :
  feedingInv chunks s -> storesAll chunks s ->
  Z.of_nat (length chunks) - bufferedChunkIndex s < Z.of_nat fuel ->
  let s' := fst (settle fuel s) in
  isBuffering s' = false /\ feedingInv chunks s' /\ storesAll chunks s'
  /\ expectedTotalChunks s' = expectedTotalChunks s.
Proof.
  revert s. induction fuel as [|fuel IH]; intros s Hinv Hall Hfuel.
  - destruct Hinv as (_ & ((_ & Hhi) & _) & _). lia.
  - cbn [settle]. cbv zeta. destruct (isBuffering s) eqn:Hb;
      [|cbn [skip fst]; now split_and!].
    unfold andThen.
    destruct (onUpdateEnd_inv chunks s Hinv) as (H1 & H2 & H3).
    pose proof Hinv as (Hstore & Hfed & (sb & Hsb & Hok) & _).
    destruct (feeder_round chunks s sb Hstore Hall Hfed Hsb Hok) as (Hc & _).
    assert (Hall1 : storesAll chunks (fst (onUpdateEnd s)))
      by (unfold storesAll; now rewrite H2).
    destruct (onUpdateEnd s) as [s1 e1] eqn:E1. cbn [fst] in *.
    destruct (isBuffering s1) eqn:Hb1.
    + destruct Hfed as ((Hlo & Hhi) & _).
      assert (Hlt : bufferedChunkIndex s < Z.of_nat (length chunks)).
      { destruct (Z.lt_ge_cases (bufferedChunkIndex s) (Z.of_nat (length chunks)));
          [assumption|].
        assert (Hnone : receivedChunks s !! bufferedChunkIndex s = None).
        { destruct (receivedChunks s !! bufferedChunkIndex s) as [c|] eqn:Hc';
            [|reflexivity].
          apply Hstore, index_lookup in Hc'. destruct Hc' as (_ & Hc').
          apply lookup_lt_Some in Hc'. lia. }
        revert E1. unfold onUpdateEnd, andThen, assign.
        rewrite (bufferChunks_waits (set_isBuffering false s) Hnone).
        intros [= <- <-]. discriminate Hb1. }
      destruct (IH s1 H1 Hall1 ltac:(lia)) as (I1 & I2 & I3 & I4).
      destruct (settle fuel s1) as [s2 e2]. cbn [fst] in *.
      split_and!; [exact I1 | exact I2 | exact I3 | congruence].
    + rewrite (settle_idle fuel s1 Hb1). cbn [fst].
      split_and!; [exact Hb1 | exact H1 | exact Hall1 | exact H3].
Qed.

(** X22.  A whole transfer, from the file to the sink.  A sender on a
    channel that stays open shares a file that is not empty; the receiver
    has a play surface and no append pending, gets the announcement, its
    media source opens with a supported type, and then the chunk messages
    arrive, in the order sent, with completions of the sink falling anywhere
    between them.  Once the sink has completed the appends it was given, it
    holds exactly the bytes of the file, the cursor is behind the last chunk
    and nothing is pending. *)
Theorem transfer_end_to_end (file : File) (sender receiver : Service)
    (video : Video.HTMLVideoElement) (rest : list ReadyState) (now : Z)
    (isTypeSupported : string -> bool)
    (addSourceBuffer : string -> option SourceBuffer) (mimeType : string)
    (announcement : Wire.ChunkMessage) (later : list Event) (fuel : nat) :
  file_bytes file <> [] ->
  dataChannel sender = Some {| readyState := open; sendFails := false |} ->
  isSending sender = false ->
  videoElement receiver = Some video -> isBuffering receiver = false ->
  chooseMimeType isTypeSupported (file_type file) = Some mimeType ->
  addSourceBuffer mimeType = Some {| appended := []; appendFails := false |} ->
  let start := shareMovie file sender in
  let pacing :=
    pacingLoop (repeat open (length (fileChunks (fst start)) + 1) ++ rest) (fst start) in
  sentMessages (snd start ++ snd pacing) = announcement :: arrivals later ->
  forallb isReceiving later = true ->
  (length (fileChunks (fst start)) < fuel)%nat ->
  let arrived :=
    fst (run (MessageArrives now (Parsed announcement)
              :: SourceOpens isTypeSupported addSourceBuffer :: later) receiver) in
  let final := fst (settle fuel arrived) in
  concat (fed final) = file_bytes file
  /\ bufferedChunkIndex final = totalChunks (fst start)
  /\ isBuffering final = false
  /\ expectedTotalChunks final = totalChunks (fst start).
Proof.
  intros Hfile Hch Hs Hv Hidle Hmime Hadd start pacing Hsent Hlater Hfuel arrived final.
  destruct (transfer_sent file sender rest Hch Hs) as (Hc & Ht & Hmsgs & Hlen & Hcat).
  fold start in Hc, Ht, Hmsgs.
  set (n := (file_size file + CHUNK_SIZE - 1) / CHUNK_SIZE) in *.
  set (chunks := chunkLoop (Z.to_nat n) 0 file []) in *.
  subst pacing. rewrite Hc in Hsent, Hfuel. rewrite Hmsgs in Hsent.
  injection Hsent as <- Hsent.
  destruct (chunkSends_chunkOf file) as (Hof & Hevery). fold n chunks in Hof, Hevery.
  rewrite Hsent in Hof, Hevery.
  assert (Hn : n <> 0).
  { assert (0 < length (file_bytes file))%nat by (destruct (file_bytes file); [easy|cbn; lia]).
    subst n. unfold file_size, CHUNK_SIZE. lia. }
  set (meta := metadataMessage n _) in *.
  destruct (handleMetadata_opens meta _ n video receiver eq_refl eq_refl Hn Hv)
    as (M1 & M2 & M3 & M4 & M5 & M6).
  set (r1 := fst (handleMetadata meta receiver)) in *.
  assert (Hopen : onSourceOpen isTypeSupported addSourceBuffer r1
                  = (set_sourceBuffer (Some {| appended := []; appendFails := false |}) r1,
                     [])).
  { unfold onSourceOpen. rewrite M4, M5. cbn [Wire.fileType]. rewrite Hmime, Hadd.
    reflexivity. }
  set (r2 := set_sourceBuffer (Some {| appended := []; appendFails := false |}) r1).
  assert (Hinv : feedingInv chunks r2).
  { split_and!.
    - intros i c. change (receivedChunks r2) with (receivedChunks r1).
      rewrite M1, lookup_empty. discriminate.
    - split; [change (bufferedChunkIndex r2) with (bufferedChunkIndex r1); lia|].
      change (bufferedChunkIndex r2) with (bufferedChunkIndex r1). now rewrite M2.
    - eexists. split; reflexivity.
    - intros _. change (receivedChunks r2) with (receivedChunks r1).
      now rewrite M1, lookup_empty. }
  assert (Harrived : arrived = fst (run later r2)).
  { subst arrived. cbn [run]. rewrite !andAlso_fst.
    cbn [react handleIncomingMessage]. change (Wire.type meta) with Wire.metadata_t.
    cbv iota. rewrite lift_fst. fold r1. now rewrite Hopen. }
  destruct (run_receiving chunks later r2 Hlater Hof Hinv) as (R1 & R2 & _ & R4).
  rewrite <- Harrived in R1, R2, R4.
  assert (Hall : storesAll chunks arrived).
  { intros i c Hi. destruct (Hevery i c Hi) as (m & Hin & Hp). now apply (R4 m). }
  destruct (settle_drains chunks fuel arrived R1 Hall) as (S1 & S2 & S3 & S4).
  { destruct R1 as (_ & ((Hlo & _) & _) & _). lia. }
  fold final in S1, S2, S3, S4.
  destruct S2 as (Hstore & ((Hlo & Hhi) & Hfed) & _ & Hwait).
  assert (Hend : bufferedChunkIndex final = Z.of_nat (length chunks)).
  { destruct (Z.lt_ge_cases (bufferedChunkIndex final) (Z.of_nat (length chunks)));
      [|lia].
    destruct (lookup_lt_is_Some_2 chunks (Z.to_nat (bufferedChunkIndex final)))
      as [c Hc']; [lia|].
    assert (Hi : index chunks (bufferedChunkIndex final) = Some c)
      by (apply index_lookup; auto).
    apply S3 in Hi. rewrite (Hwait S1) in Hi. discriminate. }
  split_and!.
  - rewrite Hfed, Hend, Nat2Z.id, firstn_all. exact Hcat.
  - rewrite Hend, Ht. now symmetry.
  - exact S1.
  - rewrite S4, R2, Ht. exact M6.
Qed.

Lemma transfer_end_to_end_witness :
  concat (fed (fst (settle 2
                      (fst (run [MessageArrives t0
                                   (Parsed (metadataMessage 1
                                              {| Wire.fileName := "movie.mp4";
                                                 Wire.fileSize := 2;
                                                 Wire.fileType := "video/mp4" |}));
                                 SourceOpens mp4Only freshBuffer;
                                 MessageArrives t0 (Parsed (chunkMessage 0 1 "QUI="));
                                 UpdateEnd]
                              (newService sampleVideo))))))
  = [x41; x42].
Proof.
  refine (proj1 (transfer_end_to_end sampleFile sampleIdle (newService sampleVideo)
                   sampleVideo [] t0 mp4Only freshBuffer "video/mp4"
                   (metadataMessage 1 {| Wire.fileName := "movie.mp4"; Wire.fileSize := 2;
                                         Wire.fileType := "video/mp4" |})
                   [MessageArrives t0 (Parsed (chunkMessage 0 1 "QUI=")); UpdateEnd] 2
                   _ eq_refl eq_refl eq_refl eq_refl eq_refl eq_refl _ eq_refl _)).
  - discriminate.
  - vm_compute. reflexivity.
  - vm_compute. lia.
Defined.
